(** * revlog-converter: a shallow embedding of the REVLOG to WPILOG transcoder

    The development follows the two source files of the package:

    - [revDBC.ts]: the signal catalog ([Dbc.load]) and the CAN frame decoder
      ([CanDecoder.decode]);
    - [revlogParser.ts]: the record transcoder ([parseREVLOG]) with its target
      writer ([writeControlRecord], [writeRecord]);
    - the command line ([main]), which hands a file or the standard input to
      [parseREVLOG].

    Modelling conventions.

    - A [Buffer] is a [list byte]; a JavaScript [number] that holds an integer
      (cursors, identifiers, bit positions, lengths) is a [Z]; a [number] that
      holds a scaled quantity (factor, offset, min, max, physical values) is an
      IEEE-754 binary64 value, [spec_float] with [prec = 53] and [emax = 1024];
      a [bigint] is a [Z].
    - Strings are sequences of 8-bit code units; the catalogs are read with the
      [ascii] encoding and every name the transcoder builds is ASCII.
    - Exceptions are explicit: pure helpers return an [outcome], the writer and
      the scan run in a state monad whose state survives a [Throw], as the
      mutable bindings of the source do when a [catch] swallows an exception.
    - The command line is a function from what the process is started with
      (arguments, standard input, file system) to the list of its effects.
    - Idealisations: memory is unbounded (no allocation failure, no limit on
      the size of a bigint), integers read from catalogs by [parseInt] and the
      record counter stay below 2^53, so they are exact, and a NaN read from a
      payload is the one NaN of [spec_float], whatever its bits. A theorem
      that says that a computation does not raise bounds the sizes that a
      catalog declares, so that it does not rest on the first of these. *)

From Stdlib Require Import ZArith Lia List String Ascii Strings.Byte Bool.
From Stdlib Require Import Floats.SpecFloat.
From stdpp Require Import gmap strings list pretty.

Local Open Scope string_scope.
Local Open Scope Z_scope.

(** ** Outcomes of fallible code *)

Inductive exn : Type :=
| Error (message : string)          (* [throw new Error(message)] *)
| RangeError (what : string)        (* raised by the runtime: out-of-range reads and writes, [BigInt(NaN)] *)
| SyntaxError (what : string).      (* raised by the runtime: [BigInt("text")] *)

Inductive outcome (A : Type) : Type :=
| Ok (a : A)
| Throw (e : exn).
Arguments Ok {A} a.
Arguments Throw {A} e.

Definition obind {A B} (x : outcome A) (f : A -> outcome B) : outcome B :=
  match x with
  | Ok a => f a
  | Throw e => Throw e
  end.

(** ** Buffers *)

Definition byte_to_Z (b : byte) : Z := Z.of_N (Byte.to_N b).

Definition byte_of_Z (z : Z) : byte :=
  match Byte.of_N (Z.to_N (z mod 256)) with
  | Some b => b
  | None => x00
  end.

Definition Buffer_from (l : list Z) : list byte := map byte_of_Z l.

Definition Buffer_alloc (n : Z) : list byte := replicate (Z.to_nat n) x00.

Definition Buffer_length (b : list byte) : Z := Z.of_nat (length b).

(** [buf.slice(from, to)] for [0 <= from]. *)
Definition Buffer_slice (b : list byte) (from to : Z) : list byte :=
  take (Z.to_nat (to - from)) (drop (Z.to_nat from) b).

(** Little-endian value of a byte sequence. *)
Fixpoint le_value (l : list byte) : Z :=
  match l with
  | [] => 0
  | b :: l' => byte_to_Z b + 256 * le_value l'
  end.

(** The [n] low bytes of [z], least significant first. *)
Fixpoint le_bytes (n : nat) (z : Z) : list byte :=
  match n with
  | O => []
  | S n' => byte_of_Z z :: le_bytes n' (z / 256)
  end.

(** The unsigned little-endian field of [n] bytes at [offset], as the readers
    of a fixed width compute it: the runtime raises when the field leaves the
    buffer. *)
Definition read_field (b : list byte) (offset n : Z) : outcome Z :=
  if (offset + n >? Buffer_length b) || (offset <? 0)
  then Throw (RangeError "ERR_OUT_OF_RANGE")
  else Ok (le_value (Buffer_slice b offset (offset + n))).

(** [buf.readUInt8(offset)], [buf.readUInt32LE(offset)], [buf.readBigUInt64LE(offset)]. *)
Definition readUInt8 (b : list byte) (offset : Z) : outcome Z := read_field b offset 1.
Definition readUInt32LE (b : list byte) (offset : Z) : outcome Z := read_field b offset 4.
Definition readBigUInt64LE (b : list byte) (offset : Z) : outcome Z := read_field b offset 8.

(** [buf.readUIntLE(offset, byteLength)]: the runtime reads fields of one to
    six bytes and raises for any other [byteLength]. *)
Definition readUIntLE (b : list byte) (offset byteLength : Z) : outcome Z :=
  if (byteLength <? 1) || (byteLength >? 6)
  then Throw (RangeError "ERR_OUT_OF_RANGE")
  else read_field b offset byteLength.

Definition readUInt16BE (b : list byte) (offset : Z) : outcome Z :=
  if (offset + 2 >? Buffer_length b) || (offset <? 0)
  then Throw (RangeError "ERR_OUT_OF_RANGE")
  else Ok (le_value (rev (Buffer_slice b offset (offset + 2)))).

(** [b.writeUInt32LE(v)] on a fresh 4-byte buffer. *)
Definition writeUInt32LE (v : Z) : outcome (list byte) :=
  if (v <? 0) || (v >? 0xffffffff)
  then Throw (RangeError "ERR_OUT_OF_RANGE")
  else Ok (le_bytes 4 v).

(** [b.writeBigUInt64LE(v)] and [b.writeBigInt64LE(v)] on a fresh 8-byte buffer. *)
Definition writeBigUInt64LE (v : Z) : outcome (list byte) :=
  if (v <? 0) || (v >=? 2 ^ 64)
  then Throw (RangeError "ERR_OUT_OF_RANGE")
  else Ok (le_bytes 8 v).

Definition writeBigInt64LE (v : Z) : outcome (list byte) :=
  if (v <? - 2 ^ 63) || (v >=? 2 ^ 63)
  then Throw (RangeError "ERR_OUT_OF_RANGE")
  else Ok (le_bytes 8 v).

(** ** JavaScript numbers *)

Definition number : Type := spec_float.

Definition prec : Z := 53.
Definition emax : Z := 1024.

(** [Number(z)] for a bigint or an integer literal: round to nearest, ties to even. *)
Definition Number_of_Z (z : Z) : number := binary_normalize prec emax z 0 false.

Definition num_zero : number := S754_zero false.
Definition num_one : number := Number_of_Z 1.

Definition num_mul : number -> number -> number := SFmul prec emax.
Definition num_add : number -> number -> number := SFadd prec emax.

(** [x < y], [x > y], [x === y], [x !== y] on numbers. *)
Definition num_lt (x y : number) : bool := SFltb x y.
Definition num_gt (x y : number) : bool := SFltb y x.
Definition num_le (x y : number) : bool := SFleb x y.
Definition num_eq (x y : number) : bool := SFeqb x y.
Definition num_ne (x y : number) : bool := negb (SFeqb x y).

Definition is_nan (x : number) : bool :=
  match x with S754_nan => true | _ => false end.

(** The binary64 value of a 64-bit pattern ([readDoubleLE]). *)
Definition double_of_bits (w : Z) : number :=
  let s := Z.testbit w 63 in
  let e := Z.land (Z.shiftr w 52) 0x7ff in
  let m := Z.land w (2 ^ 52 - 1) in
  if e =? 0 then
    match m with
    | Zpos p => S754_finite s p (-1074)
    | _ => S754_zero s
    end
  else if e =? 0x7ff then
    if m =? 0 then S754_infinity s else S754_nan
  else
    match m + 2 ^ 52 with
    | Zpos p => S754_finite s p (e - 1075)
    | _ => S754_nan
    end.

(** The binary64 value of a 32-bit pattern read as binary32 ([readFloatLE]):
    every binary32 value is a binary64 value, [binary_round] renormalises it. *)
Definition float_of_bits (w : Z) : number :=
  let s := Z.testbit w 31 in
  let e := Z.land (Z.shiftr w 23) 0xff in
  let m := Z.land w (2 ^ 23 - 1) in
  if e =? 0 then
    match m with
    | Zpos p => binary_round prec emax s p (-149)
    | _ => S754_zero s
    end
  else if e =? 0xff then
    if m =? 0 then S754_infinity s else S754_nan
  else
    match m + 2 ^ 23 with
    | Zpos p => binary_round prec emax s p (e - 150)
    | _ => S754_nan
    end.

(** The 64-bit pattern of a binary64 value ([writeDoubleLE]). *)
Definition bits_of_double (x : number) : Z :=
  let sign (s : bool) := if s then 2 ^ 63 else 0 in
  match x with
  | S754_zero s => sign s
  | S754_infinity s => sign s + 0x7ff * 2 ^ 52
  | S754_nan => 0x7ff8 * 2 ^ 48
  | S754_finite s m e =>
      if Zpos m >=? 2 ^ 52
      then sign s + (e + 1075) * 2 ^ 52 + (Zpos m - 2 ^ 52)
      else sign s + Zpos m
  end.

(** The 32-bit pattern of a binary64 value rounded to binary32 ([writeFloatLE]). *)
Definition bits_of_float (x : number) : Z :=
  let sign (s : bool) := if s then 2 ^ 31 else 0 in
  let single (y : spec_float) :=
    match y with
    | S754_zero s => sign s
    | S754_infinity s => sign s + 0xff * 2 ^ 23
    | S754_nan => 0x7fc * 2 ^ 20
    | S754_finite s m e =>
        if Zpos m >=? 2 ^ 23
        then sign s + (e + 150) * 2 ^ 23 + (Zpos m - 2 ^ 23)
        else sign s + Zpos m
    end in
  match x with
  | S754_finite s m e => single (binary_round 24 128 s m e)
  | _ => single x
  end.

Definition readDoubleLE (b : list byte) (offset : Z) : outcome number :=
  obind (read_field b offset 8) (fun w => Ok (double_of_bits w)).

Definition readFloatLE (b : list byte) (offset : Z) : outcome number :=
  obind (read_field b offset 4) (fun w => Ok (float_of_bits w)).

(** [Math.round(x)]: the integer nearest to [x], ties towards +infinity. *)
Definition Math_round (x : number) : number :=
  match x with
  | S754_finite s m e =>
      if e >=? 0 then x
      else
        let r := Z.shiftr (cond_Zopp s (Zpos m) + 2 ^ (- e - 1)) (- e) in
        if r =? 0 then S754_zero s else Number_of_Z r
  | _ => x
  end.

(** [BigInt(x)] for a number: raises a [RangeError] unless [x] is an integer. *)
Definition BigInt_of_number (x : number) : outcome Z :=
  match x with
  | S754_zero _ => Ok 0
  | S754_finite s m e =>
      if e >=? 0 then Ok (cond_Zopp s (Zpos m * 2 ^ e))
      else if Zpos m mod 2 ^ (- e) =? 0 then Ok (cond_Zopp s (Zpos m / 2 ^ (- e)))
      else Throw (RangeError "not an integer")
  | _ => Throw (RangeError "not an integer")
  end.

(** Exact comparison of a bigint with a number (the relational operators of
    the language compare the mathematical values). *)
Definition compare_Z_number (z : Z) (x : number) : option comparison :=
  match x with
  | S754_nan => None
  | S754_infinity s => Some (if s then Gt else Lt)
  | S754_zero _ => Some (z ?= 0)
  | S754_finite s m e =>
      if e >=? 0 then Some (z ?= cond_Zopp s (Zpos m * 2 ^ e))
      else Some (z * 2 ^ (- e) ?= cond_Zopp s (Zpos m))
  end.

(** ** Strings *)

Definition code (c : ascii) : Z := Z.of_N (N_of_ascii c).

Definition is_digit (c : ascii) : bool := (48 <=? code c) && (code c <=? 57).

(** [\w]: letters, digits and the underscore. *)
Definition is_word (c : ascii) : bool :=
  is_digit c
  || ((65 <=? code c) && (code c <=? 90))
  || ((97 <=? code c) && (code c <=? 122))
  || (code c =? 95).

(** [\s] on 8-bit code units: TAB, LF, VT, FF, CR, space and the no-break space. *)
Definition is_space (c : ascii) : bool :=
  ((9 <=? code c) && (code c <=? 13)) || (code c =? 32) || (code c =? 160).

(** Line terminators, which [.] does not match. *)
Definition is_line_terminator (c : ascii) : bool := (code c =? 10) || (code c =? 13).

Definition is_char (k : Z) (c : ascii) : bool := code c =? k.

(** The longest prefix of [s] whose characters satisfy [p], and what follows it:
    a greedy character-class repetition. *)
Fixpoint span (p : ascii -> bool) (s : string) : string * string :=
  match s with
  | String c s' =>
      if p c then let '(a, b) := span p s' in (String c a, b) else (EmptyString, s)
  | EmptyString => (EmptyString, EmptyString)
  end.

(** [class*] and [class+]. *)
Definition many (p : ascii -> bool) (s : string) : string := snd (span p s).

Definition many1 (p : ascii -> bool) (s : string) : option (string * string) :=
  match span p s with
  | (EmptyString, _) => None
  | r => Some r
  end.

(** A literal: the rest of [s] after the prefix [pat]. *)
Fixpoint lit (pat s : string) : option string :=
  match pat, s with
  | EmptyString, _ => Some s
  | String a pat', String c s' => if Ascii.eqb a c then lit pat' s' else None
  | String _ _, EmptyString => None
  end.

(** One character of a class. *)
Definition one (p : ascii -> bool) (s : string) : option (ascii * string) :=
  match s with
  | String c s' => if p c then Some (c, s') else None
  | EmptyString => None
  end.

(** A greedy wildcard followed by the literal [pat]: the longest run before
    an occurrence of [pat], given a string without line terminators. *)
Fixpoint greedy_until (pat s : string) : option string :=
  match s with
  | EmptyString => None
  | String c s' =>
      match greedy_until pat s' with
      | Some t => Some (String c t)
      | None => match lit pat s with Some _ => Some EmptyString | None => None end
      end
  end.

Definition endsWith (s suffix : string) : bool :=
  let n := String.length s in
  let k := String.length suffix in
  (k <=? n)%nat && String.eqb (String.substring (n - k) k s) suffix.

Definition startsWith (s pre : string) : bool :=
  match lit pre s with Some _ => true | None => false end.

(** [content.split(/\r?\n/)]. *)
Fixpoint split_lines (s : string) : list string :=
  match s with
  | EmptyString => [EmptyString]
  | String c s' =>
      let rest := split_lines s' in
      if is_char 10 c then EmptyString :: rest
      else if is_char 13 c && (match s' with String d _ => is_char 10 d | _ => false end)
      then rest
      else match rest with
           | l :: ls => String c l :: ls
           | [] => [String c EmptyString]
           end
  end.

(** The value of a run of digits in a radix; [None] on a foreign character. *)
Definition digit_value (c : ascii) : Z :=
  if is_digit c then code c - 48
  else if (97 <=? code c) && (code c <=? 122) then code c - 87
  else if (65 <=? code c) && (code c <=? 90) then code c - 55
  else 36.

Fixpoint digits_value (radix : Z) (acc : Z) (s : string) : option Z :=
  match s with
  | EmptyString => Some acc
  | String c s' =>
      if digit_value c <? radix then digits_value radix (radix * acc + digit_value c) s'
      else None
  end.

(** [parseInt(digits, 10)] on a match of [\d+]. *)
Definition parseInt (s : string) : Z :=
  match digits_value 10 0 s with Some z => z | None => 0 end.

(** Decimal rendering of an integer ([String(n)], a template literal, or
    [String(b)] for a bigint). *)
Definition String_of_Z (z : Z) : string := pretty z.

(** UTF-8 bytes of a string of 8-bit code units ([Buffer.from(s, 'utf-8')]). *)
Fixpoint utf8 (s : string) : list byte :=
  match s with
  | EmptyString => []
  | String c s' =>
      (if code c <? 128 then [byte_of_Z (code c)]
       else [byte_of_Z (Z.lor 0xc0 (Z.shiftr (code c) 6));
             byte_of_Z (Z.lor 0x80 (Z.land (code c) 0x3f))])
      ++ utf8 s'
  end.

Definition Buffer_byteLength (s : string) : Z := Buffer_length (utf8 s).

(** *** Decimal literals and binary64 *)

(** The binary64 value nearest to [s * 10 ^ p] for a natural number [s]. *)
Definition double_of_decimal (neg : bool) (s p : Z) : number :=
  if s <=? 0 then S754_zero neg
  else if p >=? 0 then
    match s * 10 ^ p with
    | Zpos m => binary_round prec emax neg m 0
    | _ => S754_zero neg
    end
  else
    let '(q, e, l) := SFdiv_core_binary prec emax s 0 (10 ^ (- p)) 0 in
    binary_round_aux prec emax neg q e l.

(** A [StrDecimalLiteral] at the head of [s]: digits, an optional fraction and
    an optional exponent, with at least one digit in the mantissa. The result
    is the mantissa as an integer, the decimal exponent and the rest. *)
Definition decimal_literal (s : string) : option (Z * Z * string) :=
  let '(ip, r1) := span is_digit s in
  let '(fp, r2) :=
    match lit "." r1 with
    | Some r => span is_digit r
    | None => (EmptyString, r1)
    end in
  let r2 := match ip, fp with EmptyString, EmptyString => r1 | _, _ => r2 end in
  match ip, fp with
  | EmptyString, EmptyString => None
  | _, _ =>
      let mant := parseInt (ip ++ fp) in
      let frac := Z.of_nat (String.length fp) in
      let with_exp :=
        match one (fun c => is_char 101 c || is_char 69 c) r2 with
        | Some (_, r3) =>
            let '(neg, r4) :=
              match one (fun c => is_char 43 c || is_char 45 c) r3 with
              | Some (c, r) => (is_char 45 c, r)
              | None => (false, r3)
              end in
            match many1 is_digit r4 with
            | Some (ds, r5) => Some (cond_Zopp neg (parseInt ds), r5)
            | None => None
            end
        | None => None
        end in
      match with_exp with
      | Some (ex, r) => Some (mant, ex - frac, r)
      | None => Some (mant, - frac, r2)
      end
  end.

(** A signed numeric literal at the head of [s]: [Infinity] or a decimal. *)
Definition signed_literal (s : string) : option (number * string) :=
  let '(neg, r) :=
    match one (fun c => is_char 43 c || is_char 45 c) s with
    | Some (c, r) => (is_char 45 c, r)
    | None => (false, s)
    end in
  match lit "Infinity" r with
  | Some r' => Some (S754_infinity neg, r')
  | None =>
      match decimal_literal r with
      | Some (m, p, r') => Some (double_of_decimal neg m p, r')
      | None => None
      end
  end.

(** [parseFloat(s)]: the longest numeric prefix after leading white space. *)
Definition parseFloat (s : string) : number :=
  match signed_literal (many is_space s) with
  | Some (x, _) => x
  | None => S754_nan
  end.

(** *** Conversions between strings and numbers *)

Fixpoint trim_end (s : string) : string :=
  match s with
  | EmptyString => EmptyString
  | String c s' =>
      match trim_end s' with
      | EmptyString => if is_space c then EmptyString else String c EmptyString
      | t => String c t
      end
  end.

Definition trim (s : string) : string := trim_end (many is_space s).

(** An integer literal with a radix prefix: [0x], [0o] or [0b]. *)
Definition radix_literal (s : string) : option (option Z) :=
  let digits (radix : Z) (r : string) :=
    match r with
    | EmptyString => Some None
    | _ => Some (digits_value radix 0 r)
    end in
  match s with
  | String z (String x r) =>
      if is_char 48 z then
        if is_char 120 x || is_char 88 x then digits 16 r
        else if is_char 111 x || is_char 79 x then digits 8 r
        else if is_char 98 x || is_char 66 x then digits 2 r
        else None
      else None
  | _ => None
  end.

(** [BigInt(s)] for a string ([StringToBigInt]): a [SyntaxError] unless the
    trimmed text is empty or an integer literal. *)
Definition BigInt_of_string (s : string) : outcome Z :=
  let t := trim s in
  match t with
  | EmptyString => Ok 0
  | _ =>
      match radix_literal t with
      | Some (Some z) => Ok z
      | Some None => Throw (SyntaxError "Cannot convert to a BigInt")
      | None =>
          let '(neg, r) :=
            match one (fun c => is_char 43 c || is_char 45 c) t with
            | Some (c, r) => (is_char 45 c, r)
            | None => (false, t)
            end in
          match r with
          | EmptyString => Throw (SyntaxError "Cannot convert to a BigInt")
          | _ =>
              match digits_value 10 0 r with
              | Some z => Ok (cond_Zopp neg z)
              | None => Throw (SyntaxError "Cannot convert to a BigInt")
              end
          end
      end
  end.

(** [Number(s)] for a string ([StringToNumber]). *)
Definition Number_of_string (s : string) : number :=
  let t := trim s in
  match t with
  | EmptyString => num_zero
  | _ =>
      match radix_literal t with
      | Some (Some z) => Number_of_Z z
      | Some None => S754_nan
      | None =>
          match signed_literal t with
          | Some (x, EmptyString) => x
          | _ => S754_nan
          end
      end
  end.

(** Integers proportional to [m * 2 ^ e] and [s * 10 ^ p]. *)
Definition scaled (m e s p : Z) : Z * Z :=
  (m * 2 ^ Z.max e 0 * 10 ^ Z.max (- p) 0, s * 10 ^ Z.max p 0 * 2 ^ Z.max (- e) 0).

(** The least [n] from a starting point with [m * 2 ^ e < 10 ^ n]. *)
Fixpoint decimal_exponent (fuel : nat) (m e n : Z) : Z :=
  match fuel with
  | O => n
  | S f =>
      let '(a, b) := scaled m e 1 n in
      if a <? b then n else decimal_exponent f m e (n + 1)
  end.

(** The shortest decimal [s * 10 ^ (n - k)] that reads back as [m * 2 ^ e],
    trying [k] digits and more: the digits [s] and the exponent [n]. *)
Fixpoint shortest_digits (fuel : nat) (m : positive) (e n0 k : Z) : Z * Z * Z :=
  let p := n0 - k in
  let '(a, b) := scaled (Zpos m) e 1 p in
  let s := a / b in
  let r := a mod b in
  let reads (c : Z) := num_eq (double_of_decimal false c p) (S754_finite false m e) in
  let pick (c : Z) := if c =? 10 ^ k then (10 ^ (k - 1), k, n0 + 1) else (c, k, n0) in
  let lower := (2 * r <? b) || ((2 * r =? b) && Z.even s) in
  match fuel with
  | O => pick s
  | S f =>
      if reads s && reads (s + 1) then pick (if lower then s else s + 1)
      else if reads s && (10 ^ (k - 1) <=? s) then pick s
      else if reads (s + 1) then pick (s + 1)
      else shortest_digits f m e n0 (k + 1)
  end.

Definition zeros (n : Z) : string := String.concat EmptyString (replicate (Z.to_nat n) "0").

(** [String(x)] for a number ([Number::toString] in radix 10). *)
Definition String_of_number (x : number) : string :=
  match x with
  | S754_nan => "NaN"
  | S754_zero _ => "0"
  | S754_infinity s => if s then "-Infinity" else "Infinity"
  | S754_finite sg m e =>
      let n0 := decimal_exponent 700 (Zpos m) e (-330) in
      let '(s, k, n) := shortest_digits 20 m e n0 1 in
      let ds := String_of_Z s in
      let body :=
        if (k <=? n) && (n <=? 21) then ds ++ zeros (n - k)
        else if (0 <? n) && (n <=? 21) then
          String.substring 0 (Z.to_nat n) ds ++ "." ++
          String.substring (Z.to_nat n) (Z.to_nat (k - n)) ds
        else if (-6 <? n) && (n <=? 0) then "0." ++ zeros (- n) ++ ds
        else
          let ex := (if n - 1 <? 0 then "-" else "+") ++ String_of_Z (Z.abs (n - 1)) in
          if k =? 1 then ds ++ "e" ++ ex
          else String.substring 0 1 ds ++ "." ++
               String.substring 1 (Z.to_nat (k - 1)) ds ++ "e" ++ ex
      in
      if sg then "-" ++ body else body
  end.

(** ** Values handed to the writer: [string | number | boolean | bigint] *)

Inductive jsvalue : Type :=
| VString (s : string)
| VNumber (x : number)
| VBoolean (b : bool)
| VBigInt (z : Z).

(** Truthiness, as tested by [entryValue ? 1 : 0]. *)
Definition truthy (v : jsvalue) : bool :=
  match v with
  | VString s => negb (String.eqb s EmptyString)
  | VNumber x => match x with S754_zero _ | S754_nan => false | _ => true end
  | VBoolean b => b
  | VBigInt z => negb (z =? 0)
  end.

(** [Number(v)]. *)
Definition Number_of_value (v : jsvalue) : number :=
  match v with
  | VString s => Number_of_string s
  | VNumber x => x
  | VBoolean b => if b then num_one else num_zero
  | VBigInt z => Number_of_Z z
  end.

(** [String(v)]. *)
Definition String_of_value (v : jsvalue) : string :=
  match v with
  | VString s => s
  | VNumber x => String_of_number x
  | VBoolean b => if b then "true" else "false"
  | VBigInt z => String_of_Z z
  end.

(** [BigInt(typeof v === 'number' ? Math.round(v) : v)]. *)
Definition BigInt_of_value (v : jsvalue) : outcome Z :=
  match v with
  | VString s => BigInt_of_string s
  | VNumber x => BigInt_of_number (Math_round x)
  | VBoolean b => Ok (if b then 1 else 0)
  | VBigInt z => Ok z
  end.

(** ** The signal catalog ([revDBC.ts]) *)

Inductive DataType : Type := DT_int | DT_float | DT_double.

Record Signal : Type := {
  sig_name : string;
  sig_startBit : Z;
  sig_length : Z;
  sig_isLittleEndian : bool;
  sig_isSigned : bool;
  sig_factor : number;
  sig_offset : number;
  sig_min : number;
  sig_max : number;
  sig_unit : string;
  sig_description : option string;
  sig_dataType : DataType
}.

(** A [Map] whose iteration order matters: pairs in insertion order, where
    setting a present key replaces its value in place. *)
Section JsMap.
Context {K V : Type} `{EqDecision K}.

Fixpoint Map_set (k : K) (v : V) (m : list (K * V)) : list (K * V) :=
  match m with
  | [] => [(k, v)]
  | (k', v') :: m' =>
      if decide (k' = k) then (k, v) :: m' else (k', v') :: Map_set k v m'
  end.

Fixpoint Map_get (k : K) (m : list (K * V)) : option V :=
  match m with
  | [] => None
  | (k', v') :: m' => if decide (k' = k) then Some v' else Map_get k m'
  end.

Definition Map_values (m : list (K * V)) : list V := map snd m.

(** The object stored under [k], mutated in place. *)
Fixpoint Map_update (k : K) (f : V -> V) (m : list (K * V)) : list (K * V) :=
  match m with
  | [] => []
  | (k', v') :: m' =>
      if decide (k' = k) then (k', f v') :: m' else (k', v') :: Map_update k f m'
  end.
End JsMap.

Record Message : Type := {
  msg_id : Z;
  msg_name : string;
  msg_dlc : Z;
  msg_sender : string;
  msg_signals : list (string * Signal)
}.

(** [messages] and [messagesById] hold the same [Message] objects: the model
    keeps the objects in [dbc_heap] and both maps hold references into it. *)
Record Dbc : Type := {
  dbc_heap : list Message;
  messages : list (string * nat);
  messagesById : gmap Z nat
}.

Definition new_Dbc : Dbc :=
  {| dbc_heap := []; messages := []; messagesById := ∅ |}.

Definition deref (dbc : Dbc) (r : nat) : option Message := dbc_heap dbc !! r.

Definition messages_get (dbc : Dbc) (name : string) : option Message :=
  r ← Map_get name (messages dbc); deref dbc r.

Definition messagesById_get (dbc : Dbc) (id : Z) : option Message :=
  r ← messagesById dbc !! id; deref dbc r.

(** [reBO]: a message line. *)
Definition match_BO (line : string) : option (string * string * string * string) :=
  r ← lit "BO_" line;
  '(_, r) ← many1 is_space r;
  '(id, r) ← many1 is_digit r;
  '(_, r) ← many1 is_space r;
  '(name, r) ← many1 is_word r;
  r ← lit ":" r;
  '(dlc, r) ← many1 is_digit (many is_space r);
  '(_, r) ← many1 is_space r;
  '(sender, _) ← many1 is_word r;
  Some (id, name, dlc, sender).

Definition is_numeric (c : ascii) : bool := is_digit c || is_char 46 c || is_char 45 c.

Definition quote : string := String (ascii_of_nat 34) EmptyString.

(** [reSG]: a signal line; the unit is the text up to the first closing quote. *)
Definition match_SG (line : string) : option Signal :=
  r ← lit "SG_" (many is_space line);
  '(_, r) ← many1 is_space r;
  '(name, r) ← many1 is_word r;
  r ← lit ":" (many is_space r);
  '(start, r) ← many1 is_digit (many is_space r);
  r ← lit "|" r;
  '(len, r) ← many1 is_digit r;
  r ← lit "@" r;
  '(order, r) ← one (fun c => is_char 48 c || is_char 49 c) r;
  '(sign, r) ← one (fun c => is_char 43 c || is_char 45 c) r;
  r ← lit "(" (many is_space r);
  '(fac, r) ← many1 is_numeric (many is_space r);
  r ← lit "," (many is_space r);
  '(off, r) ← many1 is_numeric (many is_space r);
  r ← lit ")" (many is_space r);
  r ← lit "[" (many is_space r);
  '(lo, r) ← many1 is_numeric (many is_space r);
  r ← lit "|" (many is_space r);
  '(hi, r) ← many1 is_numeric (many is_space r);
  r ← lit "]" (many is_space r);
  r ← lit quote (many is_space r);
  let '(u, r) := span (fun c => negb (is_char 34 c) && negb (is_line_terminator c)) r in
  _ ← lit quote r;
  Some {| sig_name := name;
          sig_startBit := parseInt start;
          sig_length := parseInt len;
          sig_isLittleEndian := is_char 49 order;
          sig_isSigned := is_char 45 sign;
          sig_factor := parseFloat fac;
          sig_offset := parseFloat off;
          sig_min := parseFloat lo;
          sig_max := parseFloat hi;
          sig_unit := u;
          sig_description := None;
          sig_dataType := DT_int |}.

(** [reValType]: a value-type override line. *)
Definition match_ValType (line : string) : option (string * string * string) :=
  r ← lit "SIG_VALTYPE_" (many is_space line);
  '(_, r) ← many1 is_space r;
  '(id, r) ← many1 is_digit r;
  '(_, r) ← many1 is_space r;
  '(name, r) ← many1 is_word r;
  r ← lit ":" (many is_space r);
  '(kind, r) ← many1 is_digit (many is_space r);
  _ ← lit ";" (many is_space r);
  Some (id, name, kind).

(** [reComment]: a signal comment line; the text runs to the last quote that
    a semicolon follows. *)
Definition match_Comment (line : string) : option (string * string * string) :=
  r ← lit "CM_" (many is_space line);
  '(_, r) ← many1 is_space r;
  r ← lit "SG_" r;
  '(_, r) ← many1 is_space r;
  '(id, r) ← many1 is_digit r;
  '(_, r) ← many1 is_space r;
  '(name, r) ← many1 is_word r;
  r ← lit quote (many is_space r);
  text ← greedy_until (quote ++ ";") (fst (span (fun c => negb (is_line_terminator c)) r));
  Some (id, name, text).

Definition set_dataType (t : DataType) (s : Signal) : Signal :=
  {| sig_name := sig_name s; sig_startBit := sig_startBit s; sig_length := sig_length s;
     sig_isLittleEndian := sig_isLittleEndian s; sig_isSigned := sig_isSigned s;
     sig_factor := sig_factor s; sig_offset := sig_offset s;
     sig_min := sig_min s; sig_max := sig_max s; sig_unit := sig_unit s;
     sig_description := sig_description s; sig_dataType := t |}.

Definition set_description (d : string) (s : Signal) : Signal :=
  {| sig_name := sig_name s; sig_startBit := sig_startBit s; sig_length := sig_length s;
     sig_isLittleEndian := sig_isLittleEndian s; sig_isSigned := sig_isSigned s;
     sig_factor := sig_factor s; sig_offset := sig_offset s;
     sig_min := sig_min s; sig_max := sig_max s; sig_unit := sig_unit s;
     sig_description := Some d; sig_dataType := sig_dataType s |}.

Definition with_signals (f : list (string * Signal) -> list (string * Signal))
    (m : Message) : Message :=
  {| msg_id := msg_id m; msg_name := msg_name m; msg_dlc := msg_dlc m;
     msg_sender := msg_sender m; msg_signals := f (msg_signals m) |}.

(** The object behind reference [r], mutated in place. *)
Definition mutate (dbc : Dbc) (r : nat) (f : Message -> Message) : Dbc :=
  {| dbc_heap := alter f r (dbc_heap dbc);
     messages := messages dbc;
     messagesById := messagesById dbc |}.

(** [msg?.signals.get(name)] followed by an assignment to a field of the
    signal found; nothing happens when the message or the signal is missing. *)
Definition update_signal (dbc : Dbc) (id : Z) (name : string) (f : Signal -> Signal) : Dbc :=
  match messagesById dbc !! id with
  | Some r => mutate dbc r (with_signals (Map_update name f))
  | None => dbc
  end.

(** One iteration of the loop of [Dbc.load], on the catalog and [currentMessage]. *)
Definition load_line (st : Dbc * option nat) (line : string) : Dbc * option nat :=
  let '(dbc, currentMessage) := st in
  match match_BO line with
  | Some (id, name, dlc, sender) =>
      let r := length (dbc_heap dbc) in
      let m := {| msg_id := parseInt id; msg_name := name; msg_dlc := parseInt dlc;
                  msg_sender := sender; msg_signals := [] |} in
      ({| dbc_heap := dbc_heap dbc ++ [m];
          messages := Map_set name r (messages dbc);
          messagesById := <[parseInt id := r]> (messagesById dbc) |}, Some r)
  | None =>
      match match_SG line, currentMessage with
      | Some signal, Some cur =>
          (mutate dbc cur (with_signals (Map_set (sig_name signal) signal)), currentMessage)
      | _, _ =>
          match match_ValType line with
          | Some (id, name, kind) =>
              let dbc1 :=
                if String.eqb kind "1" then update_signal dbc (parseInt id) name (set_dataType DT_float)
                else dbc in
              let dbc2 :=
                if String.eqb kind "2" then update_signal dbc1 (parseInt id) name (set_dataType DT_double)
                else dbc1 in
              (dbc2, currentMessage)
          | None =>
              match match_Comment line with
              | Some (id, name, text) =>
                  (update_signal dbc (parseInt id) name (set_description text), currentMessage)
              | None => st
              end
          end
      end
  end.

(** The loop of [Dbc.load] over the lines: the catalog and [currentMessage]
    after them. *)
Definition load_lines (this : Dbc) (lines : list string) : Dbc * option nat :=
  fold_left load_line lines (this, None).

(** [Dbc.load(content)]: the catalog after the lines of [content]. The source
    has no [throw] and no fallible call: the result is always a catalog. *)
Definition load (this : Dbc) (content : string) : Dbc :=
  fst (load_lines this (split_lines content)).

(** ** The CAN decoder ([CanDecoder.decode]) *)

Record BoundSignal : Type := {
  bs_signal : Signal;
  bs_value : jsvalue;
  bs_rawValue : jsvalue
}.

Record DecodedMessage : Type := {
  dec_id : Z;
  dec_name : string;
  boundSignals : list (string * BoundSignal)
}.

Record Frame : Type := { frame_id : Z; frame_data : list byte }.

Definition createFrame (id : Z) (data : list byte) : Frame :=
  {| frame_id := id; frame_data := data |}.

(** The range clamp at the end of the loop body: it applies to a physical
    value of type [number] only, and only when [min] or [max] is not zero. *)
Definition clamp (signal : Signal) (physicalValue : jsvalue) : jsvalue :=
  match physicalValue with
  | VNumber x =>
      if num_ne (sig_min signal) num_zero || num_ne (sig_max signal) num_zero then
        let x1 := if num_lt x (sig_min signal) then sig_min signal else x in
        let x2 := if num_gt x1 (sig_max signal) then sig_max signal else x1 in
        VNumber x2
      else VNumber x
  | v => v
  end.

(** The mask-and-shift extraction of a little-endian integer signal. *)
Definition extract_raw (bufferAsBigInt : Z) (signal : Signal) : Z :=
  let mask := Z.shiftl 1 (sig_length signal) - 1 in
  let shift := sig_startBit signal in
  let rawBig := Z.land (Z.shiftr bufferAsBigInt shift) mask in
  if sig_isSigned signal then
    let signBit := Z.shiftl 1 (sig_length signal - 1) in
    if negb (Z.land rawBig signBit =? 0)
    then rawBig - Z.shiftl 1 (sig_length signal)
    else rawBig
  else rawBig.

(** The body of the loop over the signals of a message. *)
Definition decode_signal (data : list byte) (bufferAsBigInt : Z) (signal : Signal)
  : outcome BoundSignal :=
  obind
    (match sig_dataType signal with
     | DT_int =>
         if sig_isLittleEndian signal then
           let rawBig := extract_raw bufferAsBigInt signal in
           if num_eq (sig_factor signal) num_one && num_eq (sig_offset signal) num_zero
           then Ok (VBigInt rawBig, VBigInt rawBig)
           else Ok (VNumber (num_add (num_mul (Number_of_Z rawBig) (sig_factor signal))
                                     (sig_offset signal)),
                    VBigInt rawBig)
         else
           let physicalValue :=
             if (Z.rem (sig_startBit signal) 8 =? 7) && (sig_length signal =? 16)
             then num_zero else num_zero in
           Ok (VNumber physicalValue, VNumber num_zero)
     | _ =>
         let byteOffset := sig_startBit signal / 8 in
         let isDouble :=
           match sig_dataType signal with DT_double => true | _ => sig_length signal =? 64 end in
         obind (if isDouble then readDoubleLE data byteOffset else readFloatLE data byteOffset)
               (fun physicalValue => Ok (VNumber physicalValue, VNumber physicalValue))
     end)
    (fun '(physicalValue, rawValue) =>
       Ok {| bs_signal := signal;
             bs_value := clamp signal physicalValue;
             bs_rawValue := rawValue |}).

Fixpoint decode_signals (data : list byte) (bufferAsBigInt : Z) (sigs : list Signal)
    (bound : list (string * BoundSignal)) : outcome (list (string * BoundSignal)) :=
  match sigs with
  | [] => Ok bound
  | signal :: rest =>
      obind (decode_signal data bufferAsBigInt signal)
            (fun b => decode_signals data bufferAsBigInt rest (Map_set (sig_name signal) b bound))
  end.

(** The payload padded with zero bytes to [max(dlc, 8)]. *)
Definition padded_payload (message : Message) (data : list byte) : list byte :=
  let neededLength := Z.max (msg_dlc message) 8 in
  if Buffer_length data <? neededLength
  then data ++ Buffer_alloc (neededLength - Buffer_length data)
  else data.

Definition decode (database : option Dbc) (frame : Frame) : outcome (option DecodedMessage) :=
  match database with
  | None => Throw (Error "DBC Database not loaded.")
  | Some db =>
      match messagesById_get db (frame_id frame) with
      | None => Ok None
      | Some message =>
          let data := padded_payload message (frame_data frame) in
          obind (readBigUInt64LE data 0) (fun bufferAsBigInt =>
          obind (decode_signals data bufferAsBigInt (Map_values (msg_signals message)) [])
                (fun bound =>
                   Ok (Some {| dec_id := msg_id message;
                               dec_name := msg_name message;
                               boundSignals := bound |})))
      end
  end.

(** ** The target writer ([revlogParser.ts]) *)

Record RecordInfo : Type := { rec_id : Z; rec_type : string }.

(** What a chunk of output is: the file header, a control record that declares
    a stream, or a data record written for a stream name. The annotation is
    not part of the output; [chunk_bytes] is. *)
Inductive written : Type :=
| FileHeader
| ControlRecord (entryId : Z) (entryName dataType metadata : string)
| DataRecord (entryName : string) (id : Z) (type : string)
             (payload : list byte) (timestampUs : Z).

Record chunk : Type := { chunk_view : written; chunk_bytes : list byte }.

Record State : Type := {
  RECORDS : gmap string RecordInfo;
  NEXT_RECORD_ID : Z;
  outputChunks : list chunk;
  recordsProcessed : bool
}.

(** Computations on the mutable bindings of [parseREVLOG]: the state is kept
    when an exception is thrown. *)
Definition M (A : Type) : Type := State -> outcome A * State.

Definition ret {A} (a : A) : M A := fun st => (Ok a, st).

Definition bind {A B} (m : M A) (f : A -> M B) : M B :=
  fun st =>
    match m st with
    | (Ok a, st') => f a st'
    | (Throw e, st') => (Throw e, st')
    end.

Definition lift {A} (x : outcome A) : M A := fun st => (x, st).

Definition get_state : M State := fun st => (Ok st, st).

(** [try { body } catch { }] *)
Definition try_ignore (body : M unit) : M unit :=
  fun st =>
    match body st with
    | (Ok _, st') => (Ok tt, st')
    | (Throw _, st') => (Ok tt, st')
    end.

#[global] Instance M_bind : MBind M := fun A B f m => bind m f.
#[global] Instance M_ret : MRet M := fun A a => ret a.
#[global] Instance outcome_bind : MBind outcome := fun A B f x => obind x f.
#[global] Instance outcome_ret : MRet outcome := fun A a => Ok a.

Definition push (c : chunk) : M unit :=
  fun st => (Ok tt, {| RECORDS := RECORDS st; NEXT_RECORD_ID := NEXT_RECORD_ID st;
                       outputChunks := outputChunks st ++ [c];
                       recordsProcessed := recordsProcessed st |}).

Definition RECORDS_set (name : string) (info : RecordInfo) : M unit :=
  fun st => (Ok tt, {| RECORDS := <[name := info]> (RECORDS st);
                       NEXT_RECORD_ID := NEXT_RECORD_ID st;
                       outputChunks := outputChunks st;
                       recordsProcessed := recordsProcessed st |}).

(** [NEXT_RECORD_ID++] *)
Definition next_record_id : M Z :=
  fun st => (Ok (NEXT_RECORD_ID st),
             {| RECORDS := RECORDS st; NEXT_RECORD_ID := NEXT_RECORD_ID st + 1;
                outputChunks := outputChunks st;
                recordsProcessed := recordsProcessed st |}).

(** [recordsProcessed = true] *)
Definition set_recordsProcessed : M unit :=
  fun st => (Ok tt, {| RECORDS := RECORDS st; NEXT_RECORD_ID := NEXT_RECORD_ID st;
                       outputChunks := outputChunks st; recordsProcessed := true |}).

(** 32-bit integer operators of the language on integral numbers. *)
Definition ToInt32 (z : Z) : Z := (z + 2 ^ 31) mod 2 ^ 32 - 2 ^ 31.
Definition js_and (a b : Z) : Z := Z.land (ToInt32 a) (ToInt32 b).
Definition js_or (a b : Z) : Z := Z.lor (ToInt32 a) (ToInt32 b).
Definition js_shr (a b : Z) : Z := Z.shiftr (ToInt32 a) (b mod 32).
Definition js_shl (a b : Z) : Z := ToInt32 (Z.shiftl (ToInt32 a) (b mod 32)).

Definition writeVariableInt (value : Z) (len : Z) : outcome (list byte) :=
  obind (writeBigUInt64LE value) (fun buf => Ok (Buffer_slice buf 0 len)).

Definition requiredBytes (value : Z) : Z :=
  if value <=? 0xff then 1
  else if value <=? 0xffff then 2
  else if value <=? 0xffffff then 3
  else 4.

Definition requiredTimestampBytes (value : Z) : Z :=
  if value <=? 0xff then 1
  else if value <=? 0xffff then 2
  else if value <=? 0xffffff then 3
  else if value <=? 0xffffffff then 4
  else if value <=? 0xffffffffff then 5
  else if value <=? 0xffffffffffff then 6
  else if value <=? 0xffffffffffffff then 7
  else 8.

(** A length written into a field of [n] bytes. The runtime cannot hold a
    string of 2^32 bytes or a buffer of 2^64 bytes, so the range check of the
    write never fails for a length; the model writes it without one. *)
Definition length_field (n : Z) (len : Z) : list byte := le_bytes (Z.to_nat n) len.

(** The framing all records share: control byte, entry id, payload size,
    timestamp, payload. *)
Definition framed (id : Z) (payload : list byte) (timestampUs : Z) : outcome (list byte) :=
  let payloadSize := Buffer_length payload in
  let bitfield :=
    js_or (js_or (requiredBytes id - 1)
                 (js_shl (requiredBytes payloadSize - 1) 2))
          (js_shl (requiredTimestampBytes timestampUs - 1) 4) in
  b_id ← writeVariableInt id (requiredBytes id);
  let b_size := length_field (requiredBytes payloadSize) payloadSize in
  b_ts ← writeVariableInt timestampUs (requiredTimestampBytes timestampUs);
  Ok (Buffer_from [bitfield] ++ b_id ++ b_size ++ b_ts ++ payload)%list.

Definition control_payload (entryId : Z) (entryName dataType metadata : string)
  : outcome (list byte) :=
  b_id ← writeUInt32LE entryId;
  Ok (Buffer_from [0] ++ b_id
        ++ length_field 4 (Buffer_byteLength entryName) ++ utf8 entryName
        ++ length_field 4 (Buffer_byteLength dataType) ++ utf8 dataType
        ++ length_field 4 (Buffer_byteLength metadata) ++ utf8 metadata)%list.

Definition writeControlRecord (entryId : Z) (entryName dataType metadata : string) : M unit :=
  payload ← lift (control_payload entryId entryName dataType metadata);
  record ← lift (framed 0 payload 0);
  push {| chunk_view := ControlRecord entryId entryName dataType metadata;
          chunk_bytes := record |};;
  RECORDS_set entryName {| rec_id := entryId; rec_type := dataType |}.

(** The payload of a data record for a stream type; [None] is the [default]
    branch of the [switch], which returns without writing. *)
Definition data_payload (type : string) (entryValue : jsvalue) : option (list byte) :=
  if String.eqb type "boolean" then
    Some (Buffer_from [if truthy entryValue then 1 else 0])
  else if String.eqb type "int64" then
    match obind (BigInt_of_value entryValue) writeBigInt64LE with
    | Ok payload => Some payload
    | Throw _ => Some (le_bytes 8 0)
    end
  else if String.eqb type "float" then
    Some (le_bytes 4 (bits_of_float (Number_of_value entryValue)))
  else if String.eqb type "double" then
    Some (le_bytes 8 (bits_of_double (Number_of_value entryValue)))
  else if String.eqb type "string" then
    Some (utf8 (String_of_value entryValue))
  else None.

Definition writeRecord (entryName : string) (entryValue : jsvalue) (timestampMs : Z) : M unit :=
  st ← get_state;
  match RECORDS st !! entryName with
  | None => ret tt
  | Some recordInfo =>
      match data_payload (rec_type recordInfo) entryValue with
      | None => ret tt
      | Some payload =>
          let timestampUs := timestampMs * 1000 in
          record ← lift (framed (rec_id recordInfo) payload timestampUs);
          push {| chunk_view := DataRecord entryName (rec_id recordInfo) (rec_type recordInfo)
                                           payload timestampUs;
                  chunk_bytes := record |}
      end
  end.

Definition getWpilogTypeFromSignal (signal : Signal) : string :=
  if sig_length signal =? 1 then "boolean"
  else
    let isFloat :=
      match sig_dataType signal with
      | DT_float | DT_double => true
      | DT_int => num_ne (sig_factor signal) num_one && num_ne (sig_factor signal) num_zero
      end in
    if isFloat then
      if (sig_length signal =? 32)
         && (match sig_dataType signal with DT_float => true | _ => false end)
      then "float"
      else "double"
    else "int64".

(** ** The device registry *)

Record Device : Type := {
  canDecoder_database : option Dbc;
  dev_dbc : Dbc;
  dev_prefix : string;
  firmwareFrameId : option Z;
  firmwareMessageName : string;
  (** The values are [Message] objects of [dev_dbc]; no object is mutated
      once the catalog is loaded, so the map holds them by value. *)
  periodicFrames : gmap Z Message;
  customVersionParser : option (list byte -> outcome string)
}.

(** [`${major}.${minor}.${build}`] *)
Definition version_string (a b c : Z) : string :=
  String_of_Z a ++ "." ++ String_of_Z b ++ "." ++ String_of_Z c.

Definition parseFirmwareVersion (device : Device)
    (decoded : list (string * BoundSignal)) (data : list byte) : outcome string :=
  if Buffer_length data =? 0 then Ok "0.0.0"
  else
    match customVersionParser device with
    | Some parser => parser data
    | None =>
        major ← (if Buffer_length data >? 0 then readUInt8 data 0 else Ok 0);
        minor ← (if Buffer_length data >? 1 then readUInt8 data 1 else Ok 0);
        build ← (if Buffer_length data >? 3 then readUInt16BE data 2 else Ok 0);
        Ok (version_string major minor build)
    end.

(** The custom parser of the encoder: bytes 5, 4, 3. *)
Definition encoderVersionParser (data : list byte) : outcome string :=
  if Buffer_length data <? 6 then Ok "0.0.0"
  else
    swMajor ← readUInt8 data 5;
    swMinor ← readUInt8 data 4;
    swFix ← readUInt8 data 3;
    Ok (version_string swMajor swMinor swFix).

(** [messages.values()]: the objects behind the references, in insertion order. *)
Definition messages_values (dbc : Dbc) : list Message :=
  omap (deref dbc) (Map_values (messages dbc)).

(** [new Map(pairs)]: a later pair replaces an earlier one with the same key. *)
Definition Map_of_pairs (pairs : list (Z * Message)) : gmap Z Message :=
  fold_left (fun m kv => <[kv.1 := kv.2]> m) pairs ∅.

Definition createDeviceMap (dbc : Dbc) (prefix fwName periodicPrefix : string)
    (custom : option (list byte -> outcome string)) : Device :=
  {| canDecoder_database := Some dbc;
     dev_dbc := dbc;
     dev_prefix := prefix;
     firmwareFrameId := msg_id <$> messages_get dbc fwName;
     firmwareMessageName := fwName;
     periodicFrames :=
       Map_of_pairs
         (map (fun m => (js_and (js_shr (msg_id m) 6) 0xf, m))
              (filter (fun m => startsWith (msg_name m) periodicPrefix = true)
                      (messages_values dbc)));
     customVersionParser := custom |}.

Definition SPARK_PREFIX : string := "REV/Spark-".
Definition MOTOR_CONTROLLER_ID : Z := 2.
Definition SERVO_HUB_PREFIX : string := "REV/ServoHub-".
Definition SERVO_CONTROLLER_ID : Z := 12.
Definition ENCODER_PREFIX : string := "REV/Encoder-".
Definition ENCODER_ID : Z := 7.

(** ** The record transcoder ([parseREVLOG]) *)

Definition initial_state : State :=
  {| RECORDS := ∅; NEXT_RECORD_ID := 1; outputChunks := []; recordsProcessed := false |}.

Definition HEADER : string := "WPILOG".
Definition VERSION_MAJOR : Z := 1.
Definition VERSION_MINOR : Z := 0.
Definition EXTRA_HEADER : string := EmptyString.

Definition file_header : list byte :=
  (utf8 HEADER
   ++ le_bytes 2 (js_or (js_shl VERSION_MAJOR 8) VERSION_MINOR)
   ++ le_bytes 4 (Buffer_byteLength EXTRA_HEADER)
   ++ utf8 EXTRA_HEADER)%list.

Definition readVariableInt (data : list byte) (cursor len : Z) : outcome (Z * Z) :=
  if cursor + len >? Buffer_length data then Throw (Error "Not enough data.")
  else
    value ← readUIntLE data cursor len;
    Ok (value, cursor + len).

(** [binary_data[cursor]] and the two field widths its low bits declare. *)
Definition control_byte (binary_data : list byte) (cursor : Z) : Z :=
  byte_to_Z (nth (Z.to_nat cursor) binary_data x00).

Definition entryIdLen (bitfield : Z) : Z := js_and bitfield 3 + 1.
Definition sizeLen (bitfield : Z) : Z := js_and (js_shr bitfield 2) 3 + 1.

(** The head of the body of the [while] loop, from the control byte to the
    payload: an exception, [None] for a [break], or the entry id, the payload
    and the cursor behind the payload. *)
Definition read_entry (binary_data : list byte) (cursor : Z)
  : outcome (option (Z * list byte * Z)) :=
  if cursor + 1 >? Buffer_length binary_data then Ok None
  else
    let bitfield := control_byte binary_data cursor in
    let cursor := cursor + 1 in
    '(entryId, cursor) ← readVariableInt binary_data cursor (entryIdLen bitfield);
    '(payloadSize, cursor) ← readVariableInt binary_data cursor (sizeLen bitfield);
    if cursor + payloadSize >? Buffer_length binary_data then Ok None
    else
      Ok (Some (entryId, Buffer_slice binary_data cursor (cursor + payloadSize),
                cursor + payloadSize)).

(** [for (let pc = 0; pc + size <= len; pc += size) body(pc)]: the offsets
    visited are [size * i] for [i < len / size]; an exception ends the loop. *)
Definition for_records (size len : Z) (body : Z -> M unit) : M unit :=
  foldr (fun i rest => body (size * i);; rest) (ret tt) (seqZ 0 (len / size)).

(** [for (const x of xs) body(x)] *)
Definition for_each {A} (xs : list A) (body : A -> M unit) : M unit :=
  foldr (fun x rest => body x;; rest) (ret tt) xs.

Section Transcoder.
(** The text of each file of the [resources] directory, by file name. *)
Variable resources : string -> string.

Definition readDbcFile (fileName : string) : Dbc :=
  load new_Dbc (resources fileName).

Definition sparkDbc : Dbc := readDbcFile "spark.public.dbc".
Definition servohubDbc : Dbc := readDbcFile "servo_hub.public.dbc".
Definition encoderDbc : Dbc := readDbcFile "encoder.public.dbc".

Definition devices : gmap Z Device :=
  <[ENCODER_ID :=
      createDeviceMap encoderDbc ENCODER_PREFIX "GET_VERSIONING_RESP" "PERIODIC_FRAME_"
                      (Some encoderVersionParser)]>
  (<[SERVO_CONTROLLER_ID :=
      createDeviceMap servohubDbc SERVO_HUB_PREFIX "GET_VERSION" "STATUS_" None]>
  (<[MOTOR_CONTROLLER_ID :=
      createDeviceMap sparkDbc SPARK_PREFIX "GET_FIRMWARE_VERSION" "STATUS_" None]> ∅)).

(** [if (!RECORDS.has(name)) writeControlRecord(NEXT_RECORD_ID++, name, type, metadata)] *)
Definition declare (name type metadata : string) : M unit :=
  st ← get_state;
  match RECORDS st !! name with
  | Some _ => ret tt
  | None =>
      entryId ← next_record_id;
      writeControlRecord entryId name type metadata
  end.

(** One 10-byte record of a firmware block. *)
Definition firmware_record (payloadBytes : list byte) (pc : Z) : M unit :=
  messageId ← lift (readUInt32LE payloadBytes pc);
  let canData := Buffer_slice payloadBytes (pc + 4) (pc + 10) in
  let deviceType := js_and (js_shr messageId 24) 0x1f in
  match devices !! deviceType with
  | None => ret tt
  | Some device =>
      match firmwareFrameId device with
      | None => ret tt
      | Some frameId =>
          if frameId =? 0 then ret tt
          else
            let padded := (canData ++ Buffer_alloc 8)%list in
            decoded ← lift (decode (canDecoder_database device) (createFrame frameId padded));
            match decoded with
            | None => ret tt
            | Some decoded =>
                let name :=
                  dev_prefix device ++ String_of_Z (js_and messageId 0x3f) ++ "/FIRMWARE" in
                declare name "string" EmptyString;;
                version ← lift (parseFirmwareVersion device (boundSignals decoded) canData);
                writeRecord name (VString version) 0
            end
      end
  end.

(** One bound signal of a decoded periodic frame. *)
Definition periodic_signal (device : Device) (messageSpec : Message)
    (messageId msgTsMs : Z) (entry : string * BoundSignal) : M unit :=
  let '(signalName, boundSignal) := entry in
  match Map_get signalName (msg_signals messageSpec) with
  | None => ret tt
  | Some signalSpec =>
      let folder :=
        if endsWith signalName "FAULT" then "/FAULT/"
        else if endsWith signalName "WARNING" then "/WARNING/"
        else "/" in
      let name :=
        dev_prefix device ++ String_of_Z (js_and messageId 0x3f) ++ folder ++ signalName in
      let wpilogType := getWpilogTypeFromSignal signalSpec in
      let metadata :=
        match sig_description signalSpec with
        | Some d => d
        | None => sig_unit signalSpec
        end in
      declare name wpilogType metadata;;
      writeRecord name (bs_value boundSignal) msgTsMs
  end.

(** One 16-byte record of a periodic block. *)
Definition periodic_record (payloadBytes : list byte) (pc : Z) : M unit :=
  msgTsMs ← lift (readUInt32LE payloadBytes pc);
  messageId ← lift (readUInt32LE payloadBytes (pc + 4));
  let canData := Buffer_slice payloadBytes (pc + 8) (pc + 16) in
  let deviceType := js_and (js_shr messageId 24) 0x1f in
  match devices !! deviceType with
  | None => ret tt
  | Some device =>
      let frameIndex := js_and (js_shr messageId 6) 0xf in
      match periodicFrames device !! frameIndex with
      | None => ret tt
      | Some messageSpec =>
          let alignedData :=
            if Buffer_length canData <? msg_dlc messageSpec
            then (canData ++ Buffer_alloc (msg_dlc messageSpec - Buffer_length canData))%list
            else canData in
          try_ignore
            (decoded ← lift (decode (canDecoder_database device)
                                    (createFrame (msg_id messageSpec) alignedData));
             match decoded with
             | None => ret tt
             | Some decoded =>
                 for_each (boundSignals decoded)
                          (periodic_signal device messageSpec messageId msgTsMs)
             end)
      end
  end.

(** The dispatch on the entry id, after the payload has been cut out. *)
Definition process_entry (entryId : Z) (payloadBytes : list byte) : M unit :=
  if entryId =? 1 then
    set_recordsProcessed;;
    for_records 10 (Buffer_length payloadBytes) (firmware_record payloadBytes)
  else if entryId =? 2 then
    set_recordsProcessed;;
    for_records 16 (Buffer_length payloadBytes) (periodic_record payloadBytes)
  else ret tt.

(** The [while (cursor < binary_data.length)] loop. Every iteration moves
    the cursor forward, so [length binary_data] iterations are never used
    up; [scan_fuel] makes the bound explicit. *)
Fixpoint scan (fuel : nat) (binary_data : list byte) (cursor : Z) : M unit :=
  if cursor <? Buffer_length binary_data then
    match fuel with
    | O => lift (Throw (Error "scan: iteration bound exceeded"))
    | S fuel' =>
        entry ← lift (read_entry binary_data cursor);
        match entry with
        | None => ret tt
        | Some (entryId, payloadBytes, cursor') =>
            process_entry entryId payloadBytes;;
            scan fuel' binary_data cursor'
        end
    end
  else ret tt.

Definition scan_fuel (binary_data : list byte) : nat := length binary_data.

(** The chunks pushed by a conversion of a buffer: the validation of the
    input, the file header, the scan and the final check. *)
Definition convert (binary_data : list byte) : M unit :=
  if Buffer_length binary_data <? 3
  then lift (Throw (Error "REVLOG file is empty or too small to be valid."))
  else
    push {| chunk_view := FileHeader; chunk_bytes := file_header |};;
    scan (scan_fuel binary_data) binary_data 0;;
    st ← get_state;
    if recordsProcessed st then ret tt
    else lift (Throw (Error "No valid records found.")).

(** [parseREVLOG(input)] for a [Buffer] and no output file:
    [Buffer.concat(outputChunks)], or the exception raised. *)
Definition parseREVLOG (input : list byte) : outcome (list byte) :=
  match convert input initial_state with
  | (Ok _, st) => Ok (concat (map chunk_bytes (outputChunks st)))
  | (Throw e, _) => Throw e
  end.
End Transcoder.

(** ** Notions used to state the properties *)

(** *** Bit fields of a payload *)

(** Bit [k] of the padded payload read as one unsigned 64-bit little-endian
    integer: bit [k mod 8] of byte [k / 8] among the first eight bytes. *)
Definition payload_bit (padded : list byte) (k : Z) : bool :=
  (0 <=? k) && (k <? 64)
  && Z.testbit (byte_to_Z (nth (Z.to_nat (k / 8)) padded x00)) (k mod 8).

(** The unsigned field of [len] bits that starts at bit [start]. *)
Fixpoint bit_field (padded : list byte) (start : Z) (len : nat) : Z :=
  match len with
  | O => 0
  | S n => Z.b2z (payload_bit padded start) + 2 * bit_field padded (start + 1) n
  end.

(** The value of a [width]-bit pattern in two's complement. *)
Definition twos_complement (width : Z) (u : Z) : Z :=
  if Z.testbit u (width - 1) then u - 2 ^ width else u.

(** *** Ranges *)

(** [lo <= v] and [v <= hi] for a physical value, bigint or number. *)
Definition number_le_value (lo : number) (v : jsvalue) : bool :=
  match v with
  | VNumber x => num_le lo x
  | VBigInt z => match compare_Z_number z lo with Some (Gt | Eq) => true | _ => false end
  | _ => false
  end.

Definition value_le_number (v : jsvalue) (hi : number) : bool :=
  match v with
  | VNumber x => num_le x hi
  | VBigInt z => match compare_Z_number z hi with Some (Lt | Eq) => true | _ => false end
  | _ => false
  end.

Definition within (v : jsvalue) (lo hi : number) : bool :=
  number_le_value lo v && value_le_number v hi.

(** The guard of the clamp: the declared min or max is not zero. *)
Definition has_range (signal : Signal) : bool :=
  num_ne (sig_min signal) num_zero || num_ne (sig_max signal) num_zero.

(** *** The output kind as the specification words it *)

Definition is_float_kind (signal : Signal) : bool :=
  match sig_dataType signal with DT_int => false | _ => true end.

(** Boolean for one bit; float or double when the kind is float or double or
    the factor is not exactly 1, float for a 32-bit float; int64 otherwise. *)
Definition claimed_kind (signal : Signal) : string :=
  if sig_length signal =? 1 then "boolean"
  else if is_float_kind signal || num_ne (sig_factor signal) num_one then
    if (sig_length signal =? 32)
       && (match sig_dataType signal with DT_float => true | _ => false end)
    then "float" else "double"
  else "int64".

(** *** References of a definition file *)

(** [messagesById.get(id)?.signals.get(name)] *)
Definition signal_lookup (dbc : Dbc) (id : Z) (name : string) : option Signal :=
  m ← messagesById_get dbc id; Map_get name (msg_signals m).

(** A value-type override line or a signal-comment line whose message id or
    signal name is not declared in the catalog. *)
Definition dangling_reference (dbc : Dbc) (line : string) : bool :=
  match match_ValType line, match_Comment line with
  | Some (id, name, _), _ => bool_decide (signal_lookup dbc (parseInt id) name = None)
  | None, Some (id, name, _) => bool_decide (signal_lookup dbc (parseInt id) name = None)
  | None, None => false
  end.

(** *** Streams of an output *)

Definition views (st : State) : list written := map chunk_view (outputChunks st).

(** The control records of an output, in the order written. *)
Definition controls (vs : list written) : list (Z * string * string) :=
  omap (fun v => match v with
                 | ControlRecord id name type _ => Some (id, name, type)
                 | _ => None
                 end) vs.

(** The bytes of a chunk are the framing of what its annotation says. *)
Definition encodes (c : chunk) : Prop :=
  match chunk_view c with
  | FileHeader => chunk_bytes c = file_header
  | ControlRecord id name type metadata =>
      exists payload,
        control_payload id name type metadata = Ok payload
        /\ framed 0 payload 0 = Ok (chunk_bytes c)
  | DataRecord _ id _ payload timestampUs =>
      framed id payload timestampUs = Ok (chunk_bytes c)
  end.

(** A stream is declared when its first value is written: every control
    record is directly followed by a data record of its stream. *)
Definition control_first (vs : list written) : Prop :=
  forall pre id name type metadata post,
    vs = (pre ++ ControlRecord id name type metadata :: post)%list ->
    exists payload ts post', post = DataRecord name id type payload ts :: post'.

(** Identifiers are 1, 2, 3, ... in the order the control records are
    written; no name has two control records; an identifier belongs to one
    name; a data record follows the control record of its name and carries
    that record's identifier and type; a control record is written with the
    first value of its stream. *)
Record stream_ids_ok (vs : list written) : Prop := {
  ids_sequential :
    map (fun c => c.1.1) (controls vs) = seqZ 1 (Z.of_nat (length (controls vs)));
  names_declared_once : NoDup (map (fun c => c.1.2) (controls vs));
  ids_not_reused :
    forall id n1 t1 n2 t2,
      (id, n1, t1) ∈ controls vs -> (id, n2, t2) ∈ controls vs -> n1 = n2 /\ t1 = t2;
  data_follows_control :
    forall pre name id type payload ts post,
      vs = (pre ++ DataRecord name id type payload ts :: post)%list ->
      (id, name, type) ∈ controls pre;
  declared_at_first_value : control_first vs
}.

(** *** The framing layer alone *)

(** The entries the scan cuts out of the input, and how the framing ends:
    [Ok] at the end of the input or at a [break], [Throw] at an exception. *)
Fixpoint frame_entries (fuel : nat) (binary_data : list byte) (cursor : Z)
  : list (Z * list byte) * outcome unit :=
  if cursor <? Buffer_length binary_data then
    match fuel with
    | O => ([], Throw (Error "scan: iteration bound exceeded"))
    | S fuel' =>
        match read_entry binary_data cursor with
        | Throw e => ([], Throw e)
        | Ok None => ([], Ok tt)
        | Ok (Some (entryId, payloadBytes, cursor')) =>
            let '(es, r) := frame_entries fuel' binary_data cursor' in
            ((entryId, payloadBytes) :: es, r)
        end
    end
  else ([], Ok tt).

Definition framed_entries (binary_data : list byte) : list (Z * list byte) :=
  fst (frame_entries (scan_fuel binary_data) binary_data 0).

Definition framing_end (binary_data : list byte) : outcome unit :=
  snd (frame_entries (scan_fuel binary_data) binary_data 0).

(** The state in which the scan starts: the file header has been pushed. *)
Definition scan_start : State :=
  snd (push {| chunk_view := FileHeader; chunk_bytes := file_header |} initial_state).

(** The cursor positions at which the scan of an input starts an iteration,
    with the state it has there. The scan starts behind the validation of the
    input, which lets no input of fewer than three bytes through, and goes on
    behind every entry whose processing raised no exception. *)
Inductive reaches (resources : string -> string) (binary_data : list byte)
  : Z -> State -> Prop :=
| reaches_start :
    3 <= Buffer_length binary_data ->
    reaches resources binary_data 0 scan_start
| reaches_next cursor st entryId payloadBytes cursor' st' :
    reaches resources binary_data cursor st ->
    cursor < Buffer_length binary_data ->
    read_entry binary_data cursor = Ok (Some (entryId, payloadBytes, cursor')) ->
    process_entry resources entryId payloadBytes st = (Ok tt, st') ->
    reaches resources binary_data cursor' st'.

(** *** Sample catalogs and inputs *)

Definition nl : string := String (ascii_of_nat 10) EmptyString.

(** A servo hub catalog with a firmware message and one periodic message. *)
Definition sample_servo_hub_dbc : string :=
  String.concat nl [
    "BO_ 201852096 GET_VERSION: 8 Vector__XXX";
    " SG_ MAJOR : 0|8@1+ (1,0) [0|255] " ++ quote ++ quote ++ " Vector__XXX";
    " SG_ BUILD : 23|16@0+ (1,0) [0|65535] " ++ quote ++ quote ++ " Vector__XXX";
    "BO_ 201328000 STATUS_0: 8 Vector__XXX";
    " SG_ VOLTAGE : 0|12@1+ (0.001,0) [0|4.095] " ++ quote ++ "V" ++ quote ++ " Vector__XXX";
    " SG_ HARD_FAULT : 12|1@1+ (1,0) [0|1] " ++ quote ++ quote ++ " Vector__XXX";
    " SG_ COUNT : 16|8@1+ (1,0) [0|10] " ++ quote ++ "n" ++ quote ++ " Vector__XXX";
    " SG_ TEMP : 32|32@1- (1,0) [0|100] " ++ quote ++ "C" ++ quote ++ " Vector__XXX";
    " SG_ GAIN : 24|8@1+ (0.5,0) [10|0] " ++ quote ++ quote ++ " Vector__XXX";
    "SIG_VALTYPE_ 201328000 TEMP : 1;";
    "CM_ SG_ 201328000 VOLTAGE " ++ quote ++ "Bus voltage" ++ quote ++ ";"
  ].

Definition sample_resources (fileName : string) : string :=
  if String.eqb fileName "servo_hub.public.dbc" then sample_servo_hub_dbc else EmptyString.

Definition no_resources (fileName : string) : string := EmptyString.

Definition sample_dbc : Dbc := load new_Dbc sample_servo_hub_dbc.

(** The bound signal of a name in the decoding of a frame, if there is one. *)
Definition bound_signal (db : Dbc) (frame : Frame) (name : string) : option BoundSignal :=
  match decode (Some db) frame with
  | Ok (Some d) => Map_get name (boundSignals d)
  | _ => None
  end.

Definition in_declared_range (b : BoundSignal) : bool :=
  within (bs_value b) (sig_min (bs_signal b)) (sig_max (bs_signal b)).

(** A frame of the periodic message of the sample catalog: [COUNT] is 255,
    [GAIN] is 20 and [TEMP] is the binary32 pattern of a NaN. *)
Definition sample_frame : Frame :=
  createFrame 201328000 (Buffer_from [0; 0; 255; 20; 0; 0; 0xc0; 0x7f]).

(** An integer signal of eight bits whose scale factor is zero. *)
Definition zero_factor_signal : Signal :=
  {| sig_name := "CONSTANT"; sig_startBit := 0; sig_length := 8;
     sig_isLittleEndian := true; sig_isSigned := false;
     sig_factor := num_zero; sig_offset := num_zero;
     sig_min := num_zero; sig_max := num_zero;
     sig_unit := EmptyString; sig_description := None; sig_dataType := DT_int |}.

(** The message, the decoding and the bound signals of the sample frame. *)
Definition sample_message : Message :=
  default {| msg_id := 0; msg_name := EmptyString; msg_dlc := 0;
             msg_sender := EmptyString; msg_signals := [] |}
          (messagesById_get sample_dbc 201328000).

Definition sample_decoded : DecodedMessage :=
  match decode (Some sample_dbc) sample_frame with
  | Ok (Some d) => d
  | _ => {| dec_id := 0; dec_name := EmptyString; boundSignals := [] |}
  end.

Definition sample_bound (name : string) : BoundSignal :=
  default {| bs_signal := zero_factor_signal;
             bs_value := VNumber num_zero; bs_rawValue := VNumber num_zero |}
          (Map_get name (boundSignals sample_decoded)).

(** *** The invariant of the writer *)

(** What holds of the registry, the counter and the output between any two
    steps of a conversion. The counter is one past the number of streams
    declared, unless it has run past the 32-bit field of a control record, in
    which case no further stream is ever declared. *)
Record writer_invariant (st : State) : Prop := {
  inv_records_sound :
    forall name info,
      RECORDS st !! name = Some info ->
      (rec_id info, name, rec_type info) ∈ controls (views st);
  inv_records_complete :
    forall id name type,
      (id, name, type) ∈ controls (views st) ->
      RECORDS st !! name = Some {| rec_id := id; rec_type := type |};
  inv_ids :
    map (fun c => c.1.1) (controls (views st))
    = seqZ 1 (Z.of_nat (length (controls (views st))));
  inv_ids_bound :
    forall id name type,
      (id, name, type) ∈ controls (views st) -> 1 <= id <= 0xffffffff;
  inv_next_positive : 1 <= NEXT_RECORD_ID st;
  inv_next :
    NEXT_RECORD_ID st = 1 + Z.of_nat (length (controls (views st)))
    \/ 0xffffffff < NEXT_RECORD_ID st;
  inv_data :
    forall pre name id type payload ts post,
      views st = (pre ++ DataRecord name id type payload ts :: post)%list ->
      (id, name, type) ∈ controls pre;
  inv_encodes : Forall encodes (outputChunks st)
}.

(** A computation that keeps a property of the state, whether it returns or
    raises. *)
Definition keeps {A} (P : State -> Prop) (m : M A) : Prop :=
  forall st, P st -> P (m st).2.

(** Between two records of a block the writer invariant holds and no control
    record waits for its data record. *)
Definition conversion_invariant (st : State) : Prop :=
  writer_invariant st /\ control_first (views st).

(** A firmware block with one record for servo hub 5 and the data bytes
    2, 5, 0, 42, 0, 0; a periodic block with one record for the same device;
    and the states of the conversions of the two inputs. *)
Definition sample_firmware_input : list byte :=
  Buffer_from [0; 1; 10; 5; 0; 0; 12; 2; 5; 0; 42; 0; 0].

Definition sample_periodic_input : list byte :=
  Buffer_from [0; 2; 16; 232; 3; 0; 0; 133; 5; 0; 12; 0x34; 0x12; 0xff; 0; 0; 0; 0x80; 0x3f].

Definition sample_periodic_state : State :=
  (convert sample_resources sample_periodic_input initial_state).2.

(** The payload of the sample firmware block and the decoding of its frame. *)
Definition sample_firmware_payload : list byte :=
  Buffer_from [5; 0; 0; 12; 2; 5; 0; 42; 0; 0].

Definition sample_firmware_decoded : DecodedMessage :=
  match decode (Some (servohubDbc sample_resources))
               (createFrame 201852096 (Buffer_from [2; 5; 0; 42; 0; 0] ++ Buffer_alloc 8)) with
  | Ok (Some d) => d
  | _ => {| dec_id := 0; dec_name := EmptyString; boundSignals := [] |}
  end.

(** A servo hub catalog whose periodic message has a signal named
    [FIRMWARE], and a capture with a periodic block followed by a firmware
    block, one record each, both for servo hub 5. *)
Definition firmware_signal_dbc : string :=
  String.concat nl [
    "BO_ 201852096 GET_VERSION: 8 Vector__XXX";
    " SG_ MAJOR : 0|8@1+ (1,0) [0|255] " ++ quote ++ quote ++ " Vector__XXX";
    "BO_ 201328000 STATUS_0: 8 Vector__XXX";
    " SG_ FIRMWARE : 0|8@1+ (1,0) [0|255] " ++ quote ++ quote ++ " Vector__XXX"
  ].

Definition firmware_signal_resources (fileName : string) : string :=
  if String.eqb fileName "servo_hub.public.dbc" then firmware_signal_dbc else EmptyString.

Definition firmware_signal_input : list byte :=
  Buffer_from [0; 2; 16; 232; 3; 0; 0; 133; 5; 0; 12; 7; 0; 0; 0; 0; 0; 0; 0;
               0; 1; 10; 5; 0; 0; 12; 2; 5; 0; 42; 0; 0].

(** *** The header of an entry *)

(** The cursor behind the header of the entry at [cursor]: one control byte
    and the two fields whose widths it declares. *)
Definition header_end (binary_data : list byte) (cursor : Z) : Z :=
  let bitfield := control_byte binary_data cursor in
  cursor + 1 + entryIdLen bitfield + sizeLen bitfield.

(** The entry id and the payload length that the header at [cursor] declares. *)
Definition declared_entryId (binary_data : list byte) (cursor : Z) : Z :=
  le_value (Buffer_slice binary_data (cursor + 1)
              (cursor + 1 + entryIdLen (control_byte binary_data cursor))).

Definition declared_payloadSize (binary_data : list byte) (cursor : Z) : Z :=
  le_value (Buffer_slice binary_data
              (cursor + 1 + entryIdLen (control_byte binary_data cursor))
              (header_end binary_data cursor)).

(** The end of a conversion whose scan has ended in a state: the final check
    on [recordsProcessed]. *)
Definition final_check (st : State) : outcome unit :=
  if recordsProcessed st then Ok tt else Throw (Error "No valid records found.").

(** The width of the timestamp field that the control byte of a record of
    the target format declares, in bits 4 to 6. *)
Definition timestampLen (bitfield : Z) : Z := js_and (js_shr bitfield 4) 7 + 1.

(** *** Float signals and the padded payload *)

(** The number of bytes a float or double signal reads, and whether they lie
    in the payload: the byte offset is [startBit / 8] rounded down. *)
Definition float_width (signal : Signal) : Z :=
  match sig_dataType signal with
  | DT_double => 8
  | _ => if sig_length signal =? 64 then 8 else 4
  end.

Definition float_fits (data : list byte) (signal : Signal) : bool :=
  match sig_dataType signal with
  | DT_int => true
  | _ =>
      let byteOffset := sig_startBit signal / 8 in
      (0 <=? byteOffset) && (byteOffset + float_width signal <=? Buffer_length data)
  end.

(** The number a float or double signal reads from the payload. *)
Definition float_read (data : list byte) (signal : Signal) : number :=
  let byteOffset := sig_startBit signal / 8 in
  let w := le_value (Buffer_slice data byteOffset (byteOffset + float_width signal)) in
  if float_width signal =? 8 then double_of_bits w else float_of_bits w.

(** *** The sizes that a catalog declares *)

(** The runtime raises a [RangeError] when it is asked for a buffer or a
    bigint beyond its limits, which a catalog can do with the length of a
    message, a start bit or the length of a signal. A CAN or CAN FD catalog
    stays far below them: a message has at most 64 bytes, and its signals have
    at most 64 bits and start at one of the 512 bits of such a message. *)
Definition frame_sizes (message : Message) : bool :=
  (msg_dlc message <=? 64)
  && forallb (fun signal =>
                (0 <=? sig_startBit signal) && (sig_startBit signal <? 512)
                && (0 <=? sig_length signal) && (sig_length signal <=? 64))
       (Map_values (msg_signals message)).

(** Every message of a catalog has at most 64 bytes. *)
Definition short_frames (dbc : Dbc) : bool :=
  forallb (fun message => msg_dlc message <=? 64) (messages_values dbc).

(** A bound signal of the decoding of the sample firmware frame. *)
Definition sample_firmware_bound (name : string) : BoundSignal :=
  default {| bs_signal := zero_factor_signal;
             bs_value := VNumber num_zero; bs_rawValue := VNumber num_zero |}
          (Map_get name (boundSignals sample_firmware_decoded)).

(** A catalog with a double signal that declares no range, a frame that
    holds the pattern of 1.5, and its decoding. *)
Definition sample_double_dbc : Dbc :=
  load new_Dbc
    (String.concat nl [
       "BO_ 201328064 STATUS_1: 8 Vector__XXX";
       " SG_ POSITION : 0|64@1- (1,0) [0|0] " ++ quote ++ "rot" ++ quote ++ " Vector__XXX";
       "SIG_VALTYPE_ 201328064 POSITION : 2;"
     ]).

Definition sample_double_frame : Frame :=
  createFrame 201328064 (Buffer_from [0; 0; 0; 0; 0; 0; 0xf8; 0x3f]).

Definition sample_double_message : Message :=
  default sample_message (messagesById_get sample_double_dbc 201328064).

Definition sample_double_decoded : DecodedMessage :=
  match decode (Some sample_double_dbc) sample_double_frame with
  | Ok (Some d) => d
  | _ => sample_decoded
  end.

Definition sample_double_bound : BoundSignal :=
  default (sample_bound "COUNT") (Map_get "POSITION" (boundSignals sample_double_decoded)).

(** *** Consistency of a catalog *)

(** Every reference of the two maps leads to a message; a message found
    under a name has that name, a message found under an id has that id, and
    every signal of a message is stored under its own name. *)
Record catalog_ok (dbc : Dbc) : Prop := {
  found_by_name :
    forall name r, Map_get name (messages dbc) = Some r ->
                   exists m, deref dbc r = Some m /\ msg_name m = name;
  found_by_id :
    forall id r, messagesById dbc !! id = Some r ->
                 exists m, deref dbc r = Some m /\ msg_id m = id;
  signals_by_name :
    forall r m k s, deref dbc r = Some m -> Map_get k (msg_signals m) = Some s ->
                    sig_name s = k
}.

(** A line without a line terminator. *)
Definition one_line (line : string) : Prop :=
  forall c, In c (list_ascii_of_string line) -> is_line_terminator c = false.

(** *** What a computation adds to the output *)

(** The output has grown from [chunks] by records that satisfy [Q]. *)
Definition grown_by (Q : written -> Prop) (chunks : list chunk) (st : State) : Prop :=
  exists suffix,
    outputChunks st = (chunks ++ suffix)%list
    /\ Forall (fun c => Q (chunk_view c)) suffix.

(** The payload of a data record has the size of its stream type. *)
Definition payload_size_ok (v : written) : Prop :=
  match v with
  | DataRecord _ _ type payload _ =>
      (type = "boolean" -> Buffer_length payload = 1)
      /\ (type = "int64" -> Buffer_length payload = 8)
      /\ (type = "float" -> Buffer_length payload = 4)
      /\ (type = "double" -> Buffer_length payload = 8)
  | _ => True
  end.

(** The timestamp of a data record is a whole number of milliseconds that
    fits 32 bits, in microseconds. *)
Definition timestamp_ok (v : written) : Prop :=
  match v with
  | DataRecord _ _ _ _ timestampUs => exists ms, 0 <= ms < 2 ^ 32 /\ timestampUs = ms * 1000
  | _ => True
  end.

(** What the scan adds to the output: records, no file header. *)
Definition record_ok (v : written) : Prop :=
  payload_size_ok v /\ v <> FileHeader /\ timestamp_ok v.

(** A record written for a periodic frame stamped [ms] milliseconds: a
    control record, or a data record stamped [1000 * ms] microseconds. *)
Definition stamped (ms : Z) (v : written) : Prop :=
  match v with
  | FileHeader => False
  | ControlRecord _ _ _ _ => True
  | DataRecord _ _ _ _ timestampUs => timestampUs = ms * 1000
  end.

(** *** A reader of the target format *)

(** One record of the target format at [cursor], read with the field widths
    of its control byte as the scan reads an entry of the source format: the
    entry id, the timestamp, the payload and the cursor behind the record. *)
Definition wpilog_record (data : list byte) (cursor : Z) : outcome (Z * Z * list byte * Z) :=
  let bitfield := control_byte data cursor in
  '(entryId, cursor) ← readVariableInt data (cursor + 1) (entryIdLen bitfield);
  '(payloadSize, cursor) ← readVariableInt data cursor (sizeLen bitfield);
  '(timestamp, cursor) ← readVariableInt data cursor (timestampLen bitfield);
  if cursor + payloadSize >? Buffer_length data then Throw (Error "Not enough data.")
  else Ok (entryId, timestamp, Buffer_slice data cursor (cursor + payloadSize),
           cursor + payloadSize).

(** The records from [cursor] to the end of the data. *)
Fixpoint wpilog_records (fuel : nat) (data : list byte) (cursor : Z)
  : outcome (list (Z * Z * list byte)) :=
  if cursor <? Buffer_length data then
    match fuel with
    | O => Throw (Error "wpilog_records: iteration bound exceeded")
    | S fuel' =>
        '(entryId, timestamp, payload, cursor') ← wpilog_record data cursor;
        rest ← wpilog_records fuel' data cursor';
        Ok ((entryId, timestamp, payload) :: rest)
    end
  else Ok [].

(** What a reader finds for a record of the output: entry 0 with the control
    payload at time 0 for a control record, the stream id with the payload
    and the timestamp for a data record. *)
Definition wpilog_entry (v : written) : option (Z * Z * list byte) :=
  match v with
  | FileHeader => None
  | ControlRecord id name type metadata =>
      match control_payload id name type metadata with
      | Ok payload => Some (0, 0, payload)
      | Throw _ => None
      end
  | DataRecord _ id _ payload timestampUs => Some (id, timestampUs, payload)
  end.
(** A chunk whose bytes read back as the entry of its annotation. *)
Definition reads_back (c : chunk) : Prop :=
  exists id payload timestampUs,
    framed id payload timestampUs = Ok (chunk_bytes c)
    /\ 0 <= id <= 0xffffffff /\ Buffer_length payload <= 0xffffffff
    /\ 0 <= timestampUs < 2 ^ 48
    /\ wpilog_entry (chunk_view c) = Some (id, timestampUs, payload).

(** *** Bytes and fields of a buffer *)

(** [data[index]], or 0 behind the end. *)
Definition byte_at (data : list byte) (index : Z) : Z :=
  byte_to_Z (nth (Z.to_nat index) data x00).

(** The fields of the payload of a control record, as a reader of the target
    format takes them apart: the control type, the entry id, and the bytes of
    the name, of the type and of the metadata, each behind its length. *)
Definition control_record_fields (payload : list byte)
  : outcome (Z * Z * list byte * list byte * list byte) :=
  controlType ← readUInt8 payload 0;
  entryId ← readUInt32LE payload 1;
  nameLen ← readUInt32LE payload 5;
  let c1 := 9 + nameLen in
  typeLen ← readUInt32LE payload c1;
  let c2 := c1 + 4 + typeLen in
  metadataLen ← readUInt32LE payload c2;
  let c3 := c2 + 4 + metadataLen in
  if c3 >? Buffer_length payload then Throw (RangeError "ERR_OUT_OF_RANGE")
  else Ok (controlType, entryId,
           Buffer_slice payload 9 c1,
           Buffer_slice payload (c1 + 4) c2,
           Buffer_slice payload (c2 + 4) c3).

(** *** Line ends *)

(** A carriage return followed by a line feed. *)
Definition crlf : string := String (ascii_of_nat 13) nl.

(** The last character of a text is a carriage return. *)
Fixpoint ends_with_cr (s : string) : bool :=
  match s with
  | EmptyString => false
  | String c EmptyString => is_char 13 c
  | String _ s' => ends_with_cr s'
  end.

(** ** The command line ([main]) *)

(** What the process does to the outside, in order. [process_exit] ends the
    process: nothing follows it. *)
Inductive effect : Type :=
| console_log (text : string)
| console_error (text : string)
| console_error_with (text : string) (error : exn)   (* [console.error(text, error)] *)
| stdout_write (data : list byte)
| fs_written (path : string) (data : list byte)
| process_exit (code : Z).

(** What the process is started with: the arguments behind the script name
    ([process.argv.slice(2)]), the standard input (whether it is a terminal,
    and what [readStdin] resolves with or is rejected with) and the file
    system (what reading a path gives, and whether a write succeeds). *)
Record Process : Type := {
  process_args : list string;
  stdin_isTTY : bool;
  readStdin : outcome (list byte);
  fs_readFile : string -> outcome (list byte);
  fs_writeFile : string -> list byte -> outcome unit
}.

(** [err.message] *)
Definition exn_message (e : exn) : string :=
  match e with
  | Error m => m
  | RangeError m => m
  | SyntaxError m => m
  end.

(** The input of [parseREVLOG]: a buffer or the path of a file. *)
Inductive Input : Type :=
| InputBuffer (data : list byte)
| InputPath (path : string).

(** A string in a condition: the empty string counts as false. *)
Definition nonempty (s : string) : bool := negb (String.eqb s EmptyString).

(** [parseREVLOG(input, outputFilename)] with the loading of the input and
    the writing of the output file: the promise's value or rejection, and the
    file written. *)
Definition parseREVLOG_io (resources : string -> string) (p : Process)
    (input : Input) (outputFilename : option string) : outcome (list byte) * list effect :=
  let loaded :=
    match input with
    | InputBuffer data => Ok data
    | InputPath path =>
        match fs_readFile p path with
        | Ok data => Ok data
        | Throw err =>
            Throw (Error ("Could not read input file at '" ++ path ++ "': "
                          ++ exn_message err))
        end
    end in
  match loaded with
  | Throw e => (Throw e, [])
  | Ok binary_data =>
      match parseREVLOG resources binary_data with
      | Throw e => (Throw e, [])
      | Ok finalBuffer =>
          match outputFilename with
          | Some path =>
              if nonempty path then
                match fs_writeFile p path finalBuffer with
                | Ok _ => (Ok finalBuffer, [fs_written path finalBuffer])
                | Throw e => (Throw e, [])
                end
              else (Ok finalBuffer, [])
          | None => (Ok finalBuffer, [])
          end
      end
  end.

(** [args.findIndex(p)]; [None] stands for -1. *)
Fixpoint findIndex {A} (p : A -> bool) (l : list A) : option nat :=
  match l with
  | [] => None
  | x :: l' => if p x then Some 0%nat else S <$> findIndex p l'
  end.

(** [args.filter((arg, index) => keep(arg, index))], from a first index on. *)
Fixpoint filter_index {A} (keep : A -> nat -> bool) (index : nat) (l : list A) : list A :=
  match l with
  | [] => []
  | x :: l' =>
      if keep x index then x :: filter_index keep (S index) l'
      else filter_index keep (S index) l'
  end.

Definition HELP : string :=
  String.concat nl [
    EmptyString;
    "Usage:";
    "  revlog-parser [inputFile] [options]";
    "  cat <inputFile> | revlog-parser [options]";
    EmptyString;
    "Arguments:";
    "  inputFile        The path to the input .revlog file. If omitted,";
    "                   the tool will read from standard input (stdin).";
    EmptyString;
    "Options:";
    "  -o, --output     The path to the output .wpilog file.";
    "                   If not provided, the output will be printed to the console.";
    "  -h, --help       Show this help message.";
    "    "
  ].

Definition is_output_flag (arg : string) : bool :=
  String.eqb arg "-o" || String.eqb arg "--output".

Definition is_help_flag (arg : string) : bool :=
  String.eqb arg "--help" || String.eqb arg "-h".

(** The callback of the filter that leaves the input candidates. *)
Definition is_nonFlagArg (outputFlagIndex : option nat) (arg : string) (index : nat) : bool :=
  match outputFlagIndex with
  | Some i =>
      if (index =? i)%nat || (index =? i + 1)%nat then false
      else negb (startsWith arg "-")
  | None => negb (startsWith arg "-")
  end.

(** The [catch] of [main]. *)
Definition report (e : exn) : list effect :=
  [console_error_with "An error occurred:" e; process_exit 1].

(** The conversion and what follows it in the [try] block. *)
Definition run (resources : string -> string) (p : Process)
    (inputSource : Input) (outputFilename : option string) : list effect :=
  match parseREVLOG_io resources p inputSource outputFilename with
  | (Ok wpilogContent, effects) =>
      (effects ++
       match outputFilename with
       | Some path =>
           if nonempty path
           then [console_error ("Successfully wrote WPILOG to " ++ quote ++ path ++ quote)]
           else [stdout_write wpilogContent]
       | None => [stdout_write wpilogContent]
       end)%list
  | (Throw e, effects) => (effects ++ report e)%list
  end.

Definition main (resources : string -> string) (p : Process) : list effect :=
  let args := process_args p in
  if existsb (String.eqb "--help") args || existsb (String.eqb "-h") args
  then [console_log HELP]
  else
    let outputFlagIndex := findIndex is_output_flag args in
    let outputFilename : option (option string) :=
      match outputFlagIndex with
      | None => Some None
      | Some i =>
          match args !! (i + 1)%nat with
          | None => None
          | Some next => if startsWith next "-" then None else Some (Some next)
          end
      end in
    match outputFilename with
    | None =>
        [console_error "Error: Output flag '-o' or '--output' requires a filename.";
         process_exit 1]
    | Some outputFilename =>
        match filter_index (is_nonFlagArg outputFlagIndex) 0 args with
        | _ :: _ :: _ =>
            [console_error "Error: Please specify only one input file."; process_exit 1]
        | [inputFile] => run resources p (InputPath inputFile) outputFilename
        | [] =>
            if stdin_isTTY p then
              [console_error
                 "Error: No input file specified. Use --help for usage information.";
               process_exit 1]
            else
              match readStdin p with
              | Throw e => report e
              | Ok inputSource =>
                  if Buffer_length inputSource =? 0 then
                    [console_error "Error: Standard input was empty."; process_exit 1]
                  else run resources p (InputBuffer inputSource) outputFilename
              end
        end
    end.

(** *** Sample processes *)

(** A process with the given arguments and the rest of another. *)
Definition with_args (p : Process) (args : list string) : Process :=
  {| process_args := args; stdin_isTTY := stdin_isTTY p; readStdin := readStdin p;
     fs_readFile := fs_readFile p; fs_writeFile := fs_writeFile p |}.

(** A process started on a terminal with the sample firmware block in the
    file [in.revlog], on a file system that accepts every write. *)
Definition sample_process (args : list string) : Process :=
  {| process_args := args;
     stdin_isTTY := true;
     readStdin := Ok [];
     fs_readFile := fun path =>
       if String.eqb path "in.revlog" then Ok sample_firmware_input
       else Throw (Error "ENOENT: no such file or directory");
     fs_writeFile := fun _ _ => Ok tt |}.

(** * Properties *)

(** ** Bit fields and the 64-bit word of a payload *)

Lemma byte_to_Z_range (b : byte) : 0 <= byte_to_Z b < 256.
Proof.
  unfold byte_to_Z. pose proof (Byte.to_N_bounded b). lia.
Qed.

Lemma testbit_cons_byte (b v k : Z) :
  0 <= b < 256 -> 0 <= k ->
  Z.testbit (b + 256 * v) k = if k <? 8 then Z.testbit b k else Z.testbit v (k - 8).
Proof.
  intros Hb Hk.
  assert (Hmod : (b + 256 * v) mod 2 ^ 8 = b).
  { change (2 ^ 8) with 256. symmetry. apply Z.mod_unique_pos with v; lia. }
  assert (Hdiv : (b + 256 * v) / 2 ^ 8 = v).
  { change (2 ^ 8) with 256. symmetry. apply Z.div_unique_pos with b; lia. }
  destruct (Z.ltb_spec k 8).
  - rewrite <- Hmod at 2. symmetry. apply Z.mod_pow2_bits_low. lia.
  - rewrite <- Hdiv at 2. rewrite Z.div_pow2_bits by lia. f_equal. lia.
Qed.

Lemma testbit_le_value (l : list byte) (k : Z) :
  0 <= k ->
  Z.testbit (le_value l) k
  = Z.testbit (byte_to_Z (nth (Z.to_nat (k / 8)) l x00)) (k mod 8).
Proof.
  revert k. induction l as [|b l IH]; intros k Hk; simpl le_value.
  - rewrite Z.bits_0. destruct (Z.to_nat (k / 8)); simpl; now rewrite Z.bits_0.
  - rewrite testbit_cons_byte by (auto using byte_to_Z_range).
    destruct (Z.ltb_spec k 8).
    + rewrite Z.div_small, Z.mod_small by lia. reflexivity.
    + rewrite IH by lia.
      replace k with ((k - 8) + 1 * 8) at 3 4 by lia.
      rewrite Z.div_add, Z.mod_add by lia.
      replace (Z.to_nat ((k - 8) / 8 + 1)) with (S (Z.to_nat ((k - 8) / 8))).
      * reflexivity.
      * assert (0 <= (k - 8) / 8) by (apply Z.div_pos; lia). lia.
Qed.

Lemma nth_take_byte (n i : nat) (l : list byte) :
  nth i (take n l) x00 = if (i <? n)%nat then nth i l x00 else x00.
Proof.
  revert i l. induction n as [|n IH]; intros i l.
  - rewrite take_0. destruct i; reflexivity.
  - destruct l as [|b l]; simpl.
    + destruct i; [reflexivity|]. now destruct (S i <? S n)%nat.
    + destruct i; [reflexivity|]. simpl. rewrite IH. reflexivity.
Qed.

(** The 64-bit word that [decode] reads has the bits of the payload. *)
Lemma readBigUInt64LE_bits (data : list byte) (w k : Z) :
  readBigUInt64LE data 0 = Ok w -> 0 <= k ->
  Z.testbit w k = payload_bit data k.
Proof.
  unfold readBigUInt64LE, read_field. intros Hr Hk.
  destruct (_ || _); [discriminate|]. injection Hr as <-.
  unfold Buffer_slice. simpl. rewrite drop_0.
  rewrite testbit_le_value by assumption.
  unfold payload_bit. rewrite nth_take_byte.
  assert (0 <= k / 8) by (apply Z.div_pos; lia).
  destruct (Z.leb_spec 0 k); [|lia]. simpl.
  destruct (Z.ltb_spec k 64).
  - assert (k / 8 < 8) by (apply Z.div_lt_upper_bound; lia).
    destruct (Nat.ltb_spec (Z.to_nat (k / 8)) (Z.to_nat (0 + 8 - 0))); [reflexivity|lia].
  - assert (8 <= k / 8) by (apply Z.div_le_lower_bound; lia).
    destruct (Nat.ltb_spec (Z.to_nat (k / 8)) (Z.to_nat (0 + 8 - 0))); [lia|].
    simpl. apply Z.bits_0.
Qed.

Lemma payload_bit_neg (data : list byte) (k : Z) : k < 0 -> payload_bit data k = false.
Proof. intros H. unfold payload_bit. destruct (Z.leb_spec 0 k); [lia|reflexivity]. Qed.

Lemma land_shiftr_ones (data : list byte) (w : Z) (n : nat) (k : Z) :
  (forall j, 0 <= j -> Z.testbit w j = payload_bit data j) ->
  Z.land (Z.shiftr w k) (Z.ones (Z.of_nat n)) = bit_field data k n.
Proof.
  intros Hw. revert k. induction n as [|n IH]; intros k.
  - simpl. apply Z.land_0_r.
  - simpl bit_field. rewrite <- IH.
    apply Z.bits_inj'. intros i Hi.
    rewrite Z.land_spec, Z.shiftr_spec by assumption.
    rewrite (Z.add_comm (Z.b2z _)).
    destruct (Z.eq_dec i 0) as [->|Hne].
    + rewrite Z.testbit_0_r. rewrite Z.ones_spec_low by lia. rewrite andb_true_r.
      simpl. destruct (Z.le_gt_cases 0 k).
      * now apply Hw.
      * rewrite payload_bit_neg by assumption. now apply Z.testbit_neg_r.
    + replace i with (Z.succ (i - 1)) at 3 by lia.
      rewrite Z.testbit_succ_r by lia.
      rewrite Z.land_spec, Z.shiftr_spec by lia.
      replace (i - 1 + (k + 1)) with (i + k) by lia. f_equal.
      rewrite !Z.testbit_ones_nonneg by lia.
      destruct (Z.ltb_spec i (Z.of_nat (S n))), (Z.ltb_spec (i - 1) (Z.of_nat n)); try reflexivity; lia.
Qed.

Lemma land_sign_bit (u len : Z) :
  0 <= len ->
  negb (Z.land u (Z.shiftl 1 (len - 1)) =? 0) = Z.testbit u (len - 1).
Proof.
  intros Hlen. destruct (Z.eq_dec len 0) as [->|Hne].
  - simpl. rewrite Z.land_0_r. reflexivity.
  - rewrite Z.shiftl_1_l.
    destruct (Z.testbit u (len - 1)) eqn:Hb.
    + destruct (Z.eqb_spec (Z.land u (2 ^ (len - 1))) 0) as [H0|]; [|reflexivity].
      assert (Hc : Z.testbit (Z.land u (2 ^ (len - 1))) (len - 1) = true).
      { rewrite Z.land_spec, Hb, Z.pow2_bits_true by lia. reflexivity. }
      rewrite H0, Z.bits_0 in Hc. discriminate.
    + replace (Z.land u (2 ^ (len - 1))) with 0; [reflexivity|].
      symmetry. apply Z.bits_inj'. intros i Hi.
      rewrite Z.land_spec, Z.bits_0, Z.pow2_bits_eqb by lia.
      destruct (Z.eqb_spec (len - 1) i) as [<-|]; [now rewrite Hb|apply andb_false_r].
Qed.

Lemma extract_raw_spec (data : list byte) (w : Z) (signal : Signal) :
  readBigUInt64LE data 0 = Ok w -> 0 <= sig_length signal ->
  let field := bit_field data (sig_startBit signal) (Z.to_nat (sig_length signal)) in
  extract_raw w signal
  = if sig_isSigned signal then twos_complement (sig_length signal) field else field.
Proof.
  intros Hr Hlen field. unfold extract_raw.
  assert (Hraw : Z.land (Z.shiftr w (sig_startBit signal)) (Z.shiftl 1 (sig_length signal) - 1) = field).
  { change (Z.shiftl 1 (sig_length signal) - 1) with (Z.ones (sig_length signal)).
    rewrite <- (Z2Nat.id (sig_length signal)) at 1 by assumption.
    apply land_shiftr_ones. intros j Hj. now apply readBigUInt64LE_bits. }
  rewrite Hraw. destruct (sig_isSigned signal); [|reflexivity].
  unfold twos_complement. rewrite land_sign_bit by assumption.
  now rewrite Z.shiftl_1_l.
Qed.

(** ** The decoder *)

Section JsMapFacts.
Context {K V : Type} `{EqDecision K}.

Lemma Map_get_set (k k' : K) (v : V) (m : list (K * V)) :
  Map_get k' (Map_set k v m) = if decide (k = k') then Some v else Map_get k' m.
Proof.
  induction m as [|[k0 v0] m IH]; simpl.
  - destruct (decide (k = k')); reflexivity.
  - destruct (decide (k0 = k)) as [->|Hne]; simpl.
    + destruct (decide (k = k')); reflexivity.
    + destruct (decide (k0 = k')) as [->|Hne'].
      * destruct (decide (k = k')); [congruence|reflexivity].
      * apply IH.
Qed.

Lemma Map_update_absent (k : K) (f : V -> V) (m : list (K * V)) :
  Map_get k m = None -> Map_update k f m = m.
Proof.
  induction m as [|[k0 v0] m IH]; simpl; [reflexivity|].
  destruct (decide (k0 = k)); [discriminate|]. intros H0. now rewrite IH.
Qed.
End JsMapFacts.

Lemma obind_Ok {A B} (x : outcome A) (f : A -> outcome B) (b : B) :
  obind x f = Ok b -> exists a, x = Ok a /\ f a = Ok b.
Proof. destruct x; simpl; [eauto|discriminate]. Qed.

Lemma decode_signals_elem data w sigs bound out name b :
  decode_signals data w sigs bound = Ok out ->
  Map_get name out = Some b ->
  Map_get name bound = Some b
  \/ exists signal, signal ∈ sigs /\ decode_signal data w signal = Ok b.
Proof.
  revert bound. induction sigs as [|s sigs IH]; intros bound Hd Hg; simpl in Hd.
  - injection Hd as <-. now left.
  - apply obind_Ok in Hd as (b0 & Hs & Hd).
    destruct (IH _ Hd Hg) as [Hb|(s' & Hin & Hs')].
    + rewrite Map_get_set in Hb. destruct (decide (sig_name s = name)).
      * injection Hb as <-. right. exists s. split; [left|assumption].
      * now left.
    + right. exists s'. split; [now right|assumption].
Qed.

(** Every bound signal of a decoded frame is the result of the loop body on
    one signal of the message, over the padded payload and its 64-bit word. *)
Lemma decode_bound db frame d name b :
  decode (Some db) frame = Ok (Some d) ->
  Map_get name (boundSignals d) = Some b ->
  exists message w signal,
    messagesById_get db (frame_id frame) = Some message
    /\ readBigUInt64LE (padded_payload message (frame_data frame)) 0 = Ok w
    /\ signal ∈ Map_values (msg_signals message)
    /\ decode_signal (padded_payload message (frame_data frame)) w signal = Ok b.
Proof.
  unfold decode. intros Hd Hg.
  destruct (messagesById_get db (frame_id frame)) as [message|]; [|discriminate].
  apply obind_Ok in Hd as (w & Hw & Hd).
  apply obind_Ok in Hd as (bound & Hs & Hd).
  injection Hd as <-. simpl in Hg.
  destruct (decode_signals_elem _ _ _ _ _ _ _ Hs Hg) as [Hb|(s & Hin & Hs')].
  - discriminate.
  - exists message, w, s. auto.
Qed.

Lemma decode_signal_inv data w signal b :
  decode_signal data w signal = Ok b ->
  bs_signal b = signal
  /\ exists physicalValue, bs_value b = clamp signal physicalValue
     /\ (sig_dataType signal = DT_int -> sig_isLittleEndian signal = true ->
         num_eq (sig_factor signal) num_one = true ->
         num_eq (sig_offset signal) num_zero = true ->
         physicalValue = VBigInt (extract_raw w signal)).
Proof.
  unfold decode_signal. intros H.
  apply obind_Ok in H as ([pv rv] & Hpv & Hb). injection Hb as <-. simpl.
  split; [reflexivity|]. exists pv. split; [reflexivity|].
  intros Hdt Hle Hf Ho. rewrite Hdt, Hle, Hf, Ho in Hpv. simpl in Hpv. congruence.
Qed.

(** ** The order of binary64 values *)

Lemma SFcompare_antisym x y c :
  SFcompare x y = Some c -> SFcompare y x = Some (CompOpp c).
Proof.
  destruct x as [sx|sx| |sx mx ex], y as [sy|sy| |sy my ey]; simpl;
    try discriminate; intros H; injection H as <-;
    try (destruct sx; reflexivity); try (destruct sy; reflexivity);
    try (destruct sx, sy; reflexivity).
  pose proof (Pos.compare_cont_antisym mx my Eq) as Ha. simpl in Ha.
  rewrite (Z.compare_antisym ex ey).
  destruct sx, sy; try reflexivity;
    destruct (ex ?= ey); simpl; try reflexivity; now rewrite <- Ha.
Qed.

Lemma SFcompare_refl x : is_nan x = false -> SFcompare x x = Some Eq.
Proof.
  destruct x as [s|s| |s m e]; simpl; try discriminate; intros _;
    try (destruct s; reflexivity).
  rewrite Z.compare_refl, Pos.compare_cont_refl. destruct s; reflexivity.
Qed.

Lemma num_le_not_nan x y : num_le x y = true -> is_nan x = false /\ is_nan y = false.
Proof.
  unfold num_le, SFleb. destruct x, y; simpl; try discriminate; auto.
Qed.

Lemma num_le_refl x : is_nan x = false -> num_le x x = true.
Proof. intros H. unfold num_le, SFleb. now rewrite SFcompare_refl. Qed.

(** Two numbers that are not NaN are comparable: [x < y] or [y <= x]. *)
Lemma num_lt_false_le x y :
  is_nan x = false -> is_nan y = false -> num_lt x y = false -> num_le y x = true.
Proof.
  unfold num_lt, num_le, SFltb, SFleb. intros Hx Hy.
  destruct (SFcompare x y) as [c|] eqn:Hc.
  - rewrite (SFcompare_antisym _ _ _ Hc). destruct c; simpl; auto; discriminate.
  - destruct x, y; simpl in *; discriminate.
Qed.

Lemma num_lt_le x y : num_lt x y = true -> num_le x y = true.
Proof. unfold num_lt, num_le, SFltb, SFleb. destruct (SFcompare x y) as [[]|]; auto. Qed.

Lemma num_lt_irrefl_le x y : num_le x y = true -> num_lt y x = false.
Proof.
  unfold num_lt, num_le, SFltb, SFleb.
  destruct (SFcompare x y) as [c|] eqn:Hc; [|discriminate].
  rewrite (SFcompare_antisym _ _ _ Hc). destruct c; simpl; auto; discriminate.
Qed.

Lemma clamp_in_range signal x y :
  has_range signal = true ->
  clamp signal (VNumber x) = VNumber y ->
  is_nan y = false ->
  num_le (sig_min signal) (sig_max signal) = true ->
  num_le (sig_min signal) y = true /\ num_le y (sig_max signal) = true.
Proof.
  unfold has_range, clamp. intros -> Hc Hy Hmm.
  destruct (num_le_not_nan _ _ Hmm) as [Hlo Hhi].
  injection Hc as <-.
  destruct (num_lt x (sig_min signal)) eqn:H1.
  - rewrite (num_lt_irrefl_le _ _ Hmm : num_gt (sig_min signal) (sig_max signal) = false).
    auto using num_le_refl.
  - destruct (num_gt x (sig_max signal)) eqn:H2.
    + auto using num_le_refl.
    + split; apply num_lt_false_le; auto.
Qed.

(** ** C3: exact integer signals *)

(** C3. For a little-endian integer signal with scale factor 1 and offset 0,
    the physical value that [decode] binds is a bigint, not a rounded number:
    the field of [sig_length] bits at [sig_startBit] of the padded payload,
    read in two's complement on that width when the signal is signed. *)
Theorem decode_exact_bit_field db frame message d name b :
  messagesById_get db (frame_id frame) = Some message ->
  decode (Some db) frame = Ok (Some d) ->
  Map_get name (boundSignals d) = Some b ->
  sig_dataType (bs_signal b) = DT_int ->
  sig_isLittleEndian (bs_signal b) = true ->
  num_eq (sig_factor (bs_signal b)) num_one = true ->
  num_eq (sig_offset (bs_signal b)) num_zero = true ->
  0 <= sig_length (bs_signal b) ->
  let field :=
    bit_field (padded_payload message (frame_data frame))
              (sig_startBit (bs_signal b)) (Z.to_nat (sig_length (bs_signal b))) in
  bs_value b
  = VBigInt (if sig_isSigned (bs_signal b)
             then twos_complement (sig_length (bs_signal b)) field
             else field).
Proof.
  intros Hm Hd Hg Hdt Hle Hf Ho Hlen field. subst field.
  destruct (decode_bound _ _ _ _ _ Hd Hg) as (message' & w & signal & Hm' & Hw & _ & Hs).
  assert (message' = message) as -> by congruence.
  destruct (decode_signal_inv _ _ _ _ Hs) as (Hsig & pv & Hv & Hpv).
  rewrite Hsig in *. rewrite Hv, (Hpv Hdt Hle Hf Ho). simpl.
  f_equal. now apply extract_raw_spec.
Qed.

Lemma decode_exact_bit_field_witness :
  decode (Some sample_dbc) sample_frame = Ok (Some sample_decoded)
  /\ Map_get "COUNT" (boundSignals sample_decoded) = Some (sample_bound "COUNT")
  /\ bs_value (sample_bound "COUNT") = VBigInt 255.
Proof.
  split; [vm_compute; reflexivity|]. split; [vm_compute; reflexivity|].
  apply (decode_exact_bit_field sample_dbc sample_frame sample_message
           sample_decoded "COUNT" (sample_bound "COUNT"));
    vm_compute; (reflexivity || discriminate).
Defined.

(** ** C2: the range clamp *)

Lemma bound_signal_inv db frame name b :
  bound_signal db frame name = Some b ->
  exists d, decode (Some db) frame = Ok (Some d) /\ Map_get name (boundSignals d) = Some b.
Proof.
  unfold bound_signal. destruct (decode (Some db) frame) as [[d|]|]; try discriminate. eauto.
Qed.

(** C2, as the code has it. When the declared min or max is not zero and
    min <= max, a physical value that [decode] binds as a number other than
    NaN lies within [min, max]. Nothing is claimed of a bigint, which
    [decode] does not clamp. *)
Theorem decode_clamps_numbers db frame name b x :
  bound_signal db frame name = Some b ->
  has_range (bs_signal b) = true ->
  bs_value b = VNumber x ->
  is_nan x = false ->
  num_le (sig_min (bs_signal b)) (sig_max (bs_signal b)) = true ->
  in_declared_range b = true.
Proof.
  intros Hb Hr Hv Hx Hmm.
  destruct (bound_signal_inv _ _ _ _ Hb) as (d & Hd & Hg).
  destruct (decode_bound _ _ _ _ _ Hd Hg) as (message & w & signal & _ & _ & _ & Hs).
  destruct (decode_signal_inv _ _ _ _ Hs) as (Hsig & pv & Hc & _).
  rewrite Hsig in *. rewrite Hv in Hc.
  destruct pv as [s|x0|c|z]; try (simpl in Hc; discriminate).
  unfold in_declared_range, within. rewrite Hsig, Hv. simpl.
  destruct (clamp_in_range signal x0 x Hr (eq_sym Hc) Hx Hmm) as [-> ->]. reflexivity.
Qed.

Lemma decode_clamps_numbers_witness :
  bound_signal sample_dbc sample_frame "VOLTAGE" = Some (sample_bound "VOLTAGE")
  /\ in_declared_range (sample_bound "VOLTAGE") = true.
Proof.
  split; [vm_compute; reflexivity|].
  apply (decode_clamps_numbers sample_dbc sample_frame "VOLTAGE" (sample_bound "VOLTAGE")
           num_zero);
    vm_compute; reflexivity.
Defined.

(** C2 fails as stated. In the sample frame the signal [COUNT], an integer
    signal with factor 1, offset 0 and range [0|10], is bound to the bigint
    255; the float signal [TEMP] with range [0|100] is bound to NaN; the
    signal [GAIN] with the empty range [10|0] is bound to 0. *)
Lemma decode_outside_declared_range :
  (fun b => (bs_value b, has_range (bs_signal b), in_declared_range b))
    <$> bound_signal sample_dbc sample_frame "COUNT"
  = Some (VBigInt 255, true, false)
  /\ (fun b => (bs_value b, has_range (bs_signal b), in_declared_range b))
       <$> bound_signal sample_dbc sample_frame "TEMP"
     = Some (VNumber S754_nan, true, false)
  /\ (fun b => (bs_value b, has_range (bs_signal b), in_declared_range b))
       <$> bound_signal sample_dbc sample_frame "GAIN"
     = Some (VNumber (S754_zero false), true, false).
Proof. repeat split; vm_compute; reflexivity. Qed.

(** ** C4: the output kind of a signal *)

(** C4, as the code has it. The output kind is boolean exactly for one-bit
    signals; otherwise it is float exactly for float signals of 32 bits,
    int64 exactly for integer signals whose factor equals 1 or 0, and double
    in the remaining cases. *)
Theorem getWpilogTypeFromSignal_kinds (signal : Signal) :
  let unscaled :=
    num_eq (sig_factor signal) num_one || num_eq (sig_factor signal) num_zero in
  (getWpilogTypeFromSignal signal = "boolean" <-> sig_length signal = 1)
  /\ (getWpilogTypeFromSignal signal = "float"
      <-> sig_length signal = 32 /\ sig_dataType signal = DT_float)
  /\ (getWpilogTypeFromSignal signal = "int64"
      <-> sig_length signal <> 1 /\ sig_dataType signal = DT_int /\ unscaled = true)
  /\ (getWpilogTypeFromSignal signal = "double"
      <-> sig_length signal <> 1
          /\ ~ (sig_length signal = 32 /\ sig_dataType signal = DT_float)
          /\ (sig_dataType signal = DT_int -> unscaled = false)).
Proof.
  unfold getWpilogTypeFromSignal, num_ne, num_eq.
  destruct (Z.eqb_spec (sig_length signal) 1) as [H1|H1];
    destruct (Z.eqb_spec (sig_length signal) 32) as [H32|H32];
    destruct (sig_dataType signal);
    destruct (SFeqb (sig_factor signal) num_one);
    destruct (SFeqb (sig_factor signal) num_zero); simpl;
    repeat split; intros; try discriminate; try congruence; try lia;
    try (exfalso; intuition congruence); intuition (try congruence; try lia).
Qed.

(** C4 fails as stated: an integer signal of eight bits with factor 0 is
    written as int64, while a factor other than 1 should make it a double. *)
Lemma zero_factor_is_int64 :
  getWpilogTypeFromSignal zero_factor_signal = "int64"
  /\ claimed_kind zero_factor_signal = "double".
Proof. split; reflexivity. Qed.

(** ** C7: references to undeclared signals in a definition file *)

Lemma lit_cons a pat s r :
  lit (String a pat) s = Some r -> exists s', s = String a s' /\ lit pat s' = Some r.
Proof.
  destruct s as [|c s']; simpl; [discriminate|].
  destruct (Ascii.eqb_spec a c) as [->|]; [eauto|discriminate].
Qed.

Lemma many_not_space c s : is_space c = false -> many is_space (String c s) = String c s.
Proof. intros H. unfold many. simpl. now rewrite H. Qed.

Lemma match_BO_head line x : match_BO line = Some x -> exists r, lit "BO_" line = Some r.
Proof. unfold match_BO. destruct (lit "BO_" line); [eauto|discriminate]. Qed.

Lemma match_SG_head line x :
  match_SG line = Some x -> exists r, lit "SG_" (many is_space line) = Some r.
Proof. unfold match_SG. destruct (lit "SG_" _); [eauto|discriminate]. Qed.

Lemma match_ValType_head line x :
  match_ValType line = Some x -> exists r, lit "SIG_VALTYPE_" (many is_space line) = Some r.
Proof. unfold match_ValType. destruct (lit "SIG_VALTYPE_" _); [eauto|discriminate]. Qed.

Lemma match_Comment_head line x :
  match_Comment line = Some x -> exists r, lit "CM_" (many is_space line) = Some r.
Proof. unfold match_Comment. destruct (lit "CM_" _); [eauto|discriminate]. Qed.

(** A line that starts a message is no other kind of line, and a value-type
    or comment line is not a signal line: the four patterns start differently. *)
Lemma BO_head_exclusive line r pat c :
  lit "BO_" line = Some r -> c <> "B"%char ->
  lit (String c pat) (many is_space line) = None.
Proof.
  intros H Hc. apply lit_cons in H as (s' & -> & _).
  rewrite many_not_space by reflexivity. simpl.
  destruct (Ascii.eqb_spec c "B"); [contradiction|reflexivity].
Qed.

Lemma not_BO_of_head line c pat r :
  lit (String c pat) (many is_space line) = Some r -> c <> "B"%char ->
  match_BO line = None.
Proof.
  intros H Hc. destruct (match_BO line) as [x|] eqn:Hb; [|reflexivity].
  apply match_BO_head in Hb as (r' & Hb).
  rewrite (BO_head_exclusive _ _ pat c Hb Hc) in H. discriminate.
Qed.

Lemma not_SG_of_head line c1 c2 pat r :
  lit (String c1 (String c2 pat)) (many is_space line) = Some r ->
  (c1, c2) <> ("S"%char, "G"%char) ->
  match_SG line = None.
Proof.
  intros H Hc. destruct (match_SG line) as [x|] eqn:Hs; [|reflexivity].
  apply match_SG_head in Hs as (r' & Hs).
  apply lit_cons in H as (s1 & E1 & H). apply lit_cons in H as (s2 & -> & _).
  rewrite E1 in Hs.
  apply lit_cons in Hs as (t1 & E2 & Hs). apply lit_cons in Hs as (t2 & E3 & _).
  congruence.
Qed.

Lemma heap_alter_id (f : Message -> Message) (r : nat) (h : list Message) :
  (forall m, h !! r = Some m -> f m = m) -> alter f r h = h.
Proof.
  revert r. induction h as [|m h IH]; intros r Hf; [reflexivity|].
  destruct r as [|r]; simpl.
  - f_equal. apply Hf. reflexivity.
  - f_equal. apply IH. intros m' Hm'. apply Hf. exact Hm'.
Qed.

(** An assignment through a lookup that finds no signal changes nothing. *)
Lemma update_signal_absent dbc id name f :
  signal_lookup dbc id name = None -> update_signal dbc id name f = dbc.
Proof.
  unfold signal_lookup, messagesById_get, update_signal, deref. intros H.
  destruct (messagesById dbc !! id) as [r|]; [|reflexivity]. simpl in H.
  unfold mutate. rewrite heap_alter_id; [now destruct dbc|].
  intros m Hm. rewrite Hm in H. simpl in H.
  unfold with_signals. rewrite Map_update_absent by assumption. now destruct m.
Qed.

Lemma load_line_dangling dbc currentMessage line :
  dangling_reference dbc line = true ->
  load_line (dbc, currentMessage) line = (dbc, currentMessage).
Proof.
  unfold dangling_reference. intros H.
  destruct (match_ValType line) as [[[id name] kind]|] eqn:Hv.
  - apply bool_decide_eq_true in H.
    destruct (match_ValType_head _ _ Hv) as (r & Hr).
    unfold load_line.
    rewrite (not_BO_of_head _ _ _ _ Hr) by discriminate.
    rewrite (not_SG_of_head _ _ _ _ _ Hr) by (intros [=]).
    rewrite Hv.
    destruct (String.eqb kind "1"), (String.eqb kind "2");
      repeat rewrite (update_signal_absent dbc _ _ _ H); reflexivity.
  - destruct (match_Comment line) as [[[id name] text]|] eqn:Hc; [|discriminate].
    apply bool_decide_eq_true in H.
    destruct (match_Comment_head _ _ Hc) as (r & Hr).
    unfold load_line.
    rewrite (not_BO_of_head _ _ _ _ Hr) by discriminate.
    rewrite (not_SG_of_head _ _ _ _ _ Hr) by (intros [=]).
    rewrite Hv, Hc. now rewrite update_signal_absent.
Qed.

(** C7, as the code has it. A value-type override line or a signal-comment
    line that names a message id or a signal not declared so far is dropped:
    the load goes on and ends with the catalog it would build without that
    line. *)
Theorem dangling_reference_dropped this before line after :
  dangling_reference (load_lines this before).1 line = true ->
  load_lines this (before ++ line :: after) = load_lines this (before ++ after).
Proof.
  intros H. unfold load_lines in *. rewrite !fold_left_app. simpl.
  destruct (fold_left load_line before (this, None)) as [dbc cur].
  now rewrite load_line_dangling.
Qed.

Lemma dangling_reference_dropped_witness :
  dangling_reference (load_lines new_Dbc ["BO_ 7 M: 8 X"]).1 "SIG_VALTYPE_ 7 NOPE : 1;" = true
  /\ load_lines new_Dbc (["BO_ 7 M: 8 X"] ++ "SIG_VALTYPE_ 7 NOPE : 1;" :: [])
     = load_lines new_Dbc (["BO_ 7 M: 8 X"] ++ []).
Proof.
  split; [vm_compute; reflexivity|].
  apply (dangling_reference_dropped new_Dbc ["BO_ 7 M: 8 X"] "SIG_VALTYPE_ 7 NOPE : 1;" []).
  vm_compute; reflexivity.
Defined.

(** C7 fails as stated: the load of a file whose only line overrides the value
    type of a signal of an undeclared message, or comments it, does not fail;
    it returns the catalog unchanged. *)
Lemma load_tolerates_dangling_reference :
  dangling_reference new_Dbc "SIG_VALTYPE_ 5 NOPE : 1;" = true
  /\ load new_Dbc "SIG_VALTYPE_ 5 NOPE : 1;" = new_Dbc
  /\ dangling_reference new_Dbc ("CM_ SG_ 5 NOPE " ++ quote ++ "text" ++ quote ++ ";") = true
  /\ load new_Dbc ("CM_ SG_ 5 NOPE " ++ quote ++ "text" ++ quote ++ ";") = new_Dbc.
Proof. repeat split; vm_compute; reflexivity. Qed.

(** ** The writer, step by step *)

Lemma controls_app vs ws : controls (vs ++ ws) = (controls vs ++ controls ws)%list.
Proof. apply omap_app. Qed.

Lemma views_push c st : views (push c st).2 = (views st ++ [chunk_view c])%list.
Proof. unfold views. simpl. now rewrite map_app. Qed.

(** Where a record sits in an output that grew by one chunk. *)
Lemma snoc_split (vs : list written) v pre d post :
  (vs ++ [v] = pre ++ d :: post)%list ->
  (exists post', vs = (pre ++ d :: post')%list /\ post = (post' ++ [v])%list)
  \/ (vs = pre /\ v = d /\ post = []).
Proof.
  intros H. destruct post as [|x post _] using rev_ind.
  - apply app_inj_tail in H as [-> ->]. now right.
  - left. exists post.
    change (pre ++ d :: post ++ [x])%list with (pre ++ (d :: post) ++ [x])%list in H.
    rewrite app_assoc in H. now apply app_inj_tail in H as [-> ->].
Qed.

Lemma framed_control payload : exists bytes, framed 0 payload 0 = Ok bytes.
Proof. unfold framed. simpl. eauto. Qed.

Lemma framed_Ok id payload timestampUs :
  0 <= id < 2 ^ 64 -> 0 <= timestampUs < 2 ^ 64 ->
  exists bytes, framed id payload timestampUs = Ok bytes.
Proof.
  intros Hid Hts. unfold framed, writeVariableInt, writeBigUInt64LE.
  destruct (Z.ltb_spec id 0), (Z.geb_spec id (2 ^ 64)); try lia.
  destruct (Z.ltb_spec timestampUs 0), (Z.geb_spec timestampUs (2 ^ 64)); try lia.
  simpl. eauto.
Qed.

Lemma control_payload_Ok entryId name type metadata payload :
  control_payload entryId name type metadata = Ok payload -> 0 <= entryId <= 0xffffffff.
Proof.
  unfold control_payload, writeUInt32LE.
  destruct (Z.ltb_spec entryId 0), (Z.gtb_spec entryId 0xffffffff); simpl; try discriminate.
  lia.
Qed.

Lemma control_payload_Throw entryId name type metadata e :
  control_payload entryId name type metadata = Throw e -> entryId < 0 \/ 0xffffffff < entryId.
Proof.
  unfold control_payload, writeUInt32LE.
  destruct (Z.ltb_spec entryId 0), (Z.gtb_spec entryId 0xffffffff); simpl; try discriminate; lia.
Qed.

Lemma control_payload_in_range entryId name type metadata :
  0 <= entryId <= 0xffffffff ->
  exists payload, control_payload entryId name type metadata = Ok payload.
Proof.
  intros H. destruct (control_payload entryId name type metadata) as [payload|e] eqn:E;
    [eauto|]. apply control_payload_Throw in E. lia.
Qed.

(** Every stream type the transcoder declares has a payload encoding. *)
Lemma data_payload_string value :
  data_payload "string" value = Some (utf8 (String_of_value value)).
Proof. reflexivity. Qed.

Lemma data_payload_int64 value :
  data_payload "int64" value
  = Some (match obind (BigInt_of_value value) writeBigInt64LE with
          | Ok payload => payload
          | Throw _ => le_bytes 8 0
          end).
Proof.
  unfold data_payload. simpl.
  now destruct (obind (BigInt_of_value value) writeBigInt64LE).
Qed.

Lemma data_payload_signal signal value :
  is_Some (data_payload (getWpilogTypeFromSignal signal) value).
Proof.
  unfold getWpilogTypeFromSignal.
  repeat match goal with |- context [if ?c then _ else _] => destruct c end;
    try (eexists; reflexivity).
  rewrite data_payload_int64. eauto.
Qed.

#[local] Opaque framed control_payload data_payload.

(** One step of symbolic execution of a writer computation. *)
Ltac run_M :=
  unfold mbind, M_bind, bind, lift, get_state, next_record_id, push, RECORDS_set, ret;
  simpl.

(** What [declare] does for a name that is taken, for a name that is free
    while the counter fits the identifier field of a control record, and for
    a free name when it does not. *)
Lemma declare_taken st name type metadata info :
  RECORDS st !! name = Some info -> declare name type metadata st = (Ok tt, st).
Proof. intros Hr. unfold declare. run_M. now rewrite Hr. Qed.

Lemma declare_fresh st name type metadata :
  RECORDS st !! name = None -> 0 <= NEXT_RECORD_ID st <= 0xffffffff ->
  exists bytes,
    declare name type metadata st
    = (Ok tt,
       {| RECORDS := <[name := {| rec_id := NEXT_RECORD_ID st; rec_type := type |}]> (RECORDS st);
          NEXT_RECORD_ID := NEXT_RECORD_ID st + 1;
          outputChunks :=
            outputChunks st
            ++ [{| chunk_view := ControlRecord (NEXT_RECORD_ID st) name type metadata;
                   chunk_bytes := bytes |}];
          recordsProcessed := recordsProcessed st |}).
Proof.
  intros Hr Hn. unfold declare. run_M. rewrite Hr. unfold writeControlRecord. run_M.
  destruct (control_payload_in_range (NEXT_RECORD_ID st) name type metadata Hn)
    as [payload ->].
  destruct (framed_control payload) as [bytes ->]. eauto.
Qed.

Lemma declare_overflow st name type metadata :
  RECORDS st !! name = None -> 0xffffffff < NEXT_RECORD_ID st ->
  exists e,
    declare name type metadata st
    = (Throw e,
       {| RECORDS := RECORDS st;
          NEXT_RECORD_ID := NEXT_RECORD_ID st + 1;
          outputChunks := outputChunks st;
          recordsProcessed := recordsProcessed st |}).
Proof.
  intros Hr Hn. unfold declare. run_M. rewrite Hr. unfold writeControlRecord. run_M.
  destruct (control_payload (NEXT_RECORD_ID st) name type metadata) as [payload|e] eqn:E.
  - apply control_payload_Ok in E. lia.
  - eauto.
Qed.

(** What [writeRecord] does for a registered name whose value encodes. *)
Lemma writeRecord_run st entryName entryValue timestampMs info payload bytes :
  RECORDS st !! entryName = Some info ->
  data_payload (rec_type info) entryValue = Some payload ->
  framed (rec_id info) payload (timestampMs * 1000) = Ok bytes ->
  writeRecord entryName entryValue timestampMs st
  = (Ok tt,
     {| RECORDS := RECORDS st;
        NEXT_RECORD_ID := NEXT_RECORD_ID st;
        outputChunks :=
          outputChunks st
          ++ [{| chunk_view :=
                   DataRecord entryName (rec_id info) (rec_type info) payload
                              (timestampMs * 1000);
                 chunk_bytes := bytes |}];
        recordsProcessed := recordsProcessed st |}).
Proof.
  intros Hr Hp Hf. unfold writeRecord. run_M. rewrite Hr, Hp. run_M. now rewrite Hf.
Qed.

(** The output after [writeRecord]: unchanged, or longer by one data record
    of the stream. *)
Lemma writeRecord_views st entryName entryValue timestampMs :
  let st' := (writeRecord entryName entryValue timestampMs st).2 in
  views st' = views st
  \/ exists id type payload,
       views st'
       = (views st ++ [DataRecord entryName id type payload (timestampMs * 1000)])%list.
Proof.
  unfold writeRecord. run_M.
  destruct (RECORDS st !! entryName) as [info|]; [|now left].
  destruct (data_payload (rec_type info) entryValue) as [payload|]; [|now left]. run_M.
  destruct (framed (rec_id info) payload (timestampMs * 1000)) as [bytes|e]; [|now left].
  right. exists (rec_id info), (rec_type info), payload.
  unfold views. simpl. now rewrite map_app.
Qed.

(** ** Computations that keep a property of the state *)

Section Keeps.
Variable P : State -> Prop.

Lemma keeps_ret {A} (a : A) : keeps P (ret a).
Proof. intros st H. exact H. Qed.

Lemma keeps_lift {A} (x : outcome A) : keeps P (lift x).
Proof. intros st H. exact H. Qed.

Lemma keeps_get_state : keeps P get_state.
Proof. intros st H. exact H. Qed.

Lemma keeps_bind {A B} (m : M A) (f : A -> M B) :
  keeps P m -> (forall a, keeps P (f a)) -> keeps P (m ≫= f).
Proof.
  intros Hm Hf st H. unfold mbind, M_bind, bind. specialize (Hm st H).
  destruct (m st) as [[a|e] st']; simpl in *; [now apply Hf|assumption].
Qed.

(** The continuation of a pure step sees the value the step returned. *)
Lemma keeps_bind_lift {A B} (x : outcome A) (f : A -> M B) :
  (forall a, x = Ok a -> keeps P (f a)) -> keeps P (lift x ≫= f).
Proof.
  intros Hf st H. unfold mbind, M_bind, bind, lift.
  destruct x as [a|e]; simpl; [now apply Hf|assumption].
Qed.

Lemma keeps_try_ignore (body : M unit) : keeps P body -> keeps P (try_ignore body).
Proof.
  intros Hb st H. unfold try_ignore. specialize (Hb st H).
  destruct (body st) as [[a|e] st']; assumption.
Qed.

Lemma keeps_for_each {A} (xs : list A) (body : A -> M unit) :
  (forall x, keeps P (body x)) -> keeps P (for_each xs body).
Proof.
  intros Hb. unfold for_each. induction xs as [|x xs IH]; simpl.
  - apply keeps_ret.
  - apply keeps_bind; auto.
Qed.

Lemma keeps_for_records size len (body : Z -> M unit) :
  (forall pc, keeps P (body pc)) -> keeps P (for_records size len body).
Proof.
  intros Hb. unfold for_records. induction (seqZ 0 (len / size)) as [|x xs IH]; simpl.
  - apply keeps_ret.
  - apply keeps_bind; auto.
Qed.
End Keeps.

(** Preservation goes through the constructs of the transcoder; it stops at
    a declaration, which is treated together with the write that follows. *)
Ltac keeps_step :=
  match goal with
  | |- keeps _ (mbind _ (declare _ _ _)) => fail 1
  | |- keeps _ (ret _) => apply keeps_ret
  | |- keeps _ (lift _) => apply keeps_lift
  | |- keeps _ get_state => apply keeps_get_state
  | |- keeps _ (try_ignore _) => apply keeps_try_ignore
  | |- keeps _ (for_each _ _) => apply keeps_for_each; intros
  | |- keeps _ (for_records _ _ _) => apply keeps_for_records; intros
  | |- keeps _ (mbind _ (lift _)) => apply keeps_bind_lift; intros
  | |- keeps _ (mbind _ _) => apply keeps_bind; [|intros]
  | |- keeps _ (match ?x with _ => _ end) => destruct x eqn:?
  | |- keeps _ (if ?x then _ else _) => destruct x eqn:?
  end.

(** ** The writer keeps its invariant *)

Lemma writer_invariant_initial : writer_invariant initial_state.
Proof.
  constructor; simpl; try lia.
  - intros name info H. discriminate.
  - intros id name type H. inversion H.
  - reflexivity.
  - intros id name type H. inversion H.
  - intros pre name id type payload ts post E. destruct pre; discriminate.
  - constructor.
Qed.

Lemma keeps_set_recordsProcessed : keeps writer_invariant set_recordsProcessed.
Proof. intros st [ ]. constructor; assumption. Qed.

Lemma keeps_push_header :
  keeps writer_invariant (push {| chunk_view := FileHeader; chunk_bytes := file_header |}).
Proof.
  intros st [Hs Hc Hi Hb Hp Hn Hd He].
  assert (Hv := views_push {| chunk_view := FileHeader; chunk_bytes := file_header |} st).
  assert (Hctl : controls (views (push {| chunk_view := FileHeader; chunk_bytes := file_header |} st).2)
                 = controls (views st)).
  { rewrite Hv, controls_app. simpl. apply app_nil_r. }
  constructor; rewrite ?Hctl; try assumption.
  - intros pre name id type payload ts post E. rewrite Hv in E.
    apply snoc_split in E as [(post' & E & _)|(_ & E & _)]; [eauto|discriminate].
  - simpl. apply Forall_app. split; [assumption|]. repeat constructor.
Qed.

Lemma keeps_declare name type metadata :
  keeps writer_invariant (declare name type metadata).
Proof.
  intros st Hinv. destruct (RECORDS st !! name) as [info|] eqn:Hr.
  { now rewrite (declare_taken _ _ _ _ _ Hr). }
  destruct Hinv as [Hs Hc Hi Hb Hp Hn Hd He].
  destruct (Z_le_gt_dec (NEXT_RECORD_ID st) 0xffffffff) as [Hfit|Hover].
  - destruct (declare_fresh st name type metadata Hr ltac:(lia)) as [bytes Hrun].
    assert (Hbytes : encodes {| chunk_view := ControlRecord (NEXT_RECORD_ID st) name type metadata;
                                chunk_bytes := bytes |}).
    { revert Hrun. unfold declare. run_M. rewrite Hr. unfold writeControlRecord. run_M.
      destruct (control_payload (NEXT_RECORD_ID st) name type metadata) as [payload|e] eqn:Hcp;
        [|discriminate].
      destruct (framed 0 payload 0) as [bytes'|e] eqn:Hf; [|discriminate].
      intros [= E]. apply app_inv_head in E. injection E as <-. exists payload. auto. }
    rewrite Hrun.
    assert (Hnext : NEXT_RECORD_ID st = 1 + Z.of_nat (length (controls (views st)))) by lia.
    constructor; simpl; unfold views; simpl; rewrite ?map_app, ?controls_app; simpl;
      fold (views st).
    + intros name' info. destruct (decide (name = name')) as [<-|Hne].
      * rewrite lookup_insert_eq. intros [= <-]. simpl.
        apply elem_of_app. right. constructor.
      * rewrite lookup_insert_ne by assumption. intros H.
        apply elem_of_app. left. now apply Hs.
    + intros id name' type' [H|H]%elem_of_app.
      * assert (name <> name') by (intros <-; apply Hc in H; congruence).
        rewrite lookup_insert_ne by assumption. now apply Hc.
      * apply list_elem_of_singleton in H. injection H as -> -> ->.
        now rewrite lookup_insert_eq.
    + rewrite map_app, length_app, Hi. simpl.
      rewrite Nat.add_1_r, seqZ_S. now rewrite Hnext.
    + intros id name' type' [H|H]%elem_of_app; [eauto|].
      apply list_elem_of_singleton in H. injection H as -> -> ->. lia.
    + lia.
    + left. rewrite length_app. simpl. lia.
    + intros pre name' id type' payload' ts post E.
      apply snoc_split in E as [(post' & E & _)|(_ & E & _)]; [eauto|discriminate].
    + apply Forall_app. split; [assumption|]. repeat constructor. exact Hbytes.
  - destruct (declare_overflow st name type metadata Hr ltac:(lia)) as [e ->].
    constructor; simpl; try assumption; lia.
Qed.

Lemma keeps_writeRecord name value ts : keeps writer_invariant (writeRecord name value ts).
Proof.
  intros st [Hs Hc Hi Hb Hp Hn Hd He]. unfold writeRecord. run_M.
  destruct (RECORDS st !! name) as [info|] eqn:Hr; [|constructor; assumption].
  destruct (data_payload (rec_type info) value) as [payload|]; [|constructor; assumption].
  run_M.
  destruct (framed (rec_id info) payload (ts * 1000)) as [bytes|e] eqn:Hf;
    [|constructor; assumption].
  constructor; simpl; unfold views; simpl; rewrite ?map_app, ?controls_app; simpl;
    fold (views st); rewrite ?app_nil_r; try assumption.
  - intros pre name' id type payload' ts' post E.
    apply snoc_split in E as [(post' & E & _)|(<- & E & _)]; [eauto|].
    injection E as <- <- <- <- <-. now apply Hs.
  - apply Forall_app. split; [assumption|]. repeat constructor. exact Hf.
Qed.

(** ** A stream is declared with its first value *)

Lemma control_first_snoc_data vs name id type payload ts :
  control_first vs -> control_first (vs ++ [DataRecord name id type payload ts]).
Proof.
  intros H pre id' name' type' metadata post E.
  apply snoc_split in E as [(post' & E & ->)|(_ & E & _)]; [|discriminate].
  destruct (H _ _ _ _ _ _ E) as (payload' & ts' & post'' & ->). simpl. eauto.
Qed.

Lemma control_first_snoc_header vs : control_first vs -> control_first (vs ++ [FileHeader]).
Proof.
  intros H pre id' name' type' metadata post E.
  apply snoc_split in E as [(post' & E & ->)|(_ & E & _)]; [|discriminate].
  destruct (H _ _ _ _ _ _ E) as (payload' & ts' & post'' & ->). simpl. eauto.
Qed.

Lemma control_first_snoc_pair vs name id type metadata payload ts :
  control_first vs ->
  control_first (vs ++ [ControlRecord id name type metadata;
                        DataRecord name id type payload ts]).
Proof.
  intros H pre id' name' type' metadata' post E.
  change (vs ++ [ControlRecord id name type metadata; DataRecord name id type payload ts])%list
    with (vs ++ [ControlRecord id name type metadata] ++ [DataRecord name id type payload ts])%list
    in E.
  rewrite app_assoc in E.
  apply snoc_split in E as [(post' & E & ->)|(_ & E & _)]; [|discriminate].
  apply snoc_split in E as [(post'' & E & ->)|(_ & E & ->)].
  - destruct (H _ _ _ _ _ _ E) as (payload' & ts' & post3 & ->). simpl. eauto.
  - injection E as <- <- <- <-. simpl. eauto.
Qed.

(** The two steps that follow the first sight of a stream name, taken
    together: the control record, if one is written, comes with the data
    record of the value. *)
Lemma keeps_declare_writeRecord name type metadata value timestampMs :
  is_Some (data_payload type value) ->
  0 <= timestampMs * 1000 < 2 ^ 64 ->
  keeps conversion_invariant
        (declare name type metadata ≫= fun _ => writeRecord name value timestampMs).
Proof.
  intros [payload Hpay] Hts st [Hinv Hcf]. split.
  { apply (keeps_bind writer_invariant); auto using keeps_declare, keeps_writeRecord. }
  unfold mbind, M_bind, bind.
  destruct (RECORDS st !! name) as [info|] eqn:Hr.
  - rewrite (declare_taken _ _ _ _ _ Hr).
    destruct (writeRecord_views st name value timestampMs) as [E|(id & t & p & E)];
      simpl in E; rewrite E; auto using control_first_snoc_data.
  - destruct (Z_le_gt_dec (NEXT_RECORD_ID st) 0xffffffff) as [Hfit|Hover].
    + pose proof (inv_next_positive _ Hinv) as Hpos.
      destruct (declare_fresh st name type metadata Hr ltac:(lia)) as [cbytes ->].
      match goal with |- context [writeRecord _ _ _ ?s] => set (st1 := s) end.
      destruct (framed_Ok (NEXT_RECORD_ID st) payload (timestampMs * 1000) ltac:(lia) Hts)
        as [bytes Hf].
      rewrite (writeRecord_run st1 name value timestampMs
                 {| rec_id := NEXT_RECORD_ID st; rec_type := type |} payload bytes);
        [|apply lookup_insert_eq|exact Hpay|exact Hf].
      unfold views. simpl. rewrite !map_app. simpl. rewrite <- app_assoc. simpl.
      now apply control_first_snoc_pair.
    + destruct (declare_overflow st name type metadata Hr ltac:(lia)) as [e ->]. exact Hcf.
Qed.

Lemma conversion_invariant_initial : conversion_invariant initial_state.
Proof.
  split; [apply writer_invariant_initial|].
  intros pre id name type metadata post E. destruct pre; discriminate.
Qed.

Lemma keeps_conversion_set_recordsProcessed :
  keeps conversion_invariant set_recordsProcessed.
Proof. intros st [H1 H2]. split; [now apply keeps_set_recordsProcessed|exact H2]. Qed.

Lemma keeps_conversion_push_header :
  keeps conversion_invariant
        (push {| chunk_view := FileHeader; chunk_bytes := file_header |}).
Proof.
  intros st [H1 H2]. split; [now apply keeps_push_header|].
  rewrite views_push. now apply control_first_snoc_header.
Qed.

Lemma le_value_bound l : 0 <= le_value l < 256 ^ Z.of_nat (length l).
Proof.
  induction l as [|b l IH]; [simpl; lia|].
  cbn [le_value length]. rewrite Nat2Z.inj_succ, Z.pow_succ_r by lia.
  pose proof (byte_to_Z_range b). lia.
Qed.

Lemma readUInt32LE_range data offset value :
  readUInt32LE data offset = Ok value -> 0 <= value < 2 ^ 32.
Proof.
  unfold readUInt32LE, read_field. destruct (_ || _); [discriminate|]. intros [= <-].
  pose proof (le_value_bound (Buffer_slice data offset (offset + 4))) as H.
  assert (Hlen : Z.of_nat (length (Buffer_slice data offset (offset + 4))) <= 4).
  { unfold Buffer_slice. rewrite length_take. lia. }
  assert (256 ^ Z.of_nat (length (Buffer_slice data offset (offset + 4))) <= 256 ^ 4)
    by (apply Z.pow_le_mono_r; lia).
  change (2 ^ 32) with (256 ^ 4). lia.
Qed.

(** The version parsers of the three devices never raise. *)
Lemma readUInt8_Ok data offset :
  0 <= offset < Buffer_length data -> exists v, readUInt8 data offset = Ok v.
Proof.
  intros H. unfold readUInt8, read_field.
  destruct (Z.gtb_spec (offset + 1) (Buffer_length data)); [lia|].
  destruct (Z.ltb_spec offset 0); [lia|]. simpl. eauto.
Qed.

Lemma readUInt16BE_Ok data offset :
  0 <= offset -> offset + 2 <= Buffer_length data -> exists v, readUInt16BE data offset = Ok v.
Proof.
  intros H1 H2. unfold readUInt16BE.
  destruct (Z.gtb_spec (offset + 2) (Buffer_length data)); [lia|].
  destruct (Z.ltb_spec offset 0); [lia|]. simpl. eauto.
Qed.

Lemma encoderVersionParser_Ok data : exists v, encoderVersionParser data = Ok v.
Proof.
  unfold encoderVersionParser.
  destruct (Z.ltb_spec (Buffer_length data) 6); [eauto|].
  destruct (readUInt8_Ok data 5 ltac:(lia)) as [a ->].
  destruct (readUInt8_Ok data 4 ltac:(lia)) as [b ->].
  destruct (readUInt8_Ok data 3 ltac:(lia)) as [c ->]. simpl. eauto.
Qed.

Lemma defaultVersionParser_Ok device decoded data :
  customVersionParser device = None ->
  exists v, parseFirmwareVersion device decoded data = Ok v.
Proof.
  intros Hc. unfold parseFirmwareVersion. rewrite Hc.
  destruct (Z.eqb_spec (Buffer_length data) 0); [eauto|].
  assert (0 <= Buffer_length data) by (unfold Buffer_length; lia).
  destruct (Z.gtb_spec (Buffer_length data) 0); [|lia].
  destruct (readUInt8_Ok data 0 ltac:(lia)) as [a ->]. simpl.
  destruct (Z.gtb_spec (Buffer_length data) 1).
  - destruct (readUInt8_Ok data 1 ltac:(lia)) as [b ->]. simpl.
    destruct (Z.gtb_spec (Buffer_length data) 3).
    + destruct (readUInt16BE_Ok data 2 ltac:(lia) ltac:(lia)) as [c ->]. simpl. eauto.
    + simpl. eauto.
  - simpl. destruct (Z.gtb_spec (Buffer_length data) 3); [lia|]. simpl. eauto.
Qed.

Section TranscoderInvariant.
Variable resources : string -> string.

Lemma devices_cases deviceType device :
  devices resources !! deviceType = Some device ->
  customVersionParser device = None
  \/ customVersionParser device = Some encoderVersionParser.
Proof.
  unfold devices. intros H.
  apply lookup_insert_Some in H as [[_ <-]|[_ H]]; [now right|].
  apply lookup_insert_Some in H as [[_ <-]|[_ H]]; [now left|].
  apply lookup_insert_Some in H as [[_ <-]|[_ H]]; [now left|].
  rewrite lookup_empty in H. discriminate.
Qed.

Lemma parseFirmwareVersion_Ok deviceType device decoded data :
  devices resources !! deviceType = Some device ->
  exists v, parseFirmwareVersion device decoded data = Ok v.
Proof.
  intros H. destruct (devices_cases _ _ H) as [Hc|Hc].
  - now apply defaultVersionParser_Ok.
  - unfold parseFirmwareVersion. rewrite Hc.
    destruct (Buffer_length data =? 0); [eauto|apply encoderVersionParser_Ok].
Qed.

Lemma keeps_firmware_record payloadBytes pc :
  keeps conversion_invariant (firmware_record resources payloadBytes pc).
Proof.
  unfold firmware_record. repeat keeps_step.
  match goal with
  | H : devices resources !! _ = Some ?d |- context [parseFirmwareVersion ?d ?b ?c] =>
      destruct (parseFirmwareVersion_Ok _ _ b c H) as [version Hv]
  end.
  intros st Hinv.
  match goal with
  | |- context [declare ?n ?t ?m] =>
      pose proof (keeps_declare_writeRecord n t m (VString version) 0
                    ltac:(rewrite data_payload_string; eauto) ltac:(lia) st Hinv) as Hk
  end.
  revert Hk. unfold mbind, M_bind, bind, lift. rewrite Hv.
  match goal with |- context [declare ?n ?t ?m st] => destruct (declare n t m st) as [[[]|e] st1] end;
    simpl; auto.
Qed.

Lemma keeps_periodic_signal device messageSpec messageId msgTsMs entry :
  0 <= msgTsMs < 2 ^ 32 ->
  keeps conversion_invariant (periodic_signal device messageSpec messageId msgTsMs entry).
Proof.
  intros Hts. unfold periodic_signal. destruct entry as [signalName boundSignal].
  destruct (Map_get signalName (msg_signals messageSpec)) as [signalSpec|];
    [|apply keeps_ret].
  apply keeps_declare_writeRecord; [apply data_payload_signal|lia].
Qed.

Lemma keeps_periodic_record payloadBytes pc :
  keeps conversion_invariant (periodic_record resources payloadBytes pc).
Proof.
  unfold periodic_record. repeat keeps_step.
  apply keeps_periodic_signal. eauto using readUInt32LE_range.
Qed.

Lemma keeps_process_entry entryId payloadBytes :
  keeps conversion_invariant (process_entry resources entryId payloadBytes).
Proof.
  unfold process_entry. repeat keeps_step;
    auto using keeps_conversion_set_recordsProcessed, keeps_firmware_record,
               keeps_periodic_record.
Qed.

Lemma keeps_scan fuel binary_data cursor :
  keeps conversion_invariant (scan resources fuel binary_data cursor).
Proof.
  revert cursor. induction fuel as [|fuel IH]; intros cursor; simpl;
    repeat keeps_step; auto using keeps_process_entry.
Qed.

Lemma keeps_convert binary_data :
  keeps conversion_invariant (convert resources binary_data).
Proof.
  unfold convert. repeat keeps_step;
    auto using keeps_conversion_push_header, keeps_scan.
Qed.
End TranscoderInvariant.

(** Elements of a list are determined by a component that has no duplicates. *)
Lemma NoDup_fmap_inj {A B} (f : A -> B) (l : list A) x y :
  NoDup (f <$> l) -> x ∈ l -> y ∈ l -> f x = f y -> x = y.
Proof.
  induction l as [|a l IH]; intros Hnd Hx Hy E; [inversion Hx|].
  rewrite fmap_cons in Hnd. apply NoDup_cons in Hnd as [Ha Hnd].
  apply elem_of_cons in Hx as [->|Hx]; apply elem_of_cons in Hy as [->|Hy]; auto.
  - exfalso. apply Ha. rewrite E. now apply list_elem_of_fmap_2.
  - exfalso. apply Ha. rewrite <- E. now apply list_elem_of_fmap_2.
Qed.

Lemma conversion_invariant_streams st :
  conversion_invariant st -> stream_ids_ok (views st).
Proof.
  intros [[Hs Hc Hi Hb Hp Hn Hd He] Hcf].
  assert (Hnd : NoDup ((fun c : Z * string * string => c.1.1) <$> controls (views st))).
  { change (NoDup (map (fun c : Z * string * string => c.1.1) (controls (views st)))).
    rewrite Hi. apply NoDup_seqZ. }
  constructor.
  - exact Hi.
  - apply (NoDup_fmap_2_strong (fun c : Z * string * string => c.1.2)).
    + intros [[i1 n1] t1] [[i2 n2] t2] H1 H2 E. simpl in E. subst n2.
      apply Hc in H1, H2. congruence.
    + exact (NoDup_fmap_1 _ _ Hnd).
  - intros id n1 t1 n2 t2 H1 H2.
    assert (E : (id, n1, t1) = (id, n2, t2)).
    { apply (NoDup_fmap_inj _ _ _ _ Hnd H1 H2). reflexivity. }
    now injection E.
  - exact Hd.
  - exact Hcf.
Qed.

(** ** C1: output-stream identifiers *)

(** C1. In every conversion, completed or interrupted by an exception, the
    control records written carry the identifiers 1, 2, 3, ... in the order
    written, and each is written with the first value of its stream; no
    stream name has two control records and no identifier serves two names;
    every data record is written after the control record of its name and
    carries that record's identifier and type; and the bytes of every chunk
    are the framing of these records. *)
Theorem stream_identifiers resources binary_data :
  let st := (convert resources binary_data initial_state).2 in
  stream_ids_ok (views st) /\ Forall encodes (outputChunks st).
Proof.
  intros st.
  assert (H : conversion_invariant st).
  { apply keeps_convert, conversion_invariant_initial. }
  split; [now apply conversion_invariant_streams|apply H].
Qed.

(** ** C9: a value that does not encode as a signed 64-bit integer *)

(** C9. When the stream of a name has type int64 and the encoding of the
    value as a signed 64-bit integer raises, [writeRecord] returns normally
    and has appended one data record for that stream whose payload is the
    eight bytes of the integer 0. *)
Theorem int64_encoding_failure_writes_zero st entryName entryValue timestampMs id e :
  RECORDS st !! entryName = Some {| rec_id := id; rec_type := "int64" |} ->
  obind (BigInt_of_value entryValue) writeBigInt64LE = Throw e ->
  0 <= id < 2 ^ 64 ->
  0 <= timestampMs * 1000 < 2 ^ 64 ->
  exists bytes,
    framed id (Buffer_alloc 8) (timestampMs * 1000) = Ok bytes
    /\ writeRecord entryName entryValue timestampMs st
       = (Ok tt,
          {| RECORDS := RECORDS st;
             NEXT_RECORD_ID := NEXT_RECORD_ID st;
             outputChunks :=
               outputChunks st
               ++ [{| chunk_view :=
                        DataRecord entryName id "int64" (Buffer_alloc 8) (timestampMs * 1000);
                      chunk_bytes := bytes |}];
             recordsProcessed := recordsProcessed st |}).
Proof.
  intros Hr He Hid Hts.
  destruct (framed_Ok id (Buffer_alloc 8) (timestampMs * 1000) Hid Hts) as [bytes Hf].
  exists bytes. split; [exact Hf|].
  apply (writeRecord_run st entryName entryValue timestampMs
           {| rec_id := id; rec_type := "int64" |} (Buffer_alloc 8) bytes Hr).
  - simpl. now rewrite data_payload_int64, He.
  - exact Hf.
Qed.

Lemma int64_encoding_failure_writes_zero_witness :
  obind (BigInt_of_value (VString "2.5.42")) writeBigInt64LE
  = Throw (SyntaxError "Cannot convert to a BigInt")
  /\ exists bytes,
       framed 3 (Buffer_alloc 8) (0 * 1000) = Ok bytes
       /\ writeRecord "REV/ServoHub-5/COUNT" (VString "2.5.42") 0 sample_periodic_state
          = (Ok tt,
             {| RECORDS := RECORDS sample_periodic_state;
                NEXT_RECORD_ID := NEXT_RECORD_ID sample_periodic_state;
                outputChunks :=
                  outputChunks sample_periodic_state
                  ++ [{| chunk_view :=
                           DataRecord "REV/ServoHub-5/COUNT" 3 "int64" (Buffer_alloc 8) (0 * 1000);
                         chunk_bytes := bytes |}];
                recordsProcessed := recordsProcessed sample_periodic_state |}).
Proof.
  split; [reflexivity|].
  apply (int64_encoding_failure_writes_zero sample_periodic_state "REV/ServoHub-5/COUNT"
           (VString "2.5.42") 0 3 (SyntaxError "Cannot convert to a BigInt")).
  - vm_compute. reflexivity.
  - reflexivity.
  - lia.
  - lia.
Defined.

Example int64_failures :
  map (fun v => obind (BigInt_of_value v) writeBigInt64LE)
      [VNumber S754_nan; VNumber (S754_infinity false); VBigInt (2 ^ 63);
       VString "abc"; VNumber (Number_of_Z (2 ^ 63))]
  = [Throw (RangeError "not an integer"); Throw (RangeError "not an integer");
     Throw (RangeError "ERR_OUT_OF_RANGE"); Throw (SyntaxError "Cannot convert to a BigInt");
     Throw (RangeError "ERR_OUT_OF_RANGE")].
Proof. vm_compute. reflexivity. Qed.

(** ** C8: the firmware record of a servo hub *)

Lemma devices_servo_hub resources :
  devices resources !! SERVO_CONTROLLER_ID
  = Some (createDeviceMap (servohubDbc resources) SERVO_HUB_PREFIX "GET_VERSION" "STATUS_" None).
Proof.
  unfold devices. rewrite lookup_insert_ne by discriminate. apply lookup_insert_eq.
Qed.

Lemma default_version_2_5_42 device decoded :
  customVersionParser device = None ->
  parseFirmwareVersion device decoded (Buffer_from [2; 5; 0; 42; 0; 0]) = Ok "2.5.42".
Proof. intros H. unfold parseFirmwareVersion. rewrite H. reflexivity. Qed.

(** C8. A firmware record whose CAN id has device type 12 and whose data
    bytes are 2, 5, 0, 42, 0, 0 is processed without an exception when the
    servo hub catalog defines the firmware message [GET_VERSION] with a
    non-zero id, the decoding of the frame succeeds, and the stream name is
    either free, with the counter within 32 bits, or already a string stream.
    The stream [REV/ServoHub-<instance>/FIRMWARE] is then declared with type
    string, and the last record written is a data record of that stream with
    the text 2.5.42 and timestamp 0. *)
Theorem firmware_version_record resources st payloadBytes pc messageId frameId decoded :
  writer_invariant st ->
  readUInt32LE payloadBytes pc = Ok messageId ->
  Buffer_slice payloadBytes (pc + 4) (pc + 10) = Buffer_from [2; 5; 0; 42; 0; 0] ->
  js_and (js_shr messageId 24) 0x1f = SERVO_CONTROLLER_ID ->
  msg_id <$> messages_get (servohubDbc resources) "GET_VERSION" = Some frameId ->
  frameId <> 0 ->
  decode (Some (servohubDbc resources))
         (createFrame frameId (Buffer_from [2; 5; 0; 42; 0; 0] ++ Buffer_alloc 8))
  = Ok (Some decoded) ->
  let name := SERVO_HUB_PREFIX ++ String_of_Z (js_and messageId 0x3f) ++ "/FIRMWARE" in
  (RECORDS st !! name = None /\ NEXT_RECORD_ID st <= 0xffffffff)
  \/ (exists id, RECORDS st !! name = Some {| rec_id := id; rec_type := "string" |}) ->
  exists st' id bytes,
    firmware_record resources payloadBytes pc st = (Ok tt, st')
    /\ (id, name, "string") ∈ controls (views st')
    /\ last (outputChunks st')
       = Some {| chunk_view := DataRecord name id "string" (utf8 "2.5.42") 0;
                 chunk_bytes := bytes |}
    /\ framed id (utf8 "2.5.42") 0 = Ok bytes.
Proof.
  intros Hinv Hread Hdata Htype Hfw Hnz Hdec name Hname.
  assert (Hstep : forall st1 id,
            RECORDS st1 !! name = Some {| rec_id := id; rec_type := "string" |} ->
            0 <= id < 2 ^ 64 ->
            exists bytes,
              framed id (utf8 "2.5.42") 0 = Ok bytes
              /\ writeRecord name (VString "2.5.42") 0 st1
                 = (Ok tt,
                    {| RECORDS := RECORDS st1; NEXT_RECORD_ID := NEXT_RECORD_ID st1;
                       outputChunks :=
                         outputChunks st1
                         ++ [{| chunk_view := DataRecord name id "string" (utf8 "2.5.42") 0;
                                chunk_bytes := bytes |}];
                       recordsProcessed := recordsProcessed st1 |})).
  { intros st1 id Hr Hid.
    destruct (framed_Ok id (utf8 "2.5.42") 0 Hid ltac:(lia)) as [bytes Hf].
    exists bytes. split; [exact Hf|].
    exact (writeRecord_run st1 name (VString "2.5.42") 0 _ _ bytes Hr
             (data_payload_string _) Hf). }
  unfold firmware_record.
  unfold mbind at 1, M_bind at 1, bind at 1, lift at 1. rewrite Hread. cbv beta iota.
  rewrite Htype, devices_servo_hub.
  cbn [firmwareFrameId createDeviceMap canDecoder_database dev_prefix].
  rewrite Hfw. destruct (Z.eqb_spec frameId 0) as [|_]; [contradiction|].
  rewrite Hdata.
  unfold mbind at 1, M_bind at 1, bind at 1, lift at 1. rewrite Hdec. cbv beta iota.
  fold name.
  rewrite default_version_2_5_42 by reflexivity.
  destruct Hname as [[Hfree Hnext]|[id Htaken]].
  - pose proof (inv_next_positive _ Hinv) as Hpos.
    destruct (declare_fresh st name "string" EmptyString Hfree ltac:(lia)) as [cbytes Hd].
    unfold mbind at 1, M_bind at 1, bind at 1. rewrite Hd. cbv beta iota.
    unfold mbind at 1, M_bind at 1, bind at 1, lift at 1. cbv beta iota.
    match goal with |- context [writeRecord name _ 0 ?s] => set (st1 := s) end.
    destruct (Hstep st1 (NEXT_RECORD_ID st)) as (bytes & Hf & Hw).
    { subst st1. simpl. apply lookup_insert_eq. }
    { lia. }
    rewrite Hw. eexists _, (NEXT_RECORD_ID st), bytes. split; [reflexivity|].
    split; [|split; [|exact Hf]].
    + unfold views. simpl. rewrite !map_app, !controls_app. simpl. set_solver.
    + simpl. now rewrite last_snoc.
  - pose proof (inv_records_sound _ Hinv _ _ Htaken) as Hctl. simpl in Hctl.
    pose proof (inv_ids_bound _ Hinv _ _ _ Hctl) as Hb.
    unfold mbind at 1, M_bind at 1, bind at 1.
    rewrite (declare_taken st name "string" EmptyString _ Htaken). cbv beta iota.
    unfold mbind at 1, M_bind at 1, bind at 1, lift at 1. cbv beta iota.
    destruct (Hstep st id Htaken ltac:(lia)) as (bytes & Hf & Hw).
    rewrite Hw. eexists _, id, bytes. split; [reflexivity|].
    split; [|split; [|exact Hf]].
    + unfold views. simpl. rewrite map_app, controls_app.
      apply elem_of_app. now left.
    + simpl. now rewrite last_snoc.
Qed.

Lemma firmware_version_record_witness :
  exists st' id bytes,
    firmware_record sample_resources sample_firmware_payload 0 scan_start = (Ok tt, st')
    /\ (id, "REV/ServoHub-5/FIRMWARE", "string") ∈ controls (views st')
    /\ last (outputChunks st')
       = Some {| chunk_view :=
                   DataRecord "REV/ServoHub-5/FIRMWARE" id "string" (utf8 "2.5.42") 0;
                 chunk_bytes := bytes |}
    /\ framed id (utf8 "2.5.42") 0 = Ok bytes.
Proof.
  apply (firmware_version_record sample_resources scan_start sample_firmware_payload 0
           201326597 201852096 sample_firmware_decoded).
  - apply keeps_push_header, writer_invariant_initial.
  - vm_compute. reflexivity.
  - vm_compute. reflexivity.
  - vm_compute. reflexivity.
  - vm_compute. reflexivity.
  - discriminate.
  - vm_compute. reflexivity.
  - left. split; [vm_compute; reflexivity|vm_compute; discriminate].
Defined.

(** The conversion of a firmware block with this one record. *)
Example firmware_block_conversion :
  views (convert sample_resources sample_firmware_input initial_state).2
  = [FileHeader;
     ControlRecord 1 "REV/ServoHub-5/FIRMWARE" "string" EmptyString;
     DataRecord "REV/ServoHub-5/FIRMWARE" 1 "string" (utf8 "2.5.42") 0]
  /\ exists bytes, parseREVLOG sample_resources sample_firmware_input = Ok bytes.
Proof. split; [vm_compute; reflexivity|]. vm_compute. eauto. Qed.

(** C8 fails as stated when the name of the firmware stream is taken. With a
    catalog whose periodic message has a signal named [FIRMWARE], a periodic
    record declares [REV/ServoHub-5/FIRMWARE] as an int64 stream; the firmware
    record that follows, with the data bytes 2, 5, 0, 42, 0, 0, finds the name
    in the registry, declares no string stream, and writes the version text
    to the int64 stream, where it is encoded as the integer 0. *)
Lemma firmware_name_taken_by_signal :
  views (convert firmware_signal_resources firmware_signal_input initial_state).2
  = [FileHeader;
     ControlRecord 1 "REV/ServoHub-5/FIRMWARE" "int64" EmptyString;
     DataRecord "REV/ServoHub-5/FIRMWARE" 1 "int64"
                (Buffer_from [7; 0; 0; 0; 0; 0; 0; 0]) 1000000;
     DataRecord "REV/ServoHub-5/FIRMWARE" 1 "int64"
                (Buffer_from [0; 0; 0; 0; 0; 0; 0; 0]) 0]
  /\ (exists bytes, parseREVLOG firmware_signal_resources firmware_signal_input = Ok bytes)
  /\ controls (views (convert firmware_signal_resources firmware_signal_input initial_state).2)
     = [(1, "REV/ServoHub-5/FIRMWARE", "int64")].
Proof.
  split; [vm_compute; reflexivity|]. split; [vm_compute; eauto|]. vm_compute. reflexivity.
Qed.

(** ** The framing of the source *)

Lemma js_and_3 a : 0 <= js_and a 3 <= 3.
Proof.
  unfold js_and. change (ToInt32 3) with (Z.ones 2).
  rewrite Z.land_ones by lia. pose proof (Z.mod_pos_bound (ToInt32 a) (2 ^ 2)). lia.
Qed.

Lemma entryIdLen_bounds b : 1 <= entryIdLen b <= 4.
Proof. unfold entryIdLen. pose proof (js_and_3 b). lia. Qed.

Lemma sizeLen_bounds b : 1 <= sizeLen b <= 4.
Proof. unfold sizeLen. pose proof (js_and_3 (js_shr b 2)). lia. Qed.

Lemma le_value_nonneg l : 0 <= le_value l.
Proof. induction l as [|b l IH]; simpl; [lia|]. pose proof (byte_to_Z_range b). lia. Qed.

Lemma readVariableInt_cases data cursor len :
  0 <= cursor -> 1 <= len <= 6 ->
  readVariableInt data cursor len
  = if cursor + len >? Buffer_length data then Throw (Error "Not enough data.")
    else Ok (le_value (Buffer_slice data cursor (cursor + len)), cursor + len).
Proof.
  intros Hc Hlen. unfold readVariableInt, readUIntLE, read_field.
  destruct (Z.gtb_spec (cursor + len) (Buffer_length data)); [reflexivity|].
  destruct (Z.ltb_spec len 1); [lia|]. destruct (Z.gtb_spec len 6); [lia|].
  destruct (Z.ltb_spec cursor 0); [lia|]. reflexivity.
Qed.

(** The three ways the head of an iteration ends: a truncated header raises,
    a payload that overruns the input breaks, a complete entry is cut out. *)
Lemma read_entry_cases data cursor :
  0 <= cursor < Buffer_length data ->
  read_entry data cursor
  = if header_end data cursor >? Buffer_length data
    then Throw (Error "Not enough data.")
    else if header_end data cursor + declared_payloadSize data cursor >? Buffer_length data
    then Ok None
    else Ok (Some (declared_entryId data cursor,
                   Buffer_slice data (header_end data cursor)
                     (header_end data cursor + declared_payloadSize data cursor),
                   header_end data cursor + declared_payloadSize data cursor)).
Proof.
  intros Hc. unfold read_entry, header_end, declared_payloadSize, declared_entryId.
  set (b := control_byte data cursor).
  pose proof (entryIdLen_bounds b). pose proof (sizeLen_bounds b).
  destruct (Z.gtb_spec (cursor + 1) (Buffer_length data)); [lia|].
  rewrite readVariableInt_cases by lia.
  destruct (Z.gtb_spec (cursor + 1 + entryIdLen b) (Buffer_length data)).
  - destruct (Z.gtb_spec (cursor + 1 + entryIdLen b + sizeLen b) (Buffer_length data));
      [reflexivity|lia].
  - simpl. rewrite readVariableInt_cases by lia.
    destruct (Z.gtb_spec (cursor + 1 + entryIdLen b + sizeLen b) (Buffer_length data));
      reflexivity.
Qed.

Lemma read_entry_advance data cursor entryId payloadBytes cursor' :
  0 <= cursor < Buffer_length data ->
  read_entry data cursor = Ok (Some (entryId, payloadBytes, cursor')) ->
  cursor + 3 <= cursor' <= Buffer_length data.
Proof.
  intros Hc. rewrite read_entry_cases by assumption.
  unfold header_end.
  pose proof (entryIdLen_bounds (control_byte data cursor)).
  pose proof (sizeLen_bounds (control_byte data cursor)).
  pose proof (le_value_nonneg
                (Buffer_slice data (cursor + 1 + entryIdLen (control_byte data cursor))
                   (header_end data cursor))) as Hp.
  fold (declared_payloadSize data cursor) in Hp. unfold header_end in *.
  repeat match goal with |- context [?a >? ?b] => destruct (Z.gtb_spec a b) end;
    intros [=]; subst; lia.
Qed.

Section Scan.
Variable resources : string -> string.
Variable binary_data : list byte.

(** One iteration of the loop. *)
Lemma scan_S fuel cursor st :
  scan resources (S fuel) binary_data cursor st
  = if cursor <? Buffer_length binary_data then
      match read_entry binary_data cursor with
      | Throw e => (Throw e, st)
      | Ok None => (Ok tt, st)
      | Ok (Some (entryId, payloadBytes, cursor')) =>
          match process_entry resources entryId payloadBytes st with
          | (Ok _, st') => scan resources fuel binary_data cursor' st'
          | (Throw e, st') => (Throw e, st')
          end
      end
    else (Ok tt, st).
Proof.
  simpl. destruct (cursor <? Buffer_length binary_data); [|reflexivity]. run_M.
  destruct (read_entry binary_data cursor) as [[[[entryId payloadBytes] cursor']|]|e];
    try reflexivity.
Qed.

(** The iteration bound of [scan] is never reached: two bounds that cover
    the bytes left give the same result. *)
Lemma scan_fuel_irrelevant fuel1 fuel2 cursor st :
  0 <= cursor ->
  Buffer_length binary_data - cursor <= Z.of_nat fuel1 ->
  Buffer_length binary_data - cursor <= Z.of_nat fuel2 ->
  scan resources fuel1 binary_data cursor st = scan resources fuel2 binary_data cursor st.
Proof.
  revert fuel2 cursor st. induction fuel1 as [|fuel1 IH]; intros fuel2 cursor st Hc H1 H2.
  - destruct fuel2; simpl; destruct (Z.ltb_spec cursor (Buffer_length binary_data));
      try reflexivity; lia.
  - destruct fuel2 as [|fuel2];
      [simpl; destruct (Z.ltb_spec cursor (Buffer_length binary_data)); [lia|reflexivity]|].
    rewrite !scan_S.
    destruct (Z.ltb_spec cursor (Buffer_length binary_data)); [|reflexivity].
    destruct (read_entry binary_data cursor) as [[[[entryId payloadBytes] cursor']|]|e] eqn:Hr;
      try reflexivity.
    apply read_entry_advance in Hr; [|lia].
    destruct (process_entry resources entryId payloadBytes st) as [[[]|e] st']; [|reflexivity].
    apply IH; lia.
Qed.

Lemma reaches_cursor cursor st :
  reaches resources binary_data cursor st -> 0 <= cursor <= Buffer_length binary_data.
Proof.
  induction 1 as [Hlen|cursor st entryId payloadBytes cursor' st' _ IH Hlt Hr _].
  - lia.
  - apply read_entry_advance in Hr; lia.
Qed.

Lemma reaches_validated cursor st :
  reaches resources binary_data cursor st -> 3 <= Buffer_length binary_data.
Proof. induction 1; assumption. Qed.

(** A scan that reaches a cursor in a state goes on from there. *)
Lemma scan_reaches cursor st :
  reaches resources binary_data cursor st ->
  scan resources (scan_fuel binary_data) binary_data 0 scan_start
  = scan resources (scan_fuel binary_data) binary_data cursor st.
Proof.
  induction 1 as [Hlen|cursor st entryId payloadBytes cursor' st' Hreach IH Hlt Hr Hp];
    [reflexivity|].
  rewrite IH. pose proof (reaches_cursor _ _ Hreach) as Hc.
  assert (Ha := read_entry_advance binary_data cursor _ _ _ (conj (proj1 Hc) Hlt) Hr).
  assert (Hf : Z.of_nat (scan_fuel binary_data) = Buffer_length binary_data) by reflexivity.
  destruct (scan_fuel binary_data) as [|n]; [lia|].
  rewrite (scan_S n cursor st).
  destruct (Z.ltb_spec cursor (Buffer_length binary_data)); [|lia].
  rewrite Hr, Hp. apply scan_fuel_irrelevant; lia.
Qed.

Lemma convert_reaches cursor st :
  reaches resources binary_data cursor st ->
  convert resources binary_data initial_state
  = match scan resources (scan_fuel binary_data) binary_data cursor st with
    | (Ok _, st') => (final_check st', st')
    | (Throw e, st') => (Throw e, st')
    end.
Proof.
  intros Hreach. pose proof (reaches_validated _ _ Hreach) as Hlen. unfold convert.
  destruct (Z.ltb_spec (Buffer_length binary_data) 3); [lia|].
  unfold mbind, M_bind, bind, push, get_state, lift, ret. cbv beta iota.
  change (scan resources (scan_fuel binary_data) binary_data 0 _)
    with (scan resources (scan_fuel binary_data) binary_data 0 scan_start).
  rewrite (scan_reaches _ _ Hreach).
  destruct (scan resources (scan_fuel binary_data) binary_data cursor st) as [[[]|e] st'];
    [|reflexivity].
  unfold final_check. now destruct (recordsProcessed st').
Qed.

Lemma scan_step cursor st :
  0 <= cursor < Buffer_length binary_data ->
  scan resources (scan_fuel binary_data) binary_data cursor st
  = match read_entry binary_data cursor with
    | Throw e => (Throw e, st)
    | Ok None => (Ok tt, st)
    | Ok (Some (entryId, payloadBytes, cursor')) =>
        match process_entry resources entryId payloadBytes st with
        | (Ok _, st') => scan resources (scan_fuel binary_data) binary_data cursor' st'
        | (Throw e, st') => (Throw e, st')
        end
    end.
Proof.
  intros Hc.
  assert (Hf : Z.of_nat (scan_fuel binary_data) = Buffer_length binary_data) by reflexivity.
  destruct (scan_fuel binary_data) as [|n]; [lia|].
  rewrite (scan_S n cursor st).
  destruct (Z.ltb_spec cursor (Buffer_length binary_data)); [|lia].
  destruct (read_entry binary_data cursor) as [[[[entryId payloadBytes] cursor']|]|e] eqn:Hr;
    try reflexivity.
  apply read_entry_advance in Hr; [|lia].
  destruct (process_entry resources entryId payloadBytes st) as [[[]|e] st']; [|reflexivity].
  apply scan_fuel_irrelevant; lia.
Qed.
End Scan.

(** ** C10: a truncated header *)

(** C10. In an input of at least three bytes, when the scan reaches an entry
    whose header (the control byte, the entry id and the payload length, of
    the widths the control byte declares) runs past the end of the input,
    [parseREVLOG] raises "Not enough data.". *)
Theorem truncated_header_raises resources binary_data cursor st :
  3 <= Buffer_length binary_data ->
  reaches resources binary_data cursor st ->
  cursor < Buffer_length binary_data ->
  Buffer_length binary_data < header_end binary_data cursor ->
  parseREVLOG resources binary_data = Throw (Error "Not enough data.").
Proof.
  intros _ Hreach Hlt Hcut. pose proof (reaches_cursor _ _ _ _ Hreach) as Hc.
  unfold parseREVLOG. rewrite (convert_reaches _ _ _ _ Hreach).
  rewrite scan_step, read_entry_cases by lia.
  destruct (Z.gtb_spec (header_end binary_data cursor) (Buffer_length binary_data));
    [reflexivity|lia].
Qed.

Lemma truncated_header_raises_witness :
  Buffer_length (Buffer_from [3; 5; 0]) < header_end (Buffer_from [3; 5; 0]) 0
  /\ parseREVLOG no_resources (Buffer_from [3; 5; 0]) = Throw (Error "Not enough data.").
Proof.
  split; [reflexivity|].
  apply (truncated_header_raises no_resources (Buffer_from [3; 5; 0]) 0 scan_start).
  - vm_compute. discriminate.
  - apply reaches_start. vm_compute. discriminate.
  - reflexivity.
  - reflexivity.
Defined.

(** C10 fails as stated for an input of fewer than three bytes. In the two
    bytes 03 05 the control byte announces an entry id of four bytes, of which
    the input holds one: the header is truncated, but the input is rejected
    for its size before any header is read, and the error is not
    "Not enough data.". *)
Lemma short_input_truncated_header :
  0 < Buffer_length (Buffer_from [3; 5])
  /\ entryIdLen (control_byte (Buffer_from [3; 5]) 0) = 4
  /\ Buffer_length (Buffer_from [3; 5]) < header_end (Buffer_from [3; 5]) 0
  /\ parseREVLOG no_resources (Buffer_from [3; 5])
     = Throw (Error "REVLOG file is empty or too small to be valid.")
  /\ parseREVLOG no_resources (Buffer_from [3; 5]) <> Throw (Error "Not enough data.").
Proof.
  split; [reflexivity|]. split; [reflexivity|]. split; [reflexivity|].
  split; [vm_compute; reflexivity|]. vm_compute. discriminate.
Qed.

(** ** C6: a payload that overruns the input *)

(** C6, as the code has it. When the scan of an input reaches an entry whose
    header is complete and whose declared payload length exceeds the bytes
    left, the scan ends there without an exception: the conversion ends with
    the final check in the state reached, and its output is what had been
    written before that entry. *)
Theorem truncated_payload_ends_scan resources binary_data cursor st :
  reaches resources binary_data cursor st ->
  cursor < Buffer_length binary_data ->
  header_end binary_data cursor <= Buffer_length binary_data ->
  Buffer_length binary_data
  < header_end binary_data cursor + declared_payloadSize binary_data cursor ->
  convert resources binary_data initial_state = (final_check st, st)
  /\ parseREVLOG resources binary_data
     = match final_check st with
       | Ok _ => Ok (concat (map chunk_bytes (outputChunks st)))
       | Throw e => Throw e
       end.
Proof.
  intros Hreach Hlt Hhead Hcut. pose proof (reaches_cursor _ _ _ _ Hreach) as Hc.
  assert (E : convert resources binary_data initial_state = (final_check st, st)).
  { rewrite (convert_reaches _ _ _ _ Hreach).
    rewrite scan_step, read_entry_cases by lia.
    destruct (Z.gtb_spec (header_end binary_data cursor) (Buffer_length binary_data)); [lia|].
    destruct (Z.gtb_spec (header_end binary_data cursor
                          + declared_payloadSize binary_data cursor)
                         (Buffer_length binary_data)); [reflexivity|lia]. }
  split; [exact E|]. unfold parseREVLOG. rewrite E. now destruct (final_check st) as [[]|].
Qed.

Lemma truncated_payload_ends_scan_witness :
  header_end (Buffer_from [0; 1; 5; 0]) 0 <= Buffer_length (Buffer_from [0; 1; 5; 0])
  /\ Buffer_length (Buffer_from [0; 1; 5; 0])
     < header_end (Buffer_from [0; 1; 5; 0]) 0
       + declared_payloadSize (Buffer_from [0; 1; 5; 0]) 0
  /\ convert no_resources (Buffer_from [0; 1; 5; 0]) initial_state
     = (final_check scan_start, scan_start).
Proof.
  split; [vm_compute; discriminate|]. split; [reflexivity|].
  apply (truncated_payload_ends_scan no_resources (Buffer_from [0; 1; 5; 0]) 0 scan_start).
  - apply reaches_start. vm_compute. discriminate.
  - reflexivity.
  - vm_compute. discriminate.
  - reflexivity.
Defined.

(** C6 fails as stated. The capture of one empty firmware block converts to
    the bare file header; with one more byte after it, or cut inside the
    header of a second entry, the conversion raises "Not enough data.". *)
Lemma trailing_byte_raises :
  parseREVLOG no_resources (Buffer_from [0; 1; 0]) = Ok file_header
  /\ parseREVLOG no_resources (Buffer_from [0; 1; 0; 0]) = Throw (Error "Not enough data.")
  /\ parseREVLOG no_resources (Buffer_from [0; 1; 0; 1; 2; 0]) = Throw (Error "Not enough data.").
Proof. repeat split; vm_compute; reflexivity. Qed.

(** ** C5: inputs without a firmware or periodic block *)

Section NoRecords.
Variable resources : string -> string.
Variable binary_data : list byte.

Lemma process_entry_other entryId payloadBytes st :
  entryId <> 1 -> entryId <> 2 ->
  process_entry resources entryId payloadBytes st = (Ok tt, st).
Proof.
  intros H1 H2. unfold process_entry.
  destruct (Z.eqb_spec entryId 1); [contradiction|].
  destruct (Z.eqb_spec entryId 2); [contradiction|]. reflexivity.
Qed.

(** Without an entry of id 1 or 2 the scan is the framing alone. *)
Lemma scan_frame_entries fuel cursor st :
  Forall (fun e => e.1 <> 1 /\ e.1 <> 2) (frame_entries fuel binary_data cursor).1 ->
  scan resources fuel binary_data cursor st = ((frame_entries fuel binary_data cursor).2, st).
Proof.
  revert cursor st. induction fuel as [|fuel IH]; intros cursor st.
  - simpl. now destruct (cursor <? Buffer_length binary_data).
  - rewrite scan_S. simpl frame_entries.
    destruct (cursor <? Buffer_length binary_data); [|reflexivity].
    destruct (read_entry binary_data cursor) as [[[[entryId payloadBytes] cursor']|]|e];
      try reflexivity.
    specialize (IH cursor' st).
    destruct (frame_entries fuel binary_data cursor') as [es r]. simpl in *.
    intros [[H1 H2] Hes]%Forall_cons.
    rewrite process_entry_other by assumption. now apply IH.
Qed.

(** The framing ends at the end of the input, at a payload that overruns
    it, or at a truncated header. *)
Lemma frame_entries_end fuel cursor :
  0 <= cursor ->
  Buffer_length binary_data - cursor <= Z.of_nat fuel ->
  (frame_entries fuel binary_data cursor).2 = Ok tt
  \/ (frame_entries fuel binary_data cursor).2 = Throw (Error "Not enough data.").
Proof.
  revert cursor. induction fuel as [|fuel IH]; intros cursor Hc Hf; simpl.
  - destruct (Z.ltb_spec cursor (Buffer_length binary_data)); [lia|now left].
  - destruct (Z.ltb_spec cursor (Buffer_length binary_data)); [|now left].
    destruct (read_entry binary_data cursor) as [[[[entryId payloadBytes] cursor']|]|e] eqn:Hr.
    + apply read_entry_advance in Hr; [|lia].
      specialize (IH cursor' ltac:(lia) ltac:(lia)).
      now destruct (frame_entries fuel binary_data cursor').
    + now left.
    + right. simpl. rewrite read_entry_cases in Hr by lia.
      repeat match type of Hr with context [?a >? ?b] => destruct (a >? b) end;
        congruence.
Qed.
End NoRecords.

(** C5, as the code has it. An input shorter than three bytes is rejected by
    the validation of the input. An input of three bytes or more in which the
    scan cuts out no entry of id 1 or 2 is rejected too: with "No valid records
    found." when the framing ends at the end of the input or at a payload that
    overruns it, and with "Not enough data." when it ends at a truncated
    header. *)
Theorem parseREVLOG_rejects resources binary_data :
  (Buffer_length binary_data < 3 ->
   parseREVLOG resources binary_data
   = Throw (Error "REVLOG file is empty or too small to be valid."))
  /\ (3 <= Buffer_length binary_data ->
      Forall (fun e => e.1 <> 1 /\ e.1 <> 2) (framed_entries binary_data) ->
      (framing_end binary_data = Ok tt
       /\ parseREVLOG resources binary_data = Throw (Error "No valid records found."))
      \/ (framing_end binary_data = Throw (Error "Not enough data.")
          /\ parseREVLOG resources binary_data = Throw (Error "Not enough data."))).
Proof.
  split.
  - intros Hlen. unfold parseREVLOG, convert.
    destruct (Z.ltb_spec (Buffer_length binary_data) 3); [reflexivity|lia].
  - intros Hlen Hes. unfold parseREVLOG.
    rewrite (convert_reaches resources binary_data 0 scan_start (reaches_start _ _ Hlen)).
    rewrite (scan_frame_entries resources binary_data _ 0 scan_start Hes).
    fold (framing_end binary_data).
    destruct (frame_entries_end binary_data (scan_fuel binary_data) 0) as [E|E];
      [lia|unfold scan_fuel, Buffer_length; lia| |];
      fold (framing_end binary_data) in E; rewrite E; [left|right]; auto.
Qed.

Lemma parseREVLOG_rejects_witness :
  parseREVLOG no_resources (Buffer_from [0; 1])
  = Throw (Error "REVLOG file is empty or too small to be valid.")
  /\ parseREVLOG no_resources (Buffer_from [0; 3; 0]) = Throw (Error "No valid records found.").
Proof.
  split.
  - apply (proj1 (parseREVLOG_rejects no_resources (Buffer_from [0; 1]))).
    vm_compute. reflexivity.
  - destruct (proj2 (parseREVLOG_rejects no_resources (Buffer_from [0; 3; 0])))
      as [[_ H]|[H _]].
    + vm_compute. discriminate.
    + vm_compute. repeat constructor; discriminate.
    + exact H.
    + vm_compute in H. discriminate.
Defined.

(** C5 fails as stated: in an input of three bytes whose control byte
    announces an entry id of four bytes the scan cuts out no entry at all, and
    the conversion raises "Not enough data.", not "No valid records found.". *)
Lemma truncated_header_is_not_no_records :
  3 <= Buffer_length (Buffer_from [3; 5; 0])
  /\ framed_entries (Buffer_from [3; 5; 0]) = []
  /\ parseREVLOG no_resources (Buffer_from [3; 5; 0]) = Throw (Error "Not enough data.")
  /\ parseREVLOG no_resources (Buffer_from [3; 5; 0])
     <> Throw (Error "No valid records found.").
Proof.
  split; [vm_compute; discriminate|]. split; [reflexivity|].
  split; [vm_compute; reflexivity|]. vm_compute. discriminate.
Qed.

(** * Further properties of the code *)

#[local] Transparent framed control_payload data_payload.

(** ** Integer fields of the target format *)

Lemma byte_to_of_Z z : byte_to_Z (byte_of_Z z) = z mod 256.
Proof.
  unfold byte_to_Z, byte_of_Z.
  pose proof (Z.mod_pos_bound z 256 ltac:(lia)) as Hm.
  destruct (Byte.of_N (Z.to_N (z mod 256))) as [b|] eqn:E.
  - apply Byte.to_of_N in E. rewrite E. lia.
  - apply Byte.of_N_None_iff in E. lia.
Qed.

Lemma byte_of_to_Z b : byte_of_Z (byte_to_Z b) = b.
Proof.
  unfold byte_of_Z, byte_to_Z. pose proof (Byte.to_N_bounded b).
  rewrite Z.mod_small by lia. rewrite N2Z.id, Byte.of_to_N. reflexivity.
Qed.

Lemma length_le_bytes n z : length (le_bytes n z) = n.
Proof. revert z. induction n as [|n IH]; intros z; simpl; [reflexivity|now rewrite IH]. Qed.

Lemma le_value_le_bytes n z : le_value (le_bytes n z) = z mod 256 ^ Z.of_nat n.
Proof.
  revert z. induction n as [|n IH]; intros z.
  - simpl. now rewrite Z.mod_1_r.
  - cbn [le_bytes le_value]. rewrite byte_to_of_Z, IH, Nat2Z.inj_succ, Z.pow_succ_r by lia.
    assert (0 < 256 ^ Z.of_nat n) by (apply Z.pow_pos_nonneg; lia).
    rewrite Z.rem_mul_r by lia. reflexivity.
Qed.

Lemma le_bytes_le_value l : le_bytes (length l) (le_value l) = l.
Proof.
  induction l as [|b l IH]; [reflexivity|]. cbn [length le_value le_bytes].
  pose proof (byte_to_Z_range b) as Hb. f_equal.
  - rewrite <- (byte_of_to_Z b) at 2. unfold byte_of_Z.
    replace ((byte_to_Z b + 256 * le_value l) mod 256) with (byte_to_Z b mod 256); [reflexivity|].
    rewrite Z.mod_small by lia. apply Z.mod_unique_pos with (le_value l); lia.
  - replace ((byte_to_Z b + 256 * le_value l) / 256) with (le_value l); [exact IH|].
    apply Z.div_unique_pos with (byte_to_Z b); lia.
Qed.

Lemma take_le_bytes n m z : (n <= m)%nat -> take n (le_bytes m z) = le_bytes n z.
Proof.
  revert m z. induction n as [|n IH]; intros m z H; [now rewrite take_0|].
  destruct m as [|m]; [lia|]. simpl. f_equal. apply IH. lia.
Qed.

(** A field of at most eight bytes holds the low bytes of the value. *)
Lemma writeVariableInt_Ok value len :
  0 <= value < 2 ^ 64 -> 0 <= len <= 8 ->
  writeVariableInt value len = Ok (le_bytes (Z.to_nat len) value).
Proof.
  intros Hv Hl. unfold writeVariableInt, writeBigUInt64LE.
  destruct (Z.ltb_spec value 0), (Z.geb_spec value (2 ^ 64)); try lia.
  cbn [orb obind]. unfold Buffer_slice. rewrite drop_0, Z.sub_0_r. f_equal.
  apply take_le_bytes. lia.
Qed.

Lemma requiredBytes_range value : 1 <= requiredBytes value <= 4.
Proof. unfold requiredBytes. repeat destruct (_ <=? _); lia. Qed.

Lemma requiredTimestampBytes_range value : 1 <= requiredTimestampBytes value <= 8.
Proof. unfold requiredTimestampBytes. repeat destruct (_ <=? _); lia. Qed.

Lemma requiredTimestampBytes_six value :
  value < 2 ^ 48 -> requiredTimestampBytes value <= 6.
Proof.
  intros H. unfold requiredTimestampBytes.
  repeat match goal with
         | |- context [?a <=? ?b] => destruct (Z.leb_spec a b); [lia|]
         end.
  lia.
Qed.

(** The value fits the width chosen for it, and no narrower one. *)
Lemma requiredBytes_fits value :
  0 <= value <= 0xffffffff ->
  value < 256 ^ requiredBytes value
  /\ (1 < requiredBytes value -> 256 ^ (requiredBytes value - 1) <= value).
Proof.
  intros H. unfold requiredBytes.
  destruct (Z.leb_spec value 0xff); [split; [simpl; lia|lia]|].
  destruct (Z.leb_spec value 0xffff); [split; [simpl; lia|simpl; lia]|].
  destruct (Z.leb_spec value 0xffffff); split; simpl; lia.
Qed.

Lemma requiredTimestampBytes_fits value :
  0 <= value < 2 ^ 64 ->
  value < 256 ^ requiredTimestampBytes value
  /\ (1 < requiredTimestampBytes value -> 256 ^ (requiredTimestampBytes value - 1) <= value).
Proof.
  intros H. unfold requiredTimestampBytes.
  repeat match goal with
         | |- context [?a <=? ?b] => destruct (Z.leb_spec a b); [split; simpl; lia|]
         end.
  split; simpl; lia.
Qed.

(** A width that holds the value gives it back; a narrower one does not. *)
Lemma variable_int_round_trip value width :
  0 <= value < 2 ^ 64 -> 1 <= width <= 8 ->
  value < 256 ^ width ->
  (1 < width -> 256 ^ (width - 1) <= value) ->
  exists field,
    writeVariableInt value width = Ok field
    /\ Buffer_length field = width
    /\ le_value field = value
    /\ forall len shorter,
         1 <= len < width ->
         writeVariableInt value len = Ok shorter -> le_value shorter <> value.
Proof.
  intros Hv Hw Hfit Hmin. exists (le_bytes (Z.to_nat width) value).
  split; [apply writeVariableInt_Ok; lia|].
  split; [unfold Buffer_length; rewrite length_le_bytes; lia|].
  split.
  - rewrite le_value_le_bytes, Z2Nat.id by lia. apply Z.mod_small. lia.
  - intros len shorter Hlen Hs. rewrite writeVariableInt_Ok in Hs by lia.
    injection Hs as <-. rewrite le_value_le_bytes, Z2Nat.id by lia.
    assert (0 < 256 ^ len) by (apply Z.pow_pos_nonneg; lia).
    pose proof (Z.mod_pos_bound value (256 ^ len) ltac:(lia)).
    assert (256 ^ len <= 256 ^ (width - 1)) by (apply Z.pow_le_mono_r; lia).
    lia.
Qed.

(** X1. [requiredBytes] picks the shortest field that holds an unsigned
    32-bit value: written with [writeVariableInt] on that width, the value
    reads back from the field, the field has that many bytes, and on any
    shorter width of one byte or more the field reads back as another value. *)
Theorem requiredBytes_shortest_lossless value :
  0 <= value <= 0xffffffff ->
  exists field,
    writeVariableInt value (requiredBytes value) = Ok field
    /\ Buffer_length field = requiredBytes value
    /\ le_value field = value
    /\ forall len shorter,
         1 <= len < requiredBytes value ->
         writeVariableInt value len = Ok shorter -> le_value shorter <> value.
Proof.
  intros H. pose proof (requiredBytes_range value).
  destruct (requiredBytes_fits value H).
  apply variable_int_round_trip; auto; lia.
Qed.

Lemma requiredBytes_shortest_lossless_witness :
  exists field,
    writeVariableInt 70000 (requiredBytes 70000) = Ok field
    /\ Buffer_length field = requiredBytes 70000
    /\ le_value field = 70000
    /\ forall len shorter,
         1 <= len < requiredBytes 70000 ->
         writeVariableInt 70000 len = Ok shorter -> le_value shorter <> 70000.
Proof. apply (requiredBytes_shortest_lossless 70000). lia. Defined.

(** X2. [requiredTimestampBytes] picks the shortest field that holds an
    unsigned 64-bit timestamp: the value reads back from the field that
    [writeVariableInt] writes on that width, and from no shorter one of one
    byte or more. *)
Theorem requiredTimestampBytes_shortest_lossless value :
  0 <= value < 2 ^ 64 ->
  exists field,
    writeVariableInt value (requiredTimestampBytes value) = Ok field
    /\ Buffer_length field = requiredTimestampBytes value
    /\ le_value field = value
    /\ forall len shorter,
         1 <= len < requiredTimestampBytes value ->
         writeVariableInt value len = Ok shorter -> le_value shorter <> value.
Proof.
  intros H. pose proof (requiredTimestampBytes_range value).
  destruct (requiredTimestampBytes_fits value H).
  apply variable_int_round_trip; auto; lia.
Qed.

Lemma requiredTimestampBytes_shortest_lossless_witness :
  exists field,
    writeVariableInt 5000000000 (requiredTimestampBytes 5000000000) = Ok field
    /\ Buffer_length field = requiredTimestampBytes 5000000000
    /\ le_value field = 5000000000
    /\ forall len shorter,
         1 <= len < requiredTimestampBytes 5000000000 ->
         writeVariableInt 5000000000 len = Ok shorter -> le_value shorter <> 5000000000.
Proof. apply (requiredTimestampBytes_shortest_lossless 5000000000). lia. Defined.

(** ** The framing of a record reads back *)

Lemma Buffer_slice_at (pre field post : list byte) from to :
  from = Z.of_nat (length pre) -> to = from + Z.of_nat (length field) ->
  Buffer_slice (pre ++ field ++ post) from to = field.
Proof.
  intros -> ->. unfold Buffer_slice.
  rewrite Nat2Z.id, drop_app_length.
  replace (Z.to_nat (Z.of_nat (length pre) + Z.of_nat (length field) - Z.of_nat (length pre)))
    with (length field) by lia.
  apply take_app_length.
Qed.

Lemma readVariableInt_at (pre field post : list byte) cursor len :
  cursor = Z.of_nat (length pre) -> len = Z.of_nat (length field) -> 1 <= len <= 6 ->
  readVariableInt (pre ++ field ++ post) cursor len = Ok (le_value field, cursor + len).
Proof.
  intros Hc Hl Hlen. rewrite readVariableInt_cases by lia.
  destruct (Z.gtb_spec (cursor + len) (Buffer_length (pre ++ field ++ post))) as [H|H].
  - unfold Buffer_length in H. rewrite !length_app in H. lia.
  - rewrite (Buffer_slice_at pre field post) by lia. reflexivity.
Qed.

(** The three widths packed into a control byte come apart again. *)
Lemma bitfield_fields a b c :
  0 <= a <= 3 -> 0 <= b <= 3 -> 0 <= c <= 7 ->
  let bitfield := js_or (js_or a (js_shl b 2)) (js_shl c 4) in
  0 <= bitfield < 256
  /\ entryIdLen bitfield = a + 1
  /\ sizeLen bitfield = b + 1
  /\ timestampLen bitfield = c + 1.
Proof.
  intros Ha Hb Hc.
  assert (a = 0 \/ a = 1 \/ a = 2 \/ a = 3) as Ea by lia.
  assert (b = 0 \/ b = 1 \/ b = 2 \/ b = 3) as Eb by lia.
  assert (c = 0 \/ c = 1 \/ c = 2 \/ c = 3 \/ c = 4 \/ c = 5 \/ c = 6 \/ c = 7) as Ec by lia.
  clear Ha Hb Hc.
  repeat match goal with H : _ \/ _ |- _ => destruct H as [H|H] end; subst;
    vm_compute; repeat split; congruence.
Qed.

Lemma framed_layout id payload timestampUs :
  0 <= id <= 0xffffffff -> Buffer_length payload <= 0xffffffff ->
  0 <= timestampUs < 2 ^ 64 ->
  exists bitfield b_id b_size b_ts,
    framed id payload timestampUs
    = Ok ([byte_of_Z bitfield] ++ b_id ++ b_size ++ b_ts ++ payload)%list
    /\ 0 <= bitfield < 256
    /\ Buffer_length b_id = entryIdLen bitfield /\ le_value b_id = id
    /\ Buffer_length b_size = sizeLen bitfield /\ le_value b_size = Buffer_length payload
    /\ Buffer_length b_ts = timestampLen bitfield /\ le_value b_ts = timestampUs
    /\ timestampLen bitfield = requiredTimestampBytes timestampUs.
Proof.
  intros Hid Hp Hts.
  assert (0 <= Buffer_length payload) by (unfold Buffer_length; lia).
  pose proof (requiredBytes_range id) as Ri.
  pose proof (requiredBytes_range (Buffer_length payload)) as Rp.
  pose proof (requiredTimestampBytes_range timestampUs) as Rt.
  destruct (requiredBytes_fits id Hid) as [Fi _].
  destruct (requiredBytes_fits (Buffer_length payload) ltac:(lia)) as [Fp _].
  destruct (requiredTimestampBytes_fits timestampUs Hts) as [Ft _].
  destruct (bitfield_fields (requiredBytes id - 1) (requiredBytes (Buffer_length payload) - 1)
              (requiredTimestampBytes timestampUs - 1) ltac:(lia) ltac:(lia) ltac:(lia))
    as (Hb & Hb1 & Hb2 & Hb3).
  unfold framed. rewrite !writeVariableInt_Ok by lia. cbn [mbind outcome_bind obind].
  set (bitfield := js_or _ _) in *.
  exists bitfield. eexists _, _, _. split; [reflexivity|].
  rewrite Hb1, Hb2, Hb3.
  unfold length_field. generalize dependent (Buffer_length payload). intros size; intros.
  unfold Buffer_length. rewrite !length_le_bytes, !le_value_le_bytes.
  rewrite !Z2Nat.id by lia. rewrite !Z.mod_small by lia.
  repeat split; lia.
Qed.

(** X3. The framing that [writeRecord] and [writeControlRecord] put in front
    of a payload reads back with [readVariableInt], for a timestamp below 2^48,
    whose field is at most six bytes wide, the widest that [readUIntLE] reads:
    with the field widths that the control byte declares, the header yields
    the entry id, the payload size and the timestamp that were written, and
    the payload follows and ends the record. *)
Theorem framed_reads_back id payload timestampUs :
  0 <= id <= 0xffffffff -> Buffer_length payload <= 0xffffffff ->
  0 <= timestampUs < 2 ^ 48 ->
  exists record,
    framed id payload timestampUs = Ok record
    /\ let bitfield := control_byte record 0 in
       let c1 := 1 + entryIdLen bitfield in
       let c2 := c1 + sizeLen bitfield in
       let c3 := c2 + timestampLen bitfield in
       readVariableInt record 1 (entryIdLen bitfield) = Ok (id, c1)
       /\ readVariableInt record c1 (sizeLen bitfield) = Ok (Buffer_length payload, c2)
       /\ readVariableInt record c2 (timestampLen bitfield) = Ok (timestampUs, c3)
       /\ Buffer_slice record c3 (c3 + Buffer_length payload) = payload
       /\ Buffer_length record = c3 + Buffer_length payload.
Proof.
  intros Hid Hp Hts.
  destruct (framed_layout id payload timestampUs Hid Hp ltac:(lia))
    as (bitfield & b_id & b_size & b_ts & -> & Hb & Li & Vi & Ls & Vs & Lt & Vt & Wt).
  pose proof (entryIdLen_bounds bitfield). pose proof (sizeLen_bounds bitfield).
  pose proof (requiredTimestampBytes_range timestampUs).
  pose proof (requiredTimestampBytes_six timestampUs ltac:(lia)).
  eexists. split; [reflexivity|].
  assert (Hcb : control_byte ([byte_of_Z bitfield] ++ b_id ++ b_size ++ b_ts ++ payload) 0
                = bitfield).
  { unfold control_byte. simpl. rewrite byte_to_of_Z. apply Z.mod_small. lia. }
  rewrite Hcb. cbv zeta. unfold Buffer_length in *.
  split; [|split; [|split; [|split]]].
  - rewrite (readVariableInt_at [byte_of_Z bitfield] b_id) by (simpl; lia). now rewrite Vi.
  - rewrite (app_assoc [byte_of_Z bitfield] b_id).
    rewrite (readVariableInt_at ([byte_of_Z bitfield] ++ b_id) b_size)
      by (rewrite ?length_app; simpl; lia).
    now rewrite Vs.
  - rewrite (app_assoc [byte_of_Z bitfield] b_id), (app_assoc _ b_size).
    rewrite (readVariableInt_at (([byte_of_Z bitfield] ++ b_id) ++ b_size) b_ts)
      by (rewrite ?length_app; simpl; lia).
    now rewrite Vt.
  - rewrite (app_assoc [byte_of_Z bitfield] b_id), (app_assoc _ b_size), (app_assoc _ b_ts).
    rewrite <- (app_nil_r payload) at 1.
    apply Buffer_slice_at; rewrite ?length_app; simpl; lia.
  - rewrite !length_app. simpl. lia.
Qed.

Lemma framed_reads_back_witness :
  exists record,
    framed 3 (Buffer_from [1; 2]) 1000000 = Ok record
    /\ let bitfield := control_byte record 0 in
       let c1 := 1 + entryIdLen bitfield in
       let c2 := c1 + sizeLen bitfield in
       let c3 := c2 + timestampLen bitfield in
       readVariableInt record 1 (entryIdLen bitfield) = Ok (3, c1)
       /\ readVariableInt record c1 (sizeLen bitfield)
          = Ok (Buffer_length (Buffer_from [1; 2]), c2)
       /\ readVariableInt record c2 (timestampLen bitfield) = Ok (1000000, c3)
       /\ Buffer_slice record c3 (c3 + Buffer_length (Buffer_from [1; 2])) = Buffer_from [1; 2]
       /\ Buffer_length record = c3 + Buffer_length (Buffer_from [1; 2]).
Proof.
  apply (framed_reads_back 3 (Buffer_from [1; 2]) 1000000); [lia|vm_compute; discriminate|lia].
Defined.

(** ** When the decoder raises *)

Lemma padded_payload_length message data :
  Buffer_length (padded_payload message data)
  = Z.max (Buffer_length data) (Z.max (msg_dlc message) 8).
Proof.
  unfold padded_payload. cbv zeta.
  destruct (Z.ltb_spec (Buffer_length data) (Z.max (msg_dlc message) 8)); [|lia].
  unfold Buffer_length, Buffer_alloc in *. rewrite length_app, length_replicate. lia.
Qed.

Lemma readBigUInt64LE_padded message data :
  exists w, readBigUInt64LE (padded_payload message data) 0 = Ok w.
Proof.
  unfold readBigUInt64LE, read_field. pose proof (padded_payload_length message data).
  destruct (Z.gtb_spec (0 + 8) (Buffer_length (padded_payload message data))); [lia|].
  simpl. eauto.
Qed.

(** The three ways the body of the loop over the signals ends. *)
Lemma decode_signal_cases data w signal :
  decode_signal data w signal
  = match sig_dataType signal with
    | DT_int =>
        if sig_isLittleEndian signal then
          if num_eq (sig_factor signal) num_one && num_eq (sig_offset signal) num_zero
          then Ok {| bs_signal := signal;
                     bs_value := VBigInt (extract_raw w signal);
                     bs_rawValue := VBigInt (extract_raw w signal) |}
          else Ok {| bs_signal := signal;
                     bs_value :=
                       clamp signal
                         (VNumber (num_add (num_mul (Number_of_Z (extract_raw w signal))
                                                    (sig_factor signal))
                                           (sig_offset signal)));
                     bs_rawValue := VBigInt (extract_raw w signal) |}
        else Ok {| bs_signal := signal;
                   bs_value := clamp signal (VNumber num_zero);
                   bs_rawValue := VNumber num_zero |}
    | _ =>
        if float_fits data signal
        then Ok {| bs_signal := signal;
                   bs_value := clamp signal (VNumber (float_read data signal));
                   bs_rawValue := VNumber (float_read data signal) |}
        else Throw (RangeError "ERR_OUT_OF_RANGE")
    end.
Proof.
  unfold decode_signal.
  assert (Hfloat :
    sig_dataType signal <> DT_int ->
    (if match sig_dataType signal with DT_double => true | _ => sig_length signal =? 64 end
     then readDoubleLE data (sig_startBit signal / 8)
     else readFloatLE data (sig_startBit signal / 8))
    = if float_fits data signal then Ok (float_read data signal)
      else Throw (RangeError "ERR_OUT_OF_RANGE")).
  { intros Hdt. unfold float_fits, float_read, float_width, readDoubleLE, readFloatLE, read_field.
    destruct (sig_dataType signal); [congruence| |].
    - destruct (sig_length signal =? 64); cbv zeta;
        destruct (Z.leb_spec 0 (sig_startBit signal / 8)),
                 (Z.ltb_spec (sig_startBit signal / 8) 0),
                 (Z.leb_spec (sig_startBit signal / 8 + 8) (Buffer_length data)),
                 (Z.gtb_spec (sig_startBit signal / 8 + 8) (Buffer_length data)),
                 (Z.leb_spec (sig_startBit signal / 8 + 4) (Buffer_length data)),
                 (Z.gtb_spec (sig_startBit signal / 8 + 4) (Buffer_length data));
        try lia; reflexivity.
    - cbv zeta.
      destruct (Z.leb_spec 0 (sig_startBit signal / 8)),
               (Z.ltb_spec (sig_startBit signal / 8) 0),
               (Z.leb_spec (sig_startBit signal / 8 + 8) (Buffer_length data)),
               (Z.gtb_spec (sig_startBit signal / 8 + 8) (Buffer_length data));
        try lia; reflexivity. }
  destruct (sig_dataType signal) eqn:Hdt.
  - destruct (sig_isLittleEndian signal).
    + destruct (num_eq (sig_factor signal) num_one && num_eq (sig_offset signal) num_zero);
        reflexivity.
    + cbv zeta. now destruct ((Z.rem (sig_startBit signal) 8 =? 7) && (sig_length signal =? 16)).
  - cbv zeta. rewrite Hfloat by discriminate. now destruct (float_fits data signal).
  - cbv zeta. rewrite Hfloat by discriminate. now destruct (float_fits data signal).
Qed.

Lemma decode_signal_fits data w signal :
  float_fits data signal = true -> exists b, decode_signal data w signal = Ok b.
Proof.
  intros H. rewrite decode_signal_cases.
  destruct (sig_dataType signal); rewrite ?H; eauto.
  destruct (sig_isLittleEndian signal); [|eauto].
  destruct (_ && _); eauto.
Qed.

Lemma decode_signal_does_not_fit data w signal :
  float_fits data signal = false ->
  decode_signal data w signal = Throw (RangeError "ERR_OUT_OF_RANGE").
Proof.
  intros H. rewrite decode_signal_cases. unfold float_fits in H.
  destruct (sig_dataType signal) eqn:Hdt; [discriminate| |];
    unfold float_fits; rewrite Hdt, H; reflexivity.
Qed.

Lemma decode_signals_cases data w sigs bound :
  if forallb (float_fits data) sigs
  then exists out, decode_signals data w sigs bound = Ok out
  else decode_signals data w sigs bound = Throw (RangeError "ERR_OUT_OF_RANGE").
Proof.
  revert bound. induction sigs as [|s sigs IH]; intros bound; simpl; [eauto|].
  destruct (float_fits data s) eqn:Hs; simpl.
  - destruct (decode_signal_fits data w s Hs) as [b ->]. simpl. apply IH.
  - now rewrite decode_signal_does_not_fit.
Qed.

(** X4. For a message of at most 64 bytes whose signals have at most 64 bits
    and start below bit 512, sizes at which the runtime allocates the padding
    and the bit masks without raising, [decode] raises exactly when a float or
    double signal of the message reads outside the padded payload, and then
    with a [RangeError]; in every other case it returns a decoded message
    with the id and the name of the catalog entry. Such a message of integer
    signals alone never raises. *)
Theorem decode_raises_iff_float_out_of_range db frame message :
  messagesById_get db (frame_id frame) = Some message ->
  frame_sizes message = true ->
  let data := padded_payload message (frame_data frame) in
  if forallb (float_fits data) (Map_values (msg_signals message))
  then exists d, decode (Some db) frame = Ok (Some d)
                 /\ dec_id d = msg_id message /\ dec_name d = msg_name message
  else decode (Some db) frame = Throw (RangeError "ERR_OUT_OF_RANGE").
Proof.
  intros Hm _ data. unfold decode. rewrite Hm. fold data.
  destruct (readBigUInt64LE_padded message (frame_data frame)) as [w Hw]. fold data in Hw.
  rewrite Hw. cbn [obind].
  pose proof (decode_signals_cases data w (Map_values (msg_signals message)) []) as H.
  destruct (forallb (float_fits data) (Map_values (msg_signals message))).
  - destruct H as [out ->]. simpl. eauto.
  - now rewrite H.
Qed.

Lemma decode_raises_iff_float_out_of_range_witness :
  exists d, decode (Some sample_dbc) sample_frame = Ok (Some d)
            /\ dec_id d = msg_id sample_message /\ dec_name d = msg_name sample_message.
Proof.
  apply (decode_raises_iff_float_out_of_range sample_dbc sample_frame sample_message).
  - vm_compute. reflexivity.
  - vm_compute. reflexivity.
Defined.

(** ** Signals the decoder does not read *)

(** X5. A big-endian integer signal is not extracted: whatever the payload
    holds, its raw value is the number 0 and its physical value is 0 put
    through the range clamp; without a declared range it is 0. *)
Theorem decode_big_endian_integer_is_zero db frame d name b :
  decode (Some db) frame = Ok (Some d) ->
  Map_get name (boundSignals d) = Some b ->
  sig_dataType (bs_signal b) = DT_int ->
  sig_isLittleEndian (bs_signal b) = false ->
  bs_rawValue b = VNumber num_zero
  /\ bs_value b = clamp (bs_signal b) (VNumber num_zero)
  /\ (has_range (bs_signal b) = false -> bs_value b = VNumber num_zero).
Proof.
  intros Hd Hg Hdt Hle.
  destruct (decode_bound _ _ _ _ _ Hd Hg) as (message & w & signal & _ & _ & _ & Hs).
  rewrite decode_signal_cases in Hs.
  destruct (sig_dataType signal) eqn:Hdt';
    [|destruct (float_fits _ signal); [injection Hs as <-|discriminate]; simpl in Hdt;
      congruence..].
  destruct (sig_isLittleEndian signal) eqn:Hle'.
  - destruct (_ && _); injection Hs as <-; simpl in Hle; congruence.
  - injection Hs as <-. simpl. split; [reflexivity|]. split; [reflexivity|].
    unfold has_range, clamp. now intros ->.
Qed.

Lemma decode_big_endian_integer_is_zero_witness :
  bs_rawValue (sample_firmware_bound "BUILD") = VNumber num_zero
  /\ bs_value (sample_firmware_bound "BUILD") = clamp (bs_signal (sample_firmware_bound "BUILD")) (VNumber num_zero)
  /\ (has_range (bs_signal (sample_firmware_bound "BUILD")) = false ->
      bs_value (sample_firmware_bound "BUILD") = VNumber num_zero).
Proof.
  apply (decode_big_endian_integer_is_zero (servohubDbc sample_resources)
           (createFrame 201852096 (Buffer_from [2; 5; 0; 42; 0; 0] ++ Buffer_alloc 8))
           sample_firmware_decoded "BUILD");
    vm_compute; reflexivity.
Defined.

(** ** Zero padding *)

Lemma padded_payload_zero_padding message data n :
  0 <= n -> Buffer_length data + n <= Z.max (msg_dlc message) 8 ->
  padded_payload message (data ++ Buffer_alloc n) = padded_payload message data.
Proof.
  intros Hn Hle. unfold padded_payload. cbv zeta.
  assert (Hlen : Buffer_length (data ++ Buffer_alloc n) = Buffer_length data + n).
  { unfold Buffer_length, Buffer_alloc. rewrite length_app, length_replicate. lia. }
  rewrite Hlen.
  destruct (Z.ltb_spec (Buffer_length data + n) (Z.max (msg_dlc message) 8)).
  - destruct (Z.ltb_spec (Buffer_length data) (Z.max (msg_dlc message) 8)); [|lia].
    rewrite <- app_assoc. f_equal. unfold Buffer_alloc. rewrite <- replicate_add.
    f_equal. lia.
  - destruct (Z.ltb_spec (Buffer_length data) (Z.max (msg_dlc message) 8)).
    + do 2 f_equal. lia.
    + replace n with 0 by lia. apply app_nil_r.
Qed.

(** X6. Zero bytes appended to a short frame change nothing: as long as the
    frame stays within the length to which [decode] pads, [max(dlc, 8)], the
    decoding of the longer frame is the decoding of the shorter one. *)
Theorem decode_ignores_zero_padding db id data n message :
  messagesById_get db id = Some message ->
  0 <= n -> Buffer_length data + n <= Z.max (msg_dlc message) 8 ->
  decode (Some db) (createFrame id (data ++ Buffer_alloc n))
  = decode (Some db) (createFrame id data).
Proof.
  intros Hm Hn Hle. unfold decode. simpl. rewrite Hm.
  now rewrite padded_payload_zero_padding.
Qed.

Lemma decode_ignores_zero_padding_witness :
  decode (Some sample_dbc) (createFrame 201328000 (Buffer_from [0; 0; 255] ++ Buffer_alloc 5))
  = decode (Some sample_dbc) (createFrame 201328000 (Buffer_from [0; 0; 255])).
Proof.
  apply (decode_ignores_zero_padding sample_dbc 201328000 (Buffer_from [0; 0; 255]) 5
           sample_message); [vm_compute; reflexivity|lia|vm_compute; discriminate].
Defined.

(** ** From the frame to the data record *)

Lemma bit_field_range padded start len : 0 <= bit_field padded start len < 2 ^ Z.of_nat len.
Proof.
  revert start. induction len as [|len IH]; intros start; [simpl; lia|].
  cbn [bit_field]. rewrite Nat2Z.inj_succ, Z.pow_succ_r by lia.
  specialize (IH (start + 1)). destruct (payload_bit padded start); simpl; lia.
Qed.

Lemma twos_complement_range width u :
  0 < width -> 0 <= u < 2 ^ width ->
  - 2 ^ (width - 1) <= twos_complement width u < 2 ^ (width - 1).
Proof.
  intros Hw Hu. unfold twos_complement.
  assert (Hp : 2 ^ width = 2 * 2 ^ (width - 1)).
  { rewrite <- Z.pow_succ_r by lia. f_equal. lia. }
  assert (0 < 2 ^ (width - 1)) by (apply Z.pow_pos_nonneg; lia).
  destruct (Z.testbit u (width - 1)) eqn:Hb.
  - apply Z.testbit_true in Hb; [|lia].
    assert (u / 2 ^ (width - 1) <> 0) by (intros E; rewrite E in Hb; discriminate).
    assert (2 ^ (width - 1) <= u).
    { destruct (Z_lt_le_dec u (2 ^ (width - 1))); [|assumption].
      rewrite Z.div_small in * by lia. congruence. }
    lia.
  - apply Z.testbit_false in Hb; [|lia].
    assert (u < 2 ^ (width - 1)).
    { destruct (Z_lt_le_dec u (2 ^ (width - 1))); [assumption|].
      assert (u / 2 ^ (width - 1) = 1).
      { symmetry. apply Z.div_unique_pos with (u - 2 ^ (width - 1)); lia. }
      rewrite H0 in Hb. discriminate. }
    lia.
Qed.

(** What [decode] binds for a little-endian integer signal with scale factor
    1 and offset 0. *)
Lemma decode_unscaled db frame message d name b :
  messagesById_get db (frame_id frame) = Some message ->
  decode (Some db) frame = Ok (Some d) ->
  Map_get name (boundSignals d) = Some b ->
  sig_dataType (bs_signal b) = DT_int ->
  sig_isLittleEndian (bs_signal b) = true ->
  num_eq (sig_factor (bs_signal b)) num_one = true ->
  num_eq (sig_offset (bs_signal b)) num_zero = true ->
  0 <= sig_length (bs_signal b) ->
  bs_value b
  = VBigInt (let field :=
               bit_field (padded_payload message (frame_data frame))
                         (sig_startBit (bs_signal b)) (Z.to_nat (sig_length (bs_signal b))) in
             if sig_isSigned (bs_signal b)
             then twos_complement (sig_length (bs_signal b)) field
             else field).
Proof.
  intros Hm Hd Hg Hdt Hle Hf Ho Hlen.
  destruct (decode_bound _ _ _ _ _ Hd Hg) as (message' & w & signal & Hm' & Hw & _ & Hs).
  assert (message' = message) as -> by congruence.
  destruct (decode_signal_inv _ _ _ _ Hs) as [Hsig _].
  rewrite decode_signal_cases in Hs.
  rewrite Hsig in *. rewrite Hdt, Hle, Hf, Ho in Hs. simpl in Hs. injection Hs as <-.
  simpl. f_equal. now apply extract_raw_spec.
Qed.

Lemma twos_complement_mod width v :
  0 < width -> - 2 ^ (width - 1) <= v < 2 ^ (width - 1) ->
  twos_complement width (v mod 2 ^ width) = v.
Proof.
  intros Hw Hv.
  assert (Hp : 2 ^ width = 2 * 2 ^ (width - 1)).
  { rewrite <- Z.pow_succ_r by lia. f_equal. lia. }
  assert (0 < 2 ^ (width - 1)) by (apply Z.pow_pos_nonneg; lia).
  pose proof (Z.mod_pos_bound v (2 ^ width) ltac:(lia)) as Hm.
  pose proof (twos_complement_range width (v mod 2 ^ width) Hw Hm) as Hr.
  assert (Hcase : v mod 2 ^ width = if v <? 0 then v + 2 ^ width else v).
  { destruct (Z.ltb_spec v 0); symmetry.
    - apply Z.mod_unique_pos with (-1); lia.
    - apply Z.mod_unique_pos with 0; lia. }
  unfold twos_complement in *.
  destruct (Z.testbit (v mod 2 ^ width) (width - 1)), (Z.ltb_spec v 0); lia.
Qed.

(** X7. An integer signal with scale factor 1 and offset 0 reaches the data
    record exactly: its stream type is int64 and the payload is the eight
    bytes that read back, as a signed 64-bit little-endian integer, as the bit
    field of the frame (in two's complement on the signal's width when the
    signal is signed). The zero written on an encoding failure never occurs
    for a signed signal of up to 64 bits or an unsigned one of up to 63. *)
Theorem integer_signal_written_exactly db frame message d name b :
  messagesById_get db (frame_id frame) = Some message ->
  decode (Some db) frame = Ok (Some d) ->
  Map_get name (boundSignals d) = Some b ->
  sig_dataType (bs_signal b) = DT_int ->
  sig_isLittleEndian (bs_signal b) = true ->
  num_eq (sig_factor (bs_signal b)) num_one = true ->
  num_eq (sig_offset (bs_signal b)) num_zero = true ->
  1 < sig_length (bs_signal b) <= 64 ->
  (sig_isSigned (bs_signal b) = false -> sig_length (bs_signal b) <= 63) ->
  let field :=
    bit_field (padded_payload message (frame_data frame))
              (sig_startBit (bs_signal b)) (Z.to_nat (sig_length (bs_signal b))) in
  let value :=
    if sig_isSigned (bs_signal b)
    then twos_complement (sig_length (bs_signal b)) field else field in
  getWpilogTypeFromSignal (bs_signal b) = "int64"
  /\ exists payload,
       data_payload "int64" (bs_value b) = Some payload
       /\ Buffer_length payload = 8
       /\ twos_complement 64 (le_value payload) = value.
Proof.
  intros Hm Hd Hg Hdt Hle Hf Ho Hlen Hu field value.
  assert (Hval : bs_value b = VBigInt value)
    by (apply (decode_unscaled _ _ _ _ _ _ Hm Hd Hg Hdt Hle Hf Ho); lia).
  rewrite Hval. split.
  - unfold getWpilogTypeFromSignal. destruct (Z.eqb_spec (sig_length (bs_signal b)) 1); [lia|].
    rewrite Hdt. unfold num_ne. unfold num_eq in Hf. now rewrite Hf.
  - assert (Hv : - 2 ^ 63 <= value < 2 ^ 63).
    { pose proof (bit_field_range (padded_payload message (frame_data frame))
                    (sig_startBit (bs_signal b)) (Z.to_nat (sig_length (bs_signal b)))) as Hr.
      fold field in Hr. rewrite Z2Nat.id in Hr by lia.
      subst value. destruct (sig_isSigned (bs_signal b)).
      - pose proof (twos_complement_range (sig_length (bs_signal b)) field ltac:(lia) Hr) as Ht.
        assert (2 ^ (sig_length (bs_signal b) - 1) <= 2 ^ 63)
          by (apply Z.pow_le_mono_r; lia).
        lia.
      - assert (2 ^ sig_length (bs_signal b) <= 2 ^ 63)
          by (apply Z.pow_le_mono_r; [lia|apply Hu; reflexivity]).
        lia. }
    clearbody value. exists (le_bytes 8 value). split; [|split].
    + rewrite data_payload_int64. cbn [BigInt_of_value obind]. unfold writeBigInt64LE.
      destruct (Z.ltb_spec value (- 2 ^ 63)), (Z.geb_spec value (2 ^ 63)); try lia.
      reflexivity.
    + unfold Buffer_length. now rewrite length_le_bytes.
    + rewrite le_value_le_bytes. change (256 ^ Z.of_nat 8) with (2 ^ 64).
      apply twos_complement_mod; lia.
Qed.

Lemma integer_signal_written_exactly_witness :
  getWpilogTypeFromSignal (bs_signal (sample_bound "COUNT")) = "int64"
  /\ exists payload,
       data_payload "int64" (bs_value (sample_bound "COUNT")) = Some payload
       /\ Buffer_length payload = 8
       /\ twos_complement 64 (le_value payload) = 255.
Proof.
  apply (integer_signal_written_exactly sample_dbc sample_frame sample_message
           sample_decoded "COUNT" (sample_bound "COUNT"));
    vm_compute;
    first [reflexivity | split; [reflexivity|discriminate] | intros; discriminate].
Defined.

(** X8. A one-bit integer signal with scale factor 1 and offset 0, signed or
    not, is written to a boolean stream as the byte 1 when its bit is set in
    the frame and as the byte 0 when it is clear. *)
Theorem one_bit_signal_written_as_boolean db frame message d name b :
  messagesById_get db (frame_id frame) = Some message ->
  decode (Some db) frame = Ok (Some d) ->
  Map_get name (boundSignals d) = Some b ->
  sig_dataType (bs_signal b) = DT_int ->
  sig_isLittleEndian (bs_signal b) = true ->
  num_eq (sig_factor (bs_signal b)) num_one = true ->
  num_eq (sig_offset (bs_signal b)) num_zero = true ->
  sig_length (bs_signal b) = 1 ->
  getWpilogTypeFromSignal (bs_signal b) = "boolean"
  /\ data_payload "boolean" (bs_value b)
     = Some (Buffer_from
               [Z.b2z (payload_bit (padded_payload message (frame_data frame))
                                   (sig_startBit (bs_signal b)))]).
Proof.
  intros Hm Hd Hg Hdt Hle Hf Ho Hlen.
  rewrite (decode_unscaled _ _ _ _ _ _ Hm Hd Hg Hdt Hle Hf Ho) by lia.
  split.
  - unfold getWpilogTypeFromSignal. now rewrite Hlen.
  - rewrite Hlen. change (Z.to_nat 1) with 1%nat. cbn [bit_field].
    destruct (payload_bit _ _); destruct (sig_isSigned (bs_signal b)); reflexivity.
Qed.

Lemma one_bit_signal_written_as_boolean_witness :
  getWpilogTypeFromSignal (bs_signal (sample_bound "HARD_FAULT")) = "boolean"
  /\ data_payload "boolean" (bs_value (sample_bound "HARD_FAULT"))
     = Some (Buffer_from
               [Z.b2z (payload_bit (padded_payload sample_message (frame_data sample_frame))
                                   (sig_startBit (bs_signal (sample_bound "HARD_FAULT"))))]).
Proof.
  apply (one_bit_signal_written_as_boolean sample_dbc sample_frame sample_message
           sample_decoded "HARD_FAULT" (sample_bound "HARD_FAULT"));
    vm_compute; reflexivity.
Defined.

(** ** Doubles pass through bit for bit *)

(** The three fields of a 64-bit pattern. *)
Lemma double_fields w :
  0 <= w < 2 ^ 64 ->
  let e := Z.land (Z.shiftr w 52) 0x7ff in
  let m := Z.land w (2 ^ 52 - 1) in
  0 <= e < 2 ^ 11 /\ 0 <= m < 2 ^ 52
  /\ w = (if Z.testbit w 63 then 2 ^ 63 else 0) + e * 2 ^ 52 + m.
Proof.
  intros Hw e m. subst e m.
  change 0x7ff with (Z.ones 11). change (2 ^ 52 - 1) with (Z.ones 52).
  rewrite !Z.land_ones, Z.shiftr_div_pow2 by lia.
  pose proof (Z.mod_pos_bound (w / 2 ^ 52) (2 ^ 11) ltac:(lia)).
  pose proof (Z.mod_pos_bound w (2 ^ 52) ltac:(lia)).
  split; [lia|]. split; [lia|].
  pose proof (Z.div_mod w (2 ^ 52) ltac:(lia)) as H1.
  pose proof (Z.div_mod (w / 2 ^ 52) (2 ^ 11) ltac:(lia)) as H2.
  rewrite Z.div_div in H2 by lia. change (2 ^ 52 * 2 ^ 11) with (2 ^ 63) in H2.
  assert (Hq : 0 <= w / 2 ^ 63 < 2).
  { split; [apply Z.div_pos; lia|apply Z.div_lt_upper_bound; lia]. }
  assert (Hs : Z.testbit w 63 = (w / 2 ^ 63 =? 1)).
  { rewrite Z.testbit_eqb by lia.
    assert (w / 2 ^ 63 = 0 \/ w / 2 ^ 63 = 1) as [->| ->] by lia; reflexivity. }
  rewrite Hs. destruct (Z.eqb_spec (w / 2 ^ 63) 1); lia.
Qed.

Lemma bits_of_double_of_bits w :
  0 <= w < 2 ^ 64 -> is_nan (double_of_bits w) = false ->
  bits_of_double (double_of_bits w) = w.
Proof.
  intros Hw. destruct (double_fields w Hw) as (He & Hm & Hsum). revert Hsum.
  unfold double_of_bits. cbv zeta.
  set (e := Z.land (Z.shiftr w 52) 0x7ff) in *.
  set (m := Z.land w (2 ^ 52 - 1)) in *.
  set (s := Z.testbit w 63).
  intros Hsum.
  destruct (Z.eqb_spec e 0) as [E0|E0].
  - destruct m as [|p|p] eqn:Em; intros _; unfold bits_of_double.
    + lia.
    + destruct (Z.geb_spec (Z.pos p) (2 ^ 52)); lia.
    + lia.
  - destruct (Z.eqb_spec e 0x7ff) as [E1|E1].
    + destruct (Z.eqb_spec m 0); [|discriminate]. intros _. unfold bits_of_double. lia.
    + destruct (m + 2 ^ 52) as [|p|p] eqn:Ep; try discriminate. intros _.
      unfold bits_of_double.
      destruct (Z.geb_spec (Z.pos p) (2 ^ 52)); lia.
Qed.

Lemma Buffer_slice_length data from to :
  0 <= from -> from <= to -> to <= Buffer_length data ->
  Buffer_length (Buffer_slice data from to) = to - from.
Proof.
  intros H1 H2 H3. unfold Buffer_slice, Buffer_length in *.
  rewrite length_take, length_drop. lia.
Qed.

(** X9. A double signal without a declared range reaches the data record
    bit for bit: its stream type is double and, unless the eight bytes it
    reads are the pattern of a NaN, the payload written is those eight bytes
    of the padded frame. *)
Theorem double_signal_written_bit_for_bit db frame message d name b :
  messagesById_get db (frame_id frame) = Some message ->
  decode (Some db) frame = Ok (Some d) ->
  Map_get name (boundSignals d) = Some b ->
  sig_dataType (bs_signal b) = DT_double ->
  sig_length (bs_signal b) <> 1 ->
  has_range (bs_signal b) = false ->
  let byteOffset := sig_startBit (bs_signal b) / 8 in
  let bytes :=
    Buffer_slice (padded_payload message (frame_data frame)) byteOffset (byteOffset + 8) in
  is_nan (double_of_bits (le_value bytes)) = false ->
  getWpilogTypeFromSignal (bs_signal b) = "double"
  /\ data_payload "double" (bs_value b) = Some bytes.
Proof.
  intros Hm Hd Hg Hdt Hlen Hr byteOffset bytes Hnan. subst byteOffset bytes.
  destruct (decode_bound _ _ _ _ _ Hd Hg) as (message' & w & signal & Hm' & Hw & _ & Hs).
  assert (message' = message) as -> by congruence.
  destruct (decode_signal_inv _ _ _ _ Hs) as [Hsig _].
  rewrite decode_signal_cases in Hs. rewrite Hsig in *. rewrite Hdt in Hs.
  destruct (float_fits _ signal) eqn:Hfit; [|discriminate].
  assert (Hval : bs_value b
                 = clamp signal (VNumber (float_read (padded_payload message (frame_data frame))
                                                     signal)))
    by (injection Hs as <-; reflexivity).
  clear Hs. rewrite Hval.
  set (byteOffset := sig_startBit signal / 8) in *.
  set (bytes := Buffer_slice _ byteOffset (byteOffset + 8)) in *.
  split.
  - unfold getWpilogTypeFromSignal. destruct (Z.eqb_spec (sig_length signal) 1); [lia|].
    rewrite Hdt. now rewrite andb_false_r.
  - unfold clamp. unfold has_range in Hr. rewrite Hr.
    unfold float_read, float_width. rewrite Hdt. cbv beta iota zeta.
    change (8 =? 8) with true. cbv iota.
    fold byteOffset. fold bytes.
    unfold float_fits, float_width in Hfit. rewrite Hdt in Hfit. cbv beta iota zeta in Hfit.
    fold byteOffset in Hfit.
    apply andb_true_iff in Hfit as [H0 H8]. apply Z.leb_le in H0, H8.
    assert (Hl : Buffer_length bytes = 8).
    { subst bytes. rewrite Buffer_slice_length; lia. }
    change (data_payload "double" (VNumber (double_of_bits (le_value bytes))))
      with (Some (le_bytes 8 (bits_of_double (double_of_bits (le_value bytes))))).
    f_equal. rewrite bits_of_double_of_bits.
    + unfold Buffer_length in Hl. rewrite <- (le_bytes_le_value bytes) at 2.
      f_equal. lia.
    + pose proof (le_value_bound bytes) as Hb. unfold Buffer_length in Hl.
      rewrite Hl in Hb. change (256 ^ 8) with (2 ^ 64) in Hb. exact Hb.
    + exact Hnan.
Qed.

Lemma double_signal_written_bit_for_bit_witness :
  getWpilogTypeFromSignal (bs_signal sample_double_bound) = "double"
  /\ data_payload "double" (bs_value sample_double_bound)
     = Some (Buffer_from [0; 0; 0; 0; 0; 0; 0xf8; 0x3f]).
Proof.
  apply (double_signal_written_bit_for_bit sample_double_dbc sample_double_frame
           sample_double_message sample_double_decoded "POSITION" sample_double_bound);
    vm_compute; first [reflexivity | discriminate].
Defined.

(** ** The catalog that [Dbc.load] builds *)

Section JsMapMoreFacts.
Context {K V : Type} `{EqDecision K}.

Lemma Map_get_update (k k' : K) (f : V -> V) (m : list (K * V)) :
  Map_get k' (Map_update k f m)
  = if decide (k = k') then f <$> Map_get k' m else Map_get k' m.
Proof.
  induction m as [|[k0 v0] m IH]; simpl.
  - now destruct (decide (k = k')).
  - destruct (decide (k0 = k)) as [->|Hne]; simpl.
    + destruct (decide (k = k')); reflexivity.
    + destruct (decide (k0 = k')) as [->|Hne'].
      * destruct (decide (k = k')); [congruence|reflexivity].
      * apply IH.
Qed.
End JsMapMoreFacts.

Lemma deref_mutate dbc r f r' :
  deref (mutate dbc r f) r'
  = if decide (r = r') then f <$> deref dbc r' else deref dbc r'.
Proof.
  unfold deref, mutate. simpl. destruct (decide (r = r')) as [->|Hne].
  - apply list_lookup_alter_eq.
  - now apply list_lookup_alter_ne.
Qed.

Lemma catalog_ok_new : catalog_ok new_Dbc.
Proof.
  constructor; simpl.
  - intros name r H. discriminate.
  - intros id r H. rewrite lookup_empty in H. discriminate.
  - intros r m k s H. unfold deref in H. simpl in H. rewrite lookup_nil in H. discriminate.
Qed.

(** A mutation that keeps the name and the id of the message and the names
    of its signals keeps the catalog consistent. *)
Lemma catalog_ok_mutate dbc r f :
  catalog_ok dbc ->
  (forall m, msg_name (f m) = msg_name m /\ msg_id (f m) = msg_id m) ->
  (forall m k s, (forall k' s', Map_get k' (msg_signals m) = Some s' -> sig_name s' = k') ->
                 Map_get k (msg_signals (f m)) = Some s -> sig_name s = k) ->
  catalog_ok (mutate dbc r f).
Proof.
  intros [Hn Hi Hs] Hf Hsig. constructor.
  - intros name r' H. simpl in H. destruct (Hn _ _ H) as (m & Hm & E).
    rewrite deref_mutate. destruct (decide (r = r')); rewrite Hm; simpl; [|eauto].
    exists (f m). split; [reflexivity|]. now rewrite (proj1 (Hf m)).
  - intros id r' H. simpl in H. destruct (Hi _ _ H) as (m & Hm & E).
    rewrite deref_mutate. destruct (decide (r = r')); rewrite Hm; simpl; [|eauto].
    exists (f m). split; [reflexivity|]. now rewrite (proj2 (Hf m)).
  - intros r' m k s H. rewrite deref_mutate in H.
    destruct (decide (r = r')); [|now apply (Hs r' m)].
    destruct (deref dbc r') as [m0|] eqn:Hm0; [|discriminate]. injection H as <-.
    apply Hsig. intros k' s'. now apply (Hs r' m0).
Qed.

Lemma catalog_ok_update_signal dbc id name f :
  catalog_ok dbc -> (forall s, sig_name (f s) = sig_name s) ->
  catalog_ok (update_signal dbc id name f).
Proof.
  intros Hok Hf. unfold update_signal.
  destruct (messagesById dbc !! id) as [r|]; [|assumption].
  apply catalog_ok_mutate; [assumption|now intros []|].
  intros m k s Hm. simpl. rewrite Map_get_update.
  destruct (decide (name = k)) as [->|]; [|apply Hm].
  destruct (Map_get k (msg_signals m)) as [s0|] eqn:E; [|discriminate].
  intros [= <-]. rewrite Hf. now apply Hm.
Qed.

Lemma catalog_ok_load_line dbc cur line :
  catalog_ok dbc -> catalog_ok (load_line (dbc, cur) line).1.
Proof.
  intros Hok. unfold load_line.
  destruct (match_BO line) as [[[[id name] dlc] sender]|].
  { destruct Hok as [Hn Hi Hs]. simpl. constructor; simpl.
    - intros name' r. rewrite Map_get_set.
      destruct (decide (name = name')) as [<-|Hne].
      + intros [= <-]. eexists. split; [apply list_lookup_middle; reflexivity|reflexivity].
      + intros H. destruct (Hn _ _ H) as (m & Hm & E). exists m. split; [|exact E].
        unfold deref in *. simpl. now apply lookup_app_l_Some.
    - intros id' r. destruct (decide (parseInt id = id')) as [<-|Hne].
      + rewrite lookup_insert_eq. intros [= <-].
        eexists. split; [apply list_lookup_middle; reflexivity|reflexivity].
      + rewrite lookup_insert_ne by assumption. intros H.
        destruct (Hi _ _ H) as (m & Hm & E). exists m. split; [|exact E].
        unfold deref in *. simpl. now apply lookup_app_l_Some.
    - intros r m k s H. unfold deref in H. simpl in H.
      apply lookup_app_Some in H as [H|[_ H]]; [now apply (Hs r m)|].
      apply list_lookup_singleton_Some in H as [_ <-]. discriminate. }
  destruct (match_SG line) as [signal|] eqn:Hsg.
  - destruct cur as [cur|].
    + simpl. apply catalog_ok_mutate; [assumption|now intros []|].
      intros m k s Hm. simpl. rewrite Map_get_set.
      destruct (decide (sig_name signal = k)) as [<-|]; [now intros [= <-]|apply Hm].
    + destruct (match_ValType line) as [[[id name] kind]|].
      * simpl. destruct (String.eqb kind "1"), (String.eqb kind "2");
          repeat apply catalog_ok_update_signal; auto.
      * destruct (match_Comment line) as [[[id name] text]|]; [|assumption].
        simpl. apply catalog_ok_update_signal; auto.
  - destruct (match_ValType line) as [[[id name] kind]|].
    + simpl. destruct (String.eqb kind "1"), (String.eqb kind "2");
        repeat apply catalog_ok_update_signal; auto.
    + destruct (match_Comment line) as [[[id name] text]|]; [|assumption].
      simpl. apply catalog_ok_update_signal; auto.
Qed.

Lemma catalog_ok_load_lines lines st :
  catalog_ok st.1 -> catalog_ok (fold_left load_line lines st).1.
Proof.
  revert st. induction lines as [|line lines IH]; intros [dbc cur] H; [exact H|].
  simpl. apply IH. now apply catalog_ok_load_line.
Qed.

(** X10. [Dbc.load] keeps a catalog consistent, whatever the text: every
    reference of the two maps leads to a message, a message found under a
    name has that name, a message found under an id has that id, and every
    signal is stored under its own name. *)
Theorem load_keeps_catalog_consistent this content :
  catalog_ok this -> catalog_ok (load this content).
Proof. intros H. unfold load, load_lines. now apply catalog_ok_load_lines. Qed.

Lemma load_keeps_catalog_consistent_witness : catalog_ok (load new_Dbc sample_servo_hub_dbc).
Proof.
  apply (load_keeps_catalog_consistent new_Dbc sample_servo_hub_dbc).
  constructor; simpl; intros; first [discriminate | rewrite lookup_empty in * | idtac];
    discriminate.
Defined.

(** ** Line by line *)

Lemma split_lines_one_line line rest :
  one_line line -> split_lines (line ++ nl ++ rest) = line :: split_lines rest.
Proof.
  induction line as [|c line IH]; intros H.
  - reflexivity.
  - assert (Hc : is_line_terminator c = false) by (apply H; now left).
    assert (Hl : one_line line) by (intros c' Hc'; apply H; now right).
    change (String c line ++ nl ++ rest) with (String c (line ++ nl ++ rest)).
    cbn [split_lines]. rewrite (IH Hl).
    unfold is_line_terminator in Hc. apply orb_false_iff in Hc as [H10 H13].
    unfold is_char. now rewrite H10, H13.
Qed.

(** A signal line is no other kind of line. *)
Lemma match_SG_exclusive line signal :
  match_SG line = Some signal ->
  match_BO line = None /\ match_ValType line = None /\ match_Comment line = None.
Proof.
  intros H. destruct (match_SG_head _ _ H) as (r & Hr).
  split; [apply (not_BO_of_head _ _ _ _ Hr); discriminate|].
  apply lit_cons in Hr as (s1 & E1 & Hr). apply lit_cons in Hr as (s2 & -> & _).
  unfold match_ValType, match_Comment. rewrite E1. split; reflexivity.
Qed.

Lemma match_ValType_exclusive line x :
  match_ValType line = Some x -> match_BO line = None /\ match_SG line = None.
Proof.
  intros H. destruct (match_ValType_head _ _ H) as (r & Hr). split.
  - apply (not_BO_of_head _ _ _ _ Hr). discriminate.
  - apply (not_SG_of_head _ _ _ _ _ Hr). intros [=].
Qed.

Lemma match_Comment_exclusive line x :
  match_Comment line = Some x ->
  match_BO line = None /\ match_SG line = None /\ match_ValType line = None.
Proof.
  intros H. destruct (match_Comment_head _ _ H) as (r & Hr). split; [|split].
  - apply (not_BO_of_head _ _ _ _ Hr). discriminate.
  - apply (not_SG_of_head _ _ _ _ _ Hr). intros [=].
  - apply lit_cons in Hr as (s1 & E1 & _). unfold match_ValType. rewrite E1. reflexivity.
Qed.

(** X11. A signal line that comes before the first message line is dropped:
    there is no current message to attach it to, and the load ends with the
    catalog it builds from the lines that follow. *)
Theorem signal_before_first_message_dropped this line rest signal :
  match_SG line = Some signal -> one_line line ->
  load this (line ++ nl ++ rest) = load this rest.
Proof.
  intros Hsg Hl. unfold load, load_lines. rewrite split_lines_one_line by assumption.
  cbn [fold_left]. f_equal. f_equal.
  destruct (match_SG_exclusive _ _ Hsg) as (Hbo & Hvt & Hcm).
  unfold load_line. now rewrite Hbo, Hsg, Hvt, Hcm.
Qed.

Lemma signal_before_first_message_dropped_witness :
  load new_Dbc ((" SG_ MAJOR : 0|8@1+ (1,0) [0|255] " ++ quote ++ quote ++ " X")
                ++ nl ++ "BO_ 7 M: 8 X")
  = load new_Dbc "BO_ 7 M: 8 X".
Proof.
  apply (signal_before_first_message_dropped new_Dbc
           (" SG_ MAJOR : 0|8@1+ (1,0) [0|255] " ++ quote ++ quote ++ " X") "BO_ 7 M: 8 X"
           (default zero_factor_signal
              (match_SG (" SG_ MAJOR : 0|8@1+ (1,0) [0|255] " ++ quote ++ quote ++ " X")))).
  - vm_compute. reflexivity.
  - intros c Hc. vm_compute in Hc.
    repeat (destruct Hc as [<-|Hc]; [reflexivity|]). destruct Hc.
Defined.

(** X12. A message line registers its message under its name and under its
    id, with no signals, whatever was registered under them before. *)
Theorem message_line_registers dbc cur line id name dlc sender :
  match_BO line = Some (id, name, dlc, sender) ->
  let dbc' := (load_line (dbc, cur) line).1 in
  let m := {| msg_id := parseInt id; msg_name := name; msg_dlc := parseInt dlc;
              msg_sender := sender; msg_signals := [] |} in
  messages_get dbc' name = Some m /\ messagesById_get dbc' (parseInt id) = Some m.
Proof.
  intros H. unfold load_line. rewrite H. simpl.
  unfold messages_get, messagesById_get, deref. simpl.
  rewrite Map_get_set, lookup_insert_eq. destruct (decide (name = name)); [|congruence].
  simpl. split; apply list_lookup_middle; reflexivity.
Qed.

Lemma message_line_registers_witness :
  let dbc' := (load_line (sample_dbc, None) "BO_ 201328000 STATUS_0: 4 Y").1 in
  let m := {| msg_id := parseInt "201328000"; msg_name := "STATUS_0";
              msg_dlc := parseInt "4"; msg_sender := "Y"; msg_signals := [] |} in
  messages_get dbc' "STATUS_0" = Some m
  /\ messagesById_get dbc' (parseInt "201328000") = Some m.
Proof.
  apply (message_line_registers sample_dbc None "BO_ 201328000 STATUS_0: 4 Y"
           "201328000" "STATUS_0" "4" "Y").
  vm_compute. reflexivity.
Defined.

(** X13. A signal line attaches its signal to the message of the last
    message line, and the one object is seen through both maps: the signal is
    found through every id and through every name that leads to that message. *)
Theorem signal_line_attaches dbc cur line signal :
  match_SG line = Some signal ->
  is_Some (deref dbc cur) ->
  let dbc' := (load_line (dbc, Some cur) line).1 in
  (forall id, messagesById dbc !! id = Some cur ->
              signal_lookup dbc' id (sig_name signal) = Some signal)
  /\ (forall name, Map_get name (messages dbc) = Some cur ->
                   exists m, messages_get dbc' name = Some m
                             /\ Map_get (sig_name signal) (msg_signals m) = Some signal).
Proof.
  intros Hsg [m Hm]. destruct (match_SG_exclusive _ _ Hsg) as (Hbo & _).
  unfold load_line. rewrite Hbo, Hsg. simpl.
  assert (Hd : deref (mutate dbc cur (with_signals (Map_set (sig_name signal) signal))) cur
               = Some (with_signals (Map_set (sig_name signal) signal) m)).
  { rewrite deref_mutate. destruct (decide (cur = cur)); [|congruence]. now rewrite Hm. }
  assert (Hg : Map_get (sig_name signal)
                 (msg_signals (with_signals (Map_set (sig_name signal) signal) m))
               = Some signal).
  { simpl. rewrite Map_get_set. now destruct (decide (sig_name signal = sig_name signal)). }
  split.
  - intros id Hid. unfold signal_lookup, messagesById_get. simpl. rewrite Hid. simpl.
    rewrite Hd. exact Hg.
  - intros name Hname. unfold messages_get. simpl. rewrite Hname. simpl. rewrite Hd. eauto.
Qed.

Lemma signal_line_attaches_witness :
  let line := " SG_ EXTRA : 8|8@1+ (1,0) [0|0] " ++ quote ++ quote ++ " X" in
  let signal := default zero_factor_signal (match_SG line) in
  let dbc' := (load_line (sample_dbc, Some 1%nat) line).1 in
  (forall id, messagesById sample_dbc !! id = Some 1%nat ->
              signal_lookup dbc' id (sig_name signal) = Some signal)
  /\ (forall name, Map_get name (messages sample_dbc) = Some 1%nat ->
                   exists m, messages_get dbc' name = Some m
                             /\ Map_get (sig_name signal) (msg_signals m) = Some signal).
Proof.
  apply (signal_line_attaches sample_dbc 1%nat
           (" SG_ EXTRA : 8|8@1+ (1,0) [0|0] " ++ quote ++ quote ++ " X")
           (default zero_factor_signal
              (match_SG (" SG_ EXTRA : 8|8@1+ (1,0) [0|0] " ++ quote ++ quote ++ " X")))).
  - vm_compute. reflexivity.
  - vm_compute. eauto.
Defined.

Lemma signal_lookup_update_signal dbc id name f :
  signal_lookup (update_signal dbc id name f) id name = f <$> signal_lookup dbc id name.
Proof.
  unfold signal_lookup, messagesById_get, update_signal.
  destruct (messagesById dbc !! id) as [r|] eqn:Hr.
  - simpl. rewrite Hr. simpl. rewrite deref_mutate.
    destruct (decide (r = r)); [|congruence].
    destruct (deref dbc r) as [m|]; [|reflexivity]. simpl.
    rewrite Map_get_update. now destruct (decide (name = name)).
  - now rewrite Hr.
Qed.

(** X14. A value-type line for a declared signal sets its data type: float
    for the code 1, double for the code 2; any other code leaves the signal
    as it is. *)
Theorem value_type_line_sets_data_type dbc cur line id name kind s :
  match_ValType line = Some (id, name, kind) ->
  signal_lookup dbc (parseInt id) name = Some s ->
  signal_lookup (load_line (dbc, cur) line).1 (parseInt id) name
  = Some (if String.eqb kind "1" then set_dataType DT_float s
          else if String.eqb kind "2" then set_dataType DT_double s
          else s).
Proof.
  intros Hv Hs. destruct (match_ValType_exclusive _ _ Hv) as [Hbo Hsg].
  unfold load_line. rewrite Hbo, Hsg, Hv.
  assert (E : String.eqb kind "1" = true -> String.eqb kind "2" = false).
  { intros H. apply String.eqb_eq in H. now subst. }
  destruct (String.eqb kind "1"); [rewrite E by reflexivity|]; simpl.
  - now rewrite signal_lookup_update_signal, Hs.
  - destruct (String.eqb kind "2"); simpl; [|exact Hs].
    now rewrite signal_lookup_update_signal, Hs.
Qed.

Lemma value_type_line_sets_data_type_witness :
  signal_lookup (load_line (sample_dbc, None) "SIG_VALTYPE_ 201328000 COUNT : 2;").1
                (parseInt "201328000") "COUNT"
  = Some (set_dataType DT_double (bs_signal (sample_bound "COUNT"))).
Proof.
  apply (value_type_line_sets_data_type sample_dbc None "SIG_VALTYPE_ 201328000 COUNT : 2;"
           "201328000" "COUNT" "2" (bs_signal (sample_bound "COUNT")));
    vm_compute; reflexivity.
Defined.

(** X15. A comment line for a declared signal sets its description to the
    text between the first quote and the last quote that a semicolon follows;
    the rest of the signal is kept. *)
Theorem comment_line_sets_description dbc cur line id name text s :
  match_Comment line = Some (id, name, text) ->
  signal_lookup dbc (parseInt id) name = Some s ->
  signal_lookup (load_line (dbc, cur) line).1 (parseInt id) name
  = Some (set_description text s).
Proof.
  intros Hc Hs. destruct (match_Comment_exclusive _ _ Hc) as (Hbo & Hsg & Hv).
  unfold load_line. rewrite Hbo, Hsg, Hv, Hc. simpl.
  now rewrite signal_lookup_update_signal, Hs.
Qed.

Lemma comment_line_sets_description_witness :
  signal_lookup
    (load_line (sample_dbc, None)
               ("CM_ SG_ 201328000 COUNT " ++ quote ++ "a " ++ quote ++ "b" ++ quote ++ ";"
                ++ quote ++ ";")).1
    (parseInt "201328000") "COUNT"
  = Some (set_description ("a " ++ quote ++ "b" ++ quote ++ ";")
                          (bs_signal (sample_bound "COUNT"))).
Proof.
  apply (comment_line_sets_description sample_dbc None
           ("CM_ SG_ 201328000 COUNT " ++ quote ++ "a " ++ quote ++ "b" ++ quote ++ ";"
            ++ quote ++ ";")
           "201328000" "COUNT");
    vm_compute; reflexivity.
Defined.

(** ** What a conversion adds to the output *)

Lemma grown_by_refl Q st : grown_by Q (outputChunks st) st.
Proof. exists []. split; [now rewrite app_nil_r|constructor]. Qed.

Lemma grown_by_weaken (Q Q' : written -> Prop) chunks st :
  (forall v, Q v -> Q' v) -> grown_by Q chunks st -> grown_by Q' chunks st.
Proof.
  intros H (suffix & E & HQ). exists suffix. split; [exact E|].
  eapply Forall_impl; [exact HQ|]. intros c. apply H.
Qed.

Section GrownBy.
Variable Q : written -> Prop.
Variable chunks : list chunk.

Lemma keeps_grown_set_recordsProcessed : keeps (grown_by Q chunks) set_recordsProcessed.
Proof. intros st H. exact H. Qed.

Lemma keeps_grown_push c : Q (chunk_view c) -> keeps (grown_by Q chunks) (push c).
Proof.
  intros Hc st (suffix & E & HQ). exists (suffix ++ [c])%list. simpl. split.
  - rewrite E. now rewrite app_assoc.
  - apply Forall_app. split; [exact HQ|]. now repeat constructor.
Qed.

Lemma keeps_grown_declare name type metadata :
  (forall id, Q (ControlRecord id name type metadata)) ->
  keeps (grown_by Q chunks) (declare name type metadata).
Proof.
  intros HQ. unfold declare, writeControlRecord.
  apply keeps_bind; [apply keeps_get_state|]. intros st0.
  destruct (RECORDS st0 !! name); [apply keeps_ret|].
  apply keeps_bind; [intros st H; exact H|]. intros id.
  apply keeps_bind; [apply keeps_lift|]. intros payload.
  apply keeps_bind; [apply keeps_lift|]. intros record.
  apply keeps_bind; [apply keeps_grown_push, HQ|]. intros _.
  intros st H. exact H.
Qed.

Lemma keeps_grown_writeRecord name value timestampMs :
  (forall id type payload,
     data_payload type value = Some payload ->
     Q (DataRecord name id type payload (timestampMs * 1000))) ->
  keeps (grown_by Q chunks) (writeRecord name value timestampMs).
Proof.
  intros HQ. unfold writeRecord.
  apply keeps_bind; [apply keeps_get_state|]. intros st0.
  destruct (RECORDS st0 !! name) as [info|]; [|apply keeps_ret].
  destruct (data_payload (rec_type info) value) as [payload|] eqn:Hp; [|apply keeps_ret].
  apply keeps_bind; [apply keeps_lift|]. intros record.
  apply keeps_grown_push. simpl. now apply HQ.
Qed.
End GrownBy.

(** Preservation goes through every construct of the transcoder, down to
    the steps of the writer. *)
Ltac keeps_structure :=
  repeat match goal with
         | |- keeps _ (ret _) => apply keeps_ret
         | |- keeps _ (lift _) => apply keeps_lift
         | |- keeps _ get_state => apply keeps_get_state
         | |- keeps _ (try_ignore _) => apply keeps_try_ignore
         | |- keeps _ (for_each _ _) => apply keeps_for_each; intros
         | |- keeps _ (for_records _ _ _) => apply keeps_for_records; intros
         | |- keeps _ (mbind _ (lift _)) => apply keeps_bind_lift; intros
         | |- keeps _ (mbind _ _) => apply keeps_bind; [|intros]
         | |- keeps _ (match ?x with _ => _ end) => destruct x eqn:?
         | |- keeps _ (if ?x then _ else _) => destruct x eqn:?
         end.

Lemma data_payload_size type value payload :
  data_payload type value = Some payload ->
  payload_size_ok (DataRecord EmptyString 0 type payload 0).
Proof.
  unfold data_payload, payload_size_ok, Buffer_length. intros H.
  destruct (String.eqb_spec type "boolean") as [->|].
  { injection H as <-. repeat split; (reflexivity || discriminate). }
  destruct (String.eqb_spec type "int64") as [->|].
  { repeat split; try discriminate. intros _.
    destruct (obind _ _) as [p|] eqn:E; injection H as <-; [|reflexivity].
    destruct (BigInt_of_value value) as [z|]; [|discriminate]. simpl in E.
    unfold writeBigInt64LE in E. destruct (_ || _); [discriminate|]. now injection E as <-. }
  destruct (String.eqb_spec type "float") as [->|].
  { injection H as <-. repeat split; (reflexivity || discriminate). }
  destruct (String.eqb_spec type "double") as [->|].
  { injection H as <-. repeat split; (reflexivity || discriminate). }
  repeat split; congruence.
Qed.

Section TranscoderOutput.
Variable resources : string -> string.

(** Every step of the transcoder adds records whose payloads have the size
    of their stream type and whose timestamps are whole milliseconds, and no
    file header. *)
Lemma keeps_records_scan chunks fuel binary_data cursor :
  keeps (grown_by record_ok chunks) (scan resources fuel binary_data cursor).
Proof.
  revert cursor. induction fuel as [|fuel IH]; intros cursor; simpl; keeps_structure;
    try apply IH.
  unfold process_entry. keeps_structure; try apply keeps_grown_set_recordsProcessed.
  - unfold firmware_record. keeps_structure.
    + apply keeps_grown_declare. intros id. repeat split. discriminate.
    + apply keeps_grown_writeRecord. intros id type payload Hp.
      split; [exact (data_payload_size _ _ _ Hp)|]. split; [discriminate|].
      exists 0. split; lia.
  - unfold periodic_record. keeps_structure. unfold periodic_signal.
    match goal with x : string * BoundSignal |- _ => destruct x end. keeps_structure.
    + apply keeps_grown_declare. intros id. repeat split. discriminate.
    + apply keeps_grown_writeRecord. intros id type payload Hp.
      split; [exact (data_payload_size _ _ _ Hp)|]. split; [discriminate|].
      eexists. split; [|reflexivity]. eauto using readUInt32LE_range.
Qed.

(** The records that one periodic frame adds are stamped with its time. *)
Lemma keeps_stamped_periodic_signal chunks device messageSpec messageId msgTsMs entry :
  keeps (grown_by (stamped msgTsMs) chunks)
        (periodic_signal device messageSpec messageId msgTsMs entry).
Proof.
  unfold periodic_signal. destruct entry. keeps_structure.
  - apply keeps_grown_declare. intros id. exact I.
  - apply keeps_grown_writeRecord. intros id type payload Hp. reflexivity.
Qed.
End TranscoderOutput.

(** X16. The payload of every data record a conversion writes has the size
    its stream type requires: one byte for boolean, eight for int64 and
    double, four for float. This holds whether the conversion ends normally or
    with an exception. *)
Theorem payload_sizes_match_stream_types resources binary_data :
  Forall payload_size_ok (views (convert resources binary_data initial_state).2).
Proof.
  unfold convert. destruct (Buffer_length binary_data <? 3); [constructor|].
  unfold mbind, M_bind, bind at 1. cbn [push].
  match goal with |- context [bind ?m _ ?s] => set (st0 := s); set (scan0 := m) end.
  pose proof (keeps_records_scan resources (outputChunks st0) (scan_fuel binary_data)
                binary_data 0 st0 (grown_by_refl _ st0)) as (suffix & E & HQ).
  fold scan0 in E.
  assert (Hall : Forall payload_size_ok (views (scan0 st0).2)).
  { unfold views. rewrite E, map_app. apply Forall_app. split.
    - repeat constructor.
    - apply Forall_fmap. eapply Forall_impl; [exact HQ|]. now intros c [H _]. }
  unfold bind. destruct (scan0 st0) as [[[]|e] st1]; [|exact Hall].
  unfold get_state. simpl. now destruct (recordsProcessed st1).
Qed.

(** What a conversion that passes the validation of its input has written:
    the file header, then records. *)
Lemma convert_grown resources binary_data :
  3 <= Buffer_length binary_data ->
  grown_by record_ok
           [{| chunk_view := FileHeader; chunk_bytes := file_header |}]
           (convert resources binary_data initial_state).2.
Proof.
  intros Hlen. unfold convert. destruct (Z.ltb_spec (Buffer_length binary_data) 3); [lia|].
  unfold mbind, M_bind, bind at 1. cbn [push].
  match goal with |- context [bind ?m _ ?s] => set (st0 := s); set (scan0 := m) end.
  pose proof (keeps_records_scan resources (outputChunks st0) (scan_fuel binary_data)
                binary_data 0 st0 (grown_by_refl _ st0)) as Hg.
  fold scan0 in Hg. unfold bind. destruct (scan0 st0) as [[[]|e] st1]; [|exact Hg].
  unfold get_state. simpl. now destruct (recordsProcessed st1).
Qed.

Lemma parseREVLOG_Ok resources input out :
  parseREVLOG resources input = Ok out ->
  3 <= Buffer_length input
  /\ exists st, convert resources input initial_state = (Ok tt, st)
                /\ out = concat (map chunk_bytes (outputChunks st)).
Proof.
  unfold parseREVLOG. intros H. split.
  - unfold convert in H. destruct (Z.ltb_spec (Buffer_length input) 3); [discriminate|lia].
  - destruct (convert resources input initial_state) as [[[]|e] st]; [|discriminate].
    injection H as <-. eauto.
Qed.

(** X17. The output of a successful conversion starts with the twelve bytes
    of the file header: the text WPILOG, the version 1.0 as the bytes 0 and 1,
    and the length 0 of the extra header. *)
Theorem output_starts_with_header resources input out :
  parseREVLOG resources input = Ok out ->
  take 12 out = Buffer_from [87; 80; 73; 76; 79; 71; 0; 1; 0; 0; 0; 0].
Proof.
  intros H. apply parseREVLOG_Ok in H as (Hlen & st & Hc & ->).
  pose proof (convert_grown resources input Hlen) as (suffix & E & _).
  rewrite Hc in E. simpl in E. rewrite E. reflexivity.
Qed.

Lemma output_starts_with_header_witness :
  take 12 (match parseREVLOG sample_resources sample_firmware_input with
           | Ok out => out
           | Throw _ => []
           end)
  = Buffer_from [87; 80; 73; 76; 79; 71; 0; 1; 0; 0; 0; 0].
Proof.
  apply (output_starts_with_header sample_resources sample_firmware_input).
  vm_compute. reflexivity.
Defined.

(** X18. Every data record written for a periodic frame carries the
    timestamp of the frame: the 32-bit count of milliseconds at the head of
    the 16-byte record, times 1000. The frame adds control records and such
    data records to the output and nothing else. *)
Theorem periodic_records_carry_frame_time resources payloadBytes pc msgTsMs st :
  readUInt32LE payloadBytes pc = Ok msgTsMs ->
  grown_by (stamped msgTsMs) (outputChunks st)
           (periodic_record resources payloadBytes pc st).2.
Proof.
  intros Hts.
  assert (Hk : keeps (grown_by (stamped msgTsMs) (outputChunks st))
                     (periodic_record resources payloadBytes pc)).
  { unfold periodic_record. apply keeps_bind_lift. intros ms Hms.
    assert (ms = msgTsMs) as -> by congruence.
    keeps_structure. apply keeps_stamped_periodic_signal. }
  apply Hk, grown_by_refl.
Qed.

Lemma periodic_records_carry_frame_time_witness :
  grown_by (stamped 1000) (outputChunks scan_start)
           (periodic_record sample_resources
              (Buffer_from [232; 3; 0; 0; 133; 5; 0; 12; 0x34; 0x12; 0xff; 0; 0; 0; 0x80; 0x3f])
              0 scan_start).2.
Proof.
  apply (periodic_records_carry_frame_time sample_resources
           (Buffer_from [232; 3; 0; 0; 133; 5; 0; 12; 0x34; 0x12; 0xff; 0; 0; 0; 0x80; 0x3f])
           0 1000 scan_start).
  vm_compute. reflexivity.
Defined.

(** ** Blocks of records *)

Lemma for_records_returns size len (body : Z -> M unit) :
  0 < size ->
  (forall i st, 0 <= i -> size * i + size <= len -> (body (size * i) st).1 = Ok tt) ->
  forall st, (for_records size len body st).1 = Ok tt.
Proof.
  intros Hs Hb. unfold for_records.
  assert (Hall : Forall (fun i => 0 <= i /\ size * i + size <= len) (seqZ 0 (len / size))).
  { apply Forall_forall. intros i Hi. apply elem_of_seqZ in Hi.
    pose proof (Z.mul_div_le len size Hs). nia. }
  induction Hall as [|i l [Hi1 Hi2] _ IH]; intros st; [reflexivity|].
  simpl. unfold mbind, M_bind, bind. specialize (Hb i st Hi1 Hi2).
  destruct (body (size * i) st) as [[[]|e] st']; [apply IH|discriminate].
Qed.

Lemma read_field_Ok data offset n :
  0 <= offset -> offset + n <= Buffer_length data ->
  read_field data offset n = Ok (le_value (Buffer_slice data offset (offset + n))).
Proof.
  intros H1 H2. unfold read_field.
  destruct (Z.gtb_spec (offset + n) (Buffer_length data)); [lia|].
  destruct (Z.ltb_spec offset 0); [lia|]. reflexivity.
Qed.

(** X19. With catalogs whose messages have at most 64 bytes, so that the
    padding of a frame to the length of its message is within what the
    runtime allocates, a periodic block never ends a conversion with an
    exception: the records are read within the block and whatever the
    decoding or the writing of a frame raises is swallowed. *)
Theorem periodic_block_never_raises resources payloadBytes st :
  short_frames (sparkDbc resources) = true ->
  short_frames (servohubDbc resources) = true ->
  short_frames (encoderDbc resources) = true ->
  (process_entry resources 2 payloadBytes st).1 = Ok tt.
Proof.
  intros _ _ _. unfold process_entry. simpl. unfold mbind, M_bind, bind. simpl.
  apply for_records_returns; [lia|]. intros i st' Hi Hlen.
  unfold periodic_record, readUInt32LE.
  rewrite !read_field_Ok by lia. unfold mbind, M_bind, bind, lift. cbv zeta.
  destruct (devices resources !! _) as [device|]; [|reflexivity].
  destruct (periodicFrames device !! _) as [messageSpec|]; [|reflexivity].
  unfold try_ignore.
  match goal with |- (match ?x with _ => _ end).1 = _ => destruct x as [[[]|e] st''] end;
    reflexivity.
Qed.

Lemma periodic_block_never_raises_witness :
  (process_entry sample_resources 2
     (Buffer_from [232; 3; 0; 0; 133; 5; 0; 12; 0x34; 0x12; 0xff; 0; 0; 0; 0x80; 0x3f])
     scan_start).1 = Ok tt.
Proof.
  apply (periodic_block_never_raises sample_resources
           (Buffer_from [232; 3; 0; 0; 133; 5; 0; 12; 0x34; 0x12; 0xff; 0; 0; 0; 0x80; 0x3f])
           scan_start);
    vm_compute; reflexivity.
Defined.

Lemma Buffer_slice_app_l (p e : list byte) from to :
  0 <= from -> to <= Buffer_length p ->
  Buffer_slice (p ++ e) from to = Buffer_slice p from to.
Proof.
  intros H1 H2. unfold Buffer_slice, Buffer_length in *.
  destruct (Z_le_gt_dec from to).
  - rewrite drop_app_le by lia. apply take_app_le. rewrite length_drop. lia.
  - replace (Z.to_nat (to - from)) with 0%nat by lia. reflexivity.
Qed.

Lemma read_field_app_l (p e : list byte) offset n :
  0 <= offset -> 0 <= n -> offset + n <= Buffer_length p ->
  read_field (p ++ e) offset n = read_field p offset n.
Proof.
  intros H1 H2 H3.
  assert (Buffer_length p <= Buffer_length (p ++ e))
    by (unfold Buffer_length; rewrite length_app; lia).
  rewrite !read_field_Ok by lia. now rewrite Buffer_slice_app_l by lia.
Qed.

Lemma for_records_ext size len len' (body body' : Z -> M unit) :
  0 < size -> len / size = len' / size ->
  (forall i, 0 <= i -> size * i + size <= len -> body (size * i) = body' (size * i)) ->
  for_records size len body = for_records size len' body'.
Proof.
  intros Hs Hq Hb. unfold for_records. rewrite <- Hq.
  assert (Hall : Forall (fun i => 0 <= i /\ size * i + size <= len) (seqZ 0 (len / size))).
  { apply Forall_forall. intros i Hi. apply elem_of_seqZ in Hi.
    pose proof (Z.mul_div_le len size Hs). nia. }
  induction Hall as [|i l [Hi1 Hi2] _ IH]; [reflexivity|].
  simpl. now rewrite IH, Hb.
Qed.

(** X20. Bytes at the end of a block that do not fill a record are ignored:
    a firmware block is read in records of ten bytes and a periodic block in
    records of sixteen, and fewer trailing bytes than that change nothing. *)
Theorem incomplete_trailing_record_ignored resources entryId payloadBytes extra st :
  let size := if entryId =? 1 then 10 else 16 in
  Buffer_length payloadBytes mod size = 0 -> Buffer_length extra < size ->
  process_entry resources entryId (payloadBytes ++ extra) st
  = process_entry resources entryId payloadBytes st.
Proof.
  intros size Hmod Hextra. subst size. unfold process_entry.
  assert (Hlen : Buffer_length (payloadBytes ++ extra)
                 = Buffer_length payloadBytes + Buffer_length extra)
    by (unfold Buffer_length; rewrite length_app; lia).
  assert (0 <= Buffer_length extra) by (unfold Buffer_length; lia).
  assert (Hq : forall size, 0 < size -> Buffer_length payloadBytes mod size = 0 ->
                            Buffer_length extra < size ->
                            Buffer_length (payloadBytes ++ extra) / size
                            = Buffer_length payloadBytes / size).
  { intros size Hs Hm He. rewrite Hlen. apply Z.div_exact in Hm; [|lia].
    rewrite Hm at 1. rewrite Z.mul_comm, Z.div_add_l by lia.
    rewrite (Z.div_small (Buffer_length extra)) by lia. lia. }
  destruct (entryId =? 1).
  - rewrite (for_records_ext 10 (Buffer_length (payloadBytes ++ extra))
               (Buffer_length payloadBytes)
               (firmware_record resources (payloadBytes ++ extra))
               (firmware_record resources payloadBytes)); [reflexivity|lia|apply Hq; lia|].
    intros i Hi Hle. unfold firmware_record, readUInt32LE.
    apply Z.div_exact in Hmod; [|lia].
    rewrite read_field_app_l by lia. now rewrite Buffer_slice_app_l by lia.
  - destruct (entryId =? 2); [|reflexivity].
    rewrite (for_records_ext 16 (Buffer_length (payloadBytes ++ extra))
               (Buffer_length payloadBytes)
               (periodic_record resources (payloadBytes ++ extra))
               (periodic_record resources payloadBytes)); [reflexivity|lia|apply Hq; lia|].
    intros i Hi Hle. unfold periodic_record, readUInt32LE.
    apply Z.div_exact in Hmod; [|lia].
    rewrite !read_field_app_l by lia. now rewrite Buffer_slice_app_l by lia.
Qed.

Lemma incomplete_trailing_record_ignored_witness :
  process_entry sample_resources 1 (sample_firmware_payload ++ Buffer_from [1; 2; 3]) scan_start
  = process_entry sample_resources 1 sample_firmware_payload scan_start.
Proof.
  apply (incomplete_trailing_record_ignored sample_resources 1 sample_firmware_payload
           (Buffer_from [1; 2; 3]) scan_start);
    vm_compute; reflexivity.
Defined.

(** ** The device registry *)

Lemma Map_of_pairs_acc_Some pairs (acc : gmap Z Message) k m :
  fold_left (fun a kv => <[kv.1 := kv.2]> a) pairs acc !! k = Some m ->
  (k, m) ∈ pairs \/ acc !! k = Some m.
Proof.
  revert acc. induction pairs as [|[k0 m0] pairs IH]; intros acc H; [now right|].
  simpl in H. apply IH in H as [H|H].
  - left. now right.
  - simpl in H. destruct (decide (k0 = k)) as [->|Hne].
    + rewrite lookup_insert_eq in H. injection H as ->. left. now left.
    + rewrite lookup_insert_ne in H by assumption. now right.
Qed.

Lemma Map_of_pairs_acc_is_Some pairs (acc : gmap Z Message) k :
  (k ∈ map fst pairs \/ is_Some (acc !! k)) ->
  is_Some (fold_left (fun a kv => <[kv.1 := kv.2]> a) pairs acc !! k).
Proof.
  revert acc. induction pairs as [|[k0 m0] pairs IH]; intros acc H.
  - destruct H as [H|H]; [inversion H|exact H].
  - simpl. apply IH. destruct H as [H|H].
    + simpl in H. apply elem_of_cons in H as [->|H]; [|now left].
      right. rewrite lookup_insert_eq. eauto.
    + right. simpl. destruct (decide (k0 = k)) as [->|Hne].
      * rewrite lookup_insert_eq. eauto.
      * now rewrite lookup_insert_ne.
Qed.

Lemma js_and_15 a : 0 <= js_and a 0xf <= 15.
Proof.
  unfold js_and. change (ToInt32 0xf) with (Z.ones 4).
  rewrite Z.land_ones by lia. pose proof (Z.mod_pos_bound (ToInt32 a) (2 ^ 4)). lia.
Qed.

(** X21. The periodic frames of a device: a message found under an API
    index is a message of the catalog whose name starts with the periodic
    prefix and whose id has that index in bits 6 to 9, an index between 0 and
    15; and every such message of the catalog has its index taken, by itself
    or by another message of the same index. *)
Theorem periodicFrames_by_api_index dbc prefix fwName periodicPrefix custom :
  let device := createDeviceMap dbc prefix fwName periodicPrefix custom in
  (forall k m, periodicFrames device !! k = Some m ->
               m ∈ messages_values dbc
               /\ startsWith (msg_name m) periodicPrefix = true
               /\ js_and (js_shr (msg_id m) 6) 0xf = k
               /\ 0 <= k <= 15)
  /\ (forall m, m ∈ messages_values dbc ->
                startsWith (msg_name m) periodicPrefix = true ->
                is_Some (periodicFrames device !! js_and (js_shr (msg_id m) 6) 0xf)).
Proof.
  cbv zeta. unfold createDeviceMap, Map_of_pairs. simpl. split.
  - intros k m H. apply Map_of_pairs_acc_Some in H as [H|H];
      [|rewrite lookup_empty in H; discriminate].
    apply list_elem_of_fmap in H as (m' & [= -> ->] & Hin).
    apply list_elem_of_filter in Hin as [Hp Hin].
    repeat split; auto; apply js_and_15.
  - intros m Hin Hp. apply Map_of_pairs_acc_is_Some. left.
    rewrite <- list_fmap_compose.
    apply (list_elem_of_fmap_2 (fst ∘ (fun m => (js_and (js_shr (msg_id m) 6) 15, m)))).
    now apply list_elem_of_filter.
Qed.

(** ** The output reads back *)

Lemma wpilog_record_at (pre post record : list byte) id payload timestampUs :
  0 <= id <= 0xffffffff -> Buffer_length payload <= 0xffffffff ->
  0 <= timestampUs < 2 ^ 48 ->
  framed id payload timestampUs = Ok record ->
  wpilog_record (pre ++ record ++ post) (Buffer_length pre)
  = Ok (id, timestampUs, payload, Buffer_length pre + Buffer_length record).
Proof.
  intros Hid Hp Hts Hf.
  destruct (framed_layout id payload timestampUs Hid Hp ltac:(lia))
    as (bitfield & b_id & b_size & b_ts & E & Hb & Li & Vi & Ls & Vs & Lt & Vt & Wt).
  pose proof (entryIdLen_bounds bitfield) as Wi. pose proof (sizeLen_bounds bitfield) as Ws.
  pose proof (requiredTimestampBytes_range timestampUs) as Wt1.
  pose proof (requiredTimestampBytes_six timestampUs ltac:(lia)) as Wt2.
  rewrite Hf in E. injection E as ->. unfold wpilog_record.
  set (data := (pre ++ _ ++ post)%list).
  set (b := byte_of_Z bitfield) in *.
  assert (Hcb : control_byte data (Buffer_length pre) = bitfield).
  { unfold control_byte, Buffer_length, data. rewrite Nat2Z.id. simpl.
    rewrite nth_middle. unfold b. rewrite byte_to_of_Z. apply Z.mod_small. lia. }
  rewrite Hcb. cbv zeta.
  set (c1 := Buffer_length pre + 1 + entryIdLen bitfield).
  set (c2 := c1 + sizeLen bitfield).
  set (c3 := c2 + timestampLen bitfield).
  assert (R1 : readVariableInt data (Buffer_length pre + 1) (entryIdLen bitfield) = Ok (id, c1)).
  { replace data with ((pre ++ [b]) ++ b_id ++ (b_size ++ b_ts ++ payload ++ post))%list
      by (unfold data; simpl; now rewrite <- !app_assoc).
    rewrite <- Vi. apply readVariableInt_at; unfold Buffer_length in *;
      rewrite ?length_app; simpl; lia. }
  assert (R2 : readVariableInt data c1 (sizeLen bitfield) = Ok (Buffer_length payload, c2)).
  { replace data with (((pre ++ [b]) ++ b_id) ++ b_size ++ (b_ts ++ payload ++ post))%list
      by (unfold data; simpl; now rewrite <- !app_assoc).
    rewrite <- Vs. apply readVariableInt_at; unfold c1, Buffer_length in *;
      rewrite ?length_app; simpl; lia. }
  assert (R3 : readVariableInt data c2 (timestampLen bitfield) = Ok (timestampUs, c3)).
  { replace data with ((((pre ++ [b]) ++ b_id) ++ b_size) ++ b_ts ++ (payload ++ post))%list
      by (unfold data; simpl; now rewrite <- !app_assoc).
    rewrite <- Vt. apply readVariableInt_at; unfold c2, c1, Buffer_length in *;
      rewrite ?length_app; simpl; lia. }
  rewrite R1. cbn [mbind outcome_bind obind]. rewrite R2. cbn [mbind outcome_bind obind].
  rewrite R3. cbn [mbind outcome_bind obind].
  assert (Hd : data = (((((pre ++ [b]) ++ b_id) ++ b_size) ++ b_ts) ++ payload ++ post)%list)
    by (unfold data; simpl; now rewrite <- !app_assoc).
  assert (Hc3 : c3 = Buffer_length ((((pre ++ [b]) ++ b_id) ++ b_size) ++ b_ts))
    by (unfold c3, c2, c1, Buffer_length in *; rewrite !length_app; simpl; lia).
  destruct (Z.gtb_spec (c3 + Buffer_length payload) (Buffer_length data)) as [Hgt|_].
  { rewrite Hc3, Hd in Hgt. unfold Buffer_length in Hgt. rewrite !length_app in Hgt.
    clear -Hgt. lia. }
  rewrite Hd at 1. rewrite Buffer_slice_at; [|exact Hc3|reflexivity].
  do 2 f_equal. rewrite Hc3. unfold Buffer_length. rewrite !length_app. simpl.
  rewrite !length_app. clear. lia.
Qed.

Lemma framed_nonempty id payload timestampUs record :
  framed id payload timestampUs = Ok record ->
  Buffer_length payload < Buffer_length record.
Proof.
  unfold framed. intros H.
  destruct (writeVariableInt id _) as [b_id|]; [|discriminate].
  destruct (writeVariableInt timestampUs _) as [b_ts|]; [|discriminate].
  simpl in H. injection H as <-. unfold Buffer_length. simpl. rewrite !length_app. lia.
Qed.

Lemma wpilog_records_chunks (cs : list chunk) :
  Forall reads_back cs ->
  forall (pre : list byte) (fuel : nat),
    (length cs <= fuel)%nat ->
    exists entries,
      wpilog_records fuel (pre ++ concat (map chunk_bytes cs)) (Buffer_length pre) = Ok entries
      /\ Forall2 (fun v e => wpilog_entry v = Some e) (map chunk_view cs) entries.
Proof.
  induction 1 as [|c cs (id & payload & ts & Hf & Hid & Hp & Hts & He) _ IH];
    intros pre fuel Hfuel.
  - exists []. split; [|constructor]. simpl. rewrite app_nil_r.
    destruct fuel; simpl; now rewrite Z.ltb_irrefl.
  - destruct fuel as [|fuel]; [simpl in Hfuel; lia|].
    pose proof (framed_nonempty _ _ _ _ Hf) as Hne.
    assert (0 <= Buffer_length payload) by (unfold Buffer_length; lia).
    cbn [map concat wpilog_records].
    destruct (Z.ltb_spec (Buffer_length pre)
                (Buffer_length (pre ++ chunk_bytes c ++ concat (map chunk_bytes cs)))) as [_|Hge].
    2: { unfold Buffer_length in *. rewrite !length_app in Hge. lia. }
    rewrite (wpilog_record_at pre _ (chunk_bytes c) id payload ts Hid Hp Hts Hf).
    cbn [mbind outcome_bind obind].
    destruct (IH (pre ++ chunk_bytes c)%list fuel ltac:(simpl in Hfuel; lia))
      as (entries & Hr & Hall).
    rewrite <- app_assoc in Hr.
    replace (Buffer_length (pre ++ chunk_bytes c))
      with (Buffer_length pre + Buffer_length (chunk_bytes c)) in Hr
      by (unfold Buffer_length; rewrite length_app; lia).
    rewrite Hr. cbn [obind]. eexists. split; [reflexivity|].
    constructor; assumption.
Qed.

(** The chunks behind the header of a conversion read back, when each is
    shorter than 2^32 bytes. *)
Lemma conversion_chunks_read_back resources binary_data suffix :
  outputChunks (convert resources binary_data initial_state).2
  = ({| chunk_view := FileHeader; chunk_bytes := file_header |} :: suffix)%list ->
  Forall (fun c => record_ok (chunk_view c)) suffix ->
  Forall (fun c => Buffer_length (chunk_bytes c) < 2 ^ 32) suffix ->
  Forall reads_back suffix.
Proof.
  intros E Hrec Hlen.
  pose proof (keeps_convert resources binary_data initial_state conversion_invariant_initial)
    as [Hinv _].
  set (st := (convert resources binary_data initial_state).2) in *. clearbody st.
  pose proof (inv_encodes _ Hinv) as Henc. rewrite E in Henc.
  apply Forall_cons in Henc as [_ Henc].
  apply Forall_forall. intros c Hc.
  pose proof (proj1 (Forall_forall _ _) Hrec c Hc) as (_ & Hnh & Hts).
  pose proof (proj1 (Forall_forall _ _) Hlen c Hc) as Hl. cbv beta in Hl.
  pose proof (proj1 (Forall_forall _ _) Henc c Hc) as He.
  unfold encodes in He. unfold reads_back.
  destruct (chunk_view c) as [|id name type metadata|name id type payload ts] eqn:Hv.
  - congruence.
  - destruct He as (payload & Hcp & Hf). exists 0, payload, 0.
    pose proof (framed_nonempty _ _ _ _ Hf).
    simpl. rewrite Hcp. repeat split; auto; lia.
  - exists id, payload, ts. pose proof (framed_nonempty _ _ _ _ He).
    destruct Hts as (ms & Hms & ->).
    assert (Hin : (id, name, type) ∈ controls (views st)).
    { apply list_elem_of_split in Hc as (pre & post & Hsplit).
      assert (Hviews : views st
                       = ((FileHeader :: map chunk_view pre)
                            ++ DataRecord name id type payload (ms * 1000)
                            :: map chunk_view post)%list).
      { unfold views. rewrite E, Hsplit. simpl. rewrite map_app. simpl. now rewrite Hv. }
      pose proof (inv_data _ Hinv _ _ _ _ _ _ _ Hviews) as Hctl.
      rewrite Hviews, controls_app. apply elem_of_app. now left. }
    pose proof (inv_ids_bound _ Hinv _ _ _ Hin).
    repeat split; auto; lia.
Qed.

(** X22. The output of a successful conversion is a well-formed file of the
    target format, as long as it is shorter than 2^32 bytes: behind the
    twelve bytes of the header, records follow one another to the last byte,
    and a reader that takes the field widths from each control byte finds,
    record by record, what the conversion wrote: entry 0 with the declaration
    of a stream at time 0, or a stream id with a payload and a timestamp. *)
Theorem output_reads_back resources input out :
  parseREVLOG resources input = Ok out ->
  Buffer_length out < 2 ^ 32 ->
  exists entries,
    wpilog_records (length out) out 12 = Ok entries
    /\ Forall2 (fun v e => wpilog_entry v = Some e)
               (tail (views (convert resources input initial_state).2)) entries.
Proof.
  intros H Hshort. apply parseREVLOG_Ok in H as (Hlen & st & Hc & ->).
  pose proof (convert_grown resources input Hlen) as (suffix & E & Hrec).
  simpl in E.
  assert (Hout : concat (map chunk_bytes (outputChunks st))
                 = (file_header ++ concat (map chunk_bytes suffix))%list).
  { rewrite Hc in E. simpl in E. rewrite E. reflexivity. }
  rewrite Hout in *.
  assert (Hsmall : Forall (fun c => Buffer_length (chunk_bytes c) < 2 ^ 32) suffix).
  { apply Forall_forall. intros c Hin.
    apply list_elem_of_split in Hin as (pre & post & ->).
    unfold Buffer_length in *. rewrite map_app, concat_app in Hshort. simpl in Hshort.
    rewrite !length_app in Hshort. lia. }
  pose proof (conversion_chunks_read_back resources input suffix E Hrec Hsmall) as Hrb.
  assert (Hfuel : (length suffix <= length (file_header ++ concat (map chunk_bytes suffix)))%nat).
  { rewrite length_app. clear -Hrb. induction Hrb as [|c cs (id & p & ts & Hf & _) _ IH];
      [simpl; lia|].
    apply framed_nonempty in Hf. unfold Buffer_length in Hf.
    simpl. rewrite length_app. simpl in IH. lia. }
  destruct (wpilog_records_chunks suffix Hrb file_header _ Hfuel) as (entries & Hr & Hall).
  exists entries. split; [exact Hr|].
  unfold views. rewrite E. exact Hall.
Qed.

Lemma output_reads_back_witness :
  exists entries,
    wpilog_records
      (length (match parseREVLOG sample_resources sample_periodic_input with
               | Ok out => out
               | Throw _ => []
               end))
      (match parseREVLOG sample_resources sample_periodic_input with
       | Ok out => out
       | Throw _ => []
       end) 12 = Ok entries
    /\ Forall2 (fun v e => wpilog_entry v = Some e)
               (tail (views (convert sample_resources sample_periodic_input initial_state).2))
               entries.
Proof.
  apply (output_reads_back sample_resources sample_periodic_input);
    vm_compute; reflexivity.
Defined.

(** ** The command line *)

(** X23. A run of the command line ends in one of five ways: the help text
    and nothing else; one diagnostic and exit status 1; the report of an
    exception and exit status 1; the converted bytes on the standard output;
    or the converted bytes in the output file, followed by the success
    message. The bytes are those of a successful conversion and go to one
    place only; nothing is written when the run fails. *)
Theorem main_outcomes resources p :
  main resources p = [console_log HELP]
  \/ (exists message, main resources p = [console_error message; process_exit 1])
  \/ (exists e, main resources p = [console_error_with "An error occurred:" e; process_exit 1])
  \/ (exists input content,
        parseREVLOG resources input = Ok content
        /\ main resources p = [stdout_write content])
  \/ (exists input content path,
        parseREVLOG resources input = Ok content
        /\ fs_writeFile p path content = Ok tt
        /\ main resources p
           = [fs_written path content;
              console_error ("Successfully wrote WPILOG to " ++ quote ++ path ++ quote)]).
Proof.
  assert (Hrun : forall inputSource outputFilename,
    (exists e, run resources p inputSource outputFilename
               = [console_error_with "An error occurred:" e; process_exit 1])
    \/ (exists input content,
          parseREVLOG resources input = Ok content
          /\ run resources p inputSource outputFilename = [stdout_write content])
    \/ (exists input content path,
          parseREVLOG resources input = Ok content
          /\ fs_writeFile p path content = Ok tt
          /\ run resources p inputSource outputFilename
             = [fs_written path content;
                console_error ("Successfully wrote WPILOG to " ++ quote ++ path ++ quote)])).
  { intros inputSource outputFilename. unfold run, parseREVLOG_io, report.
    destruct (match inputSource with
              | InputBuffer data => Ok data
              | InputPath path => _
              end) as [binary_data|e]; [|left; eauto].
    destruct (parseREVLOG resources binary_data) as [content|e] eqn:Hp; [|left; eauto].
    destruct outputFilename as [path|]; [|right; left; eauto].
    destruct (nonempty path); [|right; left; eauto].
    destruct (fs_writeFile p path content) as [[]|e] eqn:Hw; [|left; eauto].
    right. right. exists binary_data, content, path. auto. }
  unfold main. cbv zeta.
  destruct (_ || _); [now left|]. right.
  destruct (match findIndex is_output_flag (process_args p) with
            | Some i => _
            | None => Some None
            end) as [outputFilename|]; [|left; eauto].
  destruct (filter_index _ 0 (process_args p)) as [|inputFile [|second rest]].
  - destruct (stdin_isTTY p); [left; eauto|].
    destruct (readStdin p) as [inputSource|e]; [|right; left; unfold report; eauto].
    destruct (Buffer_length inputSource =? 0); [left; eauto|].
    right. apply Hrun.
  - right. apply Hrun.
  - left. eauto.
Qed.

Lemma main_outcomes_example :
  main sample_resources (sample_process ["-v"; "in.revlog"; "-o"; "out.wpilog"])
  = [fs_written "out.wpilog"
       (match parseREVLOG sample_resources sample_firmware_input with
        | Ok content => content
        | Throw _ => []
        end);
     console_error ("Successfully wrote WPILOG to " ++ quote ++ "out.wpilog" ++ quote)].
Proof. vm_compute. reflexivity. Qed.

Lemma findIndex_app {A} (q : A -> bool) (l1 l2 : list A) :
  findIndex q (l1 ++ l2)
  = match findIndex q l1 with
    | Some i => Some i
    | None => (fun j => (length l1 + j)%nat) <$> findIndex q l2
    end.
Proof.
  induction l1 as [|x l1 IH]; simpl.
  - destruct (findIndex q l2); reflexivity.
  - destruct (q x); [reflexivity|]. rewrite IH.
    destruct (findIndex q l1); [reflexivity|]. now destruct (findIndex q l2).
Qed.

Lemma findIndex_Some_lt {A} (q : A -> bool) (l : list A) i :
  findIndex q l = Some i -> (i < length l)%nat.
Proof.
  revert i. induction l as [|x l IH]; intros i; simpl; [discriminate|].
  destruct (q x); [intros [= <-]; lia|].
  destruct (findIndex q l) as [j|]; [|discriminate]. intros [= <-].
  specialize (IH j eq_refl). lia.
Qed.

Lemma filter_index_app {A} (keep : A -> nat -> bool) start (l1 l2 : list A) :
  filter_index keep start (l1 ++ l2)
  = (filter_index keep start l1 ++ filter_index keep (start + length l1) l2)%list.
Proof.
  revert start. induction l1 as [|x l1 IH]; intros start; simpl.
  - now rewrite Nat.add_0_r.
  - rewrite IH. replace (S start + length l1)%nat with (start + S (length l1))%nat by lia.
    now destruct (keep x start).
Qed.

Lemma filter_index_ext {A} (keep keep' : A -> nat -> bool) start start' (l : list A) :
  (forall x j, (j < length l)%nat -> keep x (start + j)%nat = keep' x (start' + j)%nat) ->
  filter_index keep start l = filter_index keep' start' l.
Proof.
  revert start start'. induction l as [|x l IH]; intros start start' H; [reflexivity|].
  simpl. specialize (H x 0%nat ltac:(simpl; lia)) as H0.
  rewrite !Nat.add_0_r in H0. rewrite H0.
  rewrite (IH (S start) (S start')); [reflexivity|].
  intros y j Hj. specialize (H y (S j) ltac:(simpl; lia)).
  now replace (S start + j)%nat with (start + S j)%nat by lia;
    replace (S start' + j)%nat with (start' + S j)%nat by lia.
Qed.

Lemma existsb_insert {A} (q : A -> bool) (pre post : list A) x :
  q x = false -> existsb q (pre ++ x :: post) = existsb q (pre ++ post).
Proof. intros H. rewrite !existsb_app. simpl. now rewrite H. Qed.

(** X24. An option that [main] does not know is ignored: an argument that
    starts with a dash and is neither a help flag nor an output flag can
    stand anywhere but directly behind the first output flag, where the file
    name is expected, and the run is the run without it. *)
Theorem unknown_option_ignored resources p pre option post :
  startsWith option "-" = true ->
  is_output_flag option = false -> is_help_flag option = false ->
  (forall i, findIndex is_output_flag pre = Some i -> (i + 1 < length pre)%nat) ->
  main resources (with_args p (pre ++ option :: post))
  = main resources (with_args p (pre ++ post)).
Proof.
  intros Hdash Hout Hhelp Hpos. unfold main. cbn [process_args with_args]. cbv zeta.
  unfold is_help_flag in Hhelp. apply orb_false_iff in Hhelp as [Hh1 Hh2].
  rewrite !(existsb_insert _ pre post option) by (now rewrite String.eqb_sym).
  destruct (_ || _); [reflexivity|].
  assert (Hsame :
    exists i i',
      findIndex is_output_flag (pre ++ option :: post) = i
      /\ findIndex is_output_flag (pre ++ post) = i'
      /\ match i, i' with
         | Some i, Some i' =>
             (pre ++ option :: post)%list !! (i + 1)%nat = (pre ++ post)%list !! (i' + 1)%nat
         | None, None => True
         | _, _ => False
         end
      /\ filter_index (is_nonFlagArg i) 0 (pre ++ option :: post)
         = filter_index (is_nonFlagArg i') 0 (pre ++ post)).
  { rewrite !findIndex_app. cbn [findIndex]. rewrite Hout.
    destruct (findIndex is_output_flag pre) as [i|] eqn:Hpre.
    - specialize (Hpos i eq_refl). exists (Some i), (Some i).
      split; [reflexivity|]. split; [reflexivity|].
      split; [now rewrite !(lookup_app_l pre) by lia|].
      rewrite !filter_index_app. cbn [filter_index].
      assert (Hdrop : is_nonFlagArg (Some i) option (0 + length pre) = false).
      { unfold is_nonFlagArg. rewrite Hdash.
        now destruct ((0 + length pre =? i)%nat || (0 + length pre =? i + 1)%nat). }
      rewrite Hdrop. f_equal. apply filter_index_ext. intros x j _. unfold is_nonFlagArg.
      destruct (Nat.eqb_spec (S (0 + length pre) + j) i),
               (Nat.eqb_spec (S (0 + length pre) + j) (i + 1)),
               (Nat.eqb_spec (0 + length pre + j) i),
               (Nat.eqb_spec (0 + length pre + j) (i + 1)); try lia; reflexivity.
    - destruct (findIndex is_output_flag post) as [k|] eqn:Hpost;
        cbn [fmap option_fmap option_map].
      + exists (Some (length pre + S k)%nat), (Some (length pre + k)%nat).
        split; [reflexivity|]. split; [reflexivity|]. split.
        { rewrite !lookup_app_r by lia.
          replace (length pre + S k + 1 - length pre)%nat with (S (k + 1)) by lia.
          replace (length pre + k + 1 - length pre)%nat with (k + 1)%nat by lia.
          reflexivity. }
        rewrite !filter_index_app. cbn [filter_index].
        assert (Hdrop : is_nonFlagArg (Some (length pre + S k)%nat) option (0 + length pre)
                        = false).
        { unfold is_nonFlagArg. rewrite Hdash.
          now destruct ((0 + length pre =? length pre + S k)%nat
                        || (0 + length pre =? length pre + S k + 1)%nat). }
        rewrite Hdrop. f_equal.
        * apply filter_index_ext. intros x j Hj. unfold is_nonFlagArg.
          destruct (Nat.eqb_spec (0 + j) (length pre + S k)),
                   (Nat.eqb_spec (0 + j) (length pre + S k + 1)),
                   (Nat.eqb_spec (0 + j) (length pre + k)),
                   (Nat.eqb_spec (0 + j) (length pre + k + 1)); try lia; reflexivity.
        * apply filter_index_ext. intros x j _. unfold is_nonFlagArg.
          destruct (Nat.eqb_spec (S (0 + length pre) + j) (length pre + S k)),
                   (Nat.eqb_spec (S (0 + length pre) + j) (length pre + S k + 1)),
                   (Nat.eqb_spec (0 + length pre + j) (length pre + k)),
                   (Nat.eqb_spec (0 + length pre + j) (length pre + k + 1));
            try lia; reflexivity.
      + exists None, None. split; [reflexivity|]. split; [reflexivity|]. split; [exact I|].
        rewrite !filter_index_app. cbn [filter_index].
        unfold is_nonFlagArg at 2. rewrite Hdash. cbn [negb]. f_equal.
        now apply filter_index_ext. }
  destruct Hsame as (i & i' & -> & -> & Hnext & ->).
  destruct i as [i|], i' as [i'|]; try contradiction; [|reflexivity].
  now rewrite Hnext.
Qed.

Lemma unknown_option_ignored_witness :
  main sample_resources (with_args (sample_process []) (["in.revlog"] ++ "-v" :: ["-o"; "x"]))
  = main sample_resources (with_args (sample_process []) (["in.revlog"] ++ ["-o"; "x"])).
Proof.
  apply (unknown_option_ignored sample_resources (sample_process []) ["in.revlog"] "-v"
           ["-o"; "x"]); try reflexivity.
  intros i H. discriminate.
Defined.

(** ** Firmware versions *)

Lemma nth_drop_head (data : list byte) n b l :
  drop n data = b :: l -> nth n data x00 = b.
Proof.
  intros E. apply nth_lookup_Some.
  rewrite <- (Nat.add_0_r n), <- lookup_drop, E. reflexivity.
Qed.

Lemma readUInt8_byte_at data offset :
  0 <= offset < Buffer_length data -> readUInt8 data offset = Ok (byte_at data offset).
Proof.
  intros H. unfold readUInt8. rewrite read_field_Ok by lia. f_equal.
  unfold Buffer_slice, byte_at, Buffer_length in *.
  replace (Z.to_nat (offset + 1 - offset)) with 1%nat by lia.
  destruct (drop (Z.to_nat offset) data) as [|b l] eqn:E.
  - apply (f_equal length) in E. rewrite length_drop in E. simpl in E. lia.
  - rewrite (nth_drop_head _ _ _ _ E). simpl. lia.
Qed.

Lemma readUInt16BE_byte_at data offset :
  0 <= offset -> offset + 2 <= Buffer_length data ->
  readUInt16BE data offset = Ok (256 * byte_at data offset + byte_at data (offset + 1)).
Proof.
  intros H1 H2. unfold readUInt16BE.
  destruct (Z.gtb_spec (offset + 2) (Buffer_length data)); [lia|].
  destruct (Z.ltb_spec offset 0); [lia|]. simpl. f_equal.
  unfold Buffer_slice, byte_at, Buffer_length in *.
  replace (Z.to_nat (offset + 2 - offset)) with 2%nat by lia.
  replace (Z.to_nat (offset + 1)) with (S (Z.to_nat offset)) by lia.
  destruct (drop (Z.to_nat offset) data) as [|b0 [|b1 l]] eqn:E;
    try (apply (f_equal length) in E; rewrite length_drop in E; simpl in E; lia).
  rewrite (nth_drop_head _ _ _ _ E).
  assert (E1 : drop (S (Z.to_nat offset)) data = b1 :: l).
  { replace (S (Z.to_nat offset)) with (Z.to_nat offset + 1)%nat by lia.
    now rewrite <- (drop_drop data 1 (Z.to_nat offset)), E. }
  rewrite (nth_drop_head _ _ _ _ E1). simpl. lia.
Qed.

(** X25. The firmware version never fails to parse, whatever the length of
    the data. The default parser renders byte 0, byte 1 and the big-endian
    16-bit number of bytes 2 and 3, where a missing byte 0 or 1 counts as 0
    and the build number is 0 unless all four bytes are there. The parser of
    the encoder renders bytes 5, 4 and 3, and 0.0.0 for fewer than six bytes. *)
Theorem firmware_version_format device decoded data :
  (customVersionParser device = None ->
   parseFirmwareVersion device decoded data
   = Ok (version_string (byte_at data 0) (byte_at data 1)
                        (if Buffer_length data >? 3
                         then 256 * byte_at data 2 + byte_at data 3 else 0)))
  /\ (customVersionParser device = Some encoderVersionParser ->
      parseFirmwareVersion device decoded data
      = Ok (if Buffer_length data <? 6 then "0.0.0"
            else version_string (byte_at data 5) (byte_at data 4) (byte_at data 3))).
Proof.
  assert (0 <= Buffer_length data) by (unfold Buffer_length; lia).
  unfold parseFirmwareVersion. split; intros ->.
  - destruct (Z.eqb_spec (Buffer_length data) 0) as [E|E].
    + destruct data; [reflexivity|unfold Buffer_length in E; cbn [length] in E; lia].
    + destruct (Z.gtb_spec (Buffer_length data) 0); [|lia].
      rewrite (readUInt8_byte_at data 0) by lia. cbn [mbind outcome_bind obind].
      destruct (Z.gtb_spec (Buffer_length data) 1).
      * rewrite (readUInt8_byte_at data 1) by lia. cbn [mbind outcome_bind obind].
        destruct (Z.gtb_spec (Buffer_length data) 3); [|reflexivity].
        rewrite readUInt16BE_byte_at by lia. reflexivity.
      * cbn [mbind outcome_bind obind].
        destruct (Z.gtb_spec (Buffer_length data) 3); [lia|].
        cbn [mbind outcome_bind obind]. do 2 f_equal.
        unfold byte_at. rewrite nth_overflow; [reflexivity|].
        unfold Buffer_length in *. lia.
  - unfold encoderVersionParser.
    destruct (Z.eqb_spec (Buffer_length data) 0) as [E|E].
    + destruct (Z.ltb_spec (Buffer_length data) 6); [reflexivity|lia].
    + destruct (Z.ltb_spec (Buffer_length data) 6); [reflexivity|].
      rewrite !readUInt8_byte_at by lia. reflexivity.
Qed.

(** ** Devices *)

Lemma devices_None resources deviceType :
  deviceType <> MOTOR_CONTROLLER_ID -> deviceType <> SERVO_CONTROLLER_ID ->
  deviceType <> ENCODER_ID ->
  devices resources !! deviceType = None.
Proof.
  intros H1 H2 H3. unfold devices.
  rewrite !lookup_insert_ne by congruence. apply lookup_empty.
Qed.

(** X26. A record of a device type other than 2 (motor controller), 7
    (encoder) and 12 (servo hub), the type being bits 24 to 28 of the CAN id,
    is skipped: it writes nothing and raises nothing, in a firmware block and
    in a periodic block. *)
Theorem unknown_device_type_skipped resources payloadBytes pc st :
  (forall messageId,
     readUInt32LE payloadBytes pc = Ok messageId ->
     js_and (js_shr messageId 24) 0x1f ∉ [2; 7; 12] ->
     firmware_record resources payloadBytes pc st = (Ok tt, st))
  /\ (forall msgTsMs messageId,
        readUInt32LE payloadBytes pc = Ok msgTsMs ->
        readUInt32LE payloadBytes (pc + 4) = Ok messageId ->
        js_and (js_shr messageId 24) 0x1f ∉ [2; 7; 12] ->
        periodic_record resources payloadBytes pc st = (Ok tt, st)).
Proof.
  split.
  - intros messageId Hr Hd. unfold firmware_record.
    unfold mbind, M_bind, bind, lift. rewrite Hr. cbv zeta.
    rewrite devices_None; [reflexivity|..]; intros E; apply Hd; rewrite E; set_solver.
  - intros msgTsMs messageId Ht Hr Hd. unfold periodic_record.
    unfold mbind, M_bind, bind, lift. rewrite Ht, Hr. cbv zeta.
    rewrite devices_None; [reflexivity|..]; intros E; apply Hd; rewrite E; set_solver.
Qed.

(** ** The loop of the scan ends *)

(** X27. The scan loop ends on every input: an entry that is cut out moves
    the cursor at least three bytes forward and never behind the end of the
    input, so the loop runs no more iterations than the input has bytes, and
    a larger bound on the iterations gives the same result. *)
Theorem scan_ends resources binary_data :
  (forall cursor entryId payloadBytes cursor',
     0 <= cursor < Buffer_length binary_data ->
     read_entry binary_data cursor = Ok (Some (entryId, payloadBytes, cursor')) ->
     cursor + 3 <= cursor' <= Buffer_length binary_data)
  /\ (forall fuel st,
        (scan_fuel binary_data <= fuel)%nat ->
        scan resources fuel binary_data 0 st
        = scan resources (scan_fuel binary_data) binary_data 0 st).
Proof.
  split.
  - intros cursor entryId payloadBytes cursor'. apply read_entry_advance.
  - intros fuel st Hfuel. apply scan_fuel_irrelevant; unfold scan_fuel, Buffer_length in *; lia.
Qed.

(** ** The payload of a control record reads back *)

Lemma read_field_at (pre field post : list byte) offset n :
  offset = Z.of_nat (length pre) -> n = Z.of_nat (length field) ->
  read_field (pre ++ field ++ post) offset n = Ok (le_value field).
Proof.
  intros Ho Hn. rewrite read_field_Ok.
  - now rewrite (Buffer_slice_at pre field post) by lia.
  - lia.
  - unfold Buffer_length. rewrite !length_app. lia.
Qed.

(** X28. The payload of a control record reads back: a reader that takes
    the control type, the entry id and the three length-prefixed texts apart
    finds the type 0 (start of a stream), the id of the stream and the UTF-8
    bytes of its name, of its type and of its metadata, as long as each text
    is shorter than 2^32 bytes. *)
Theorem control_payload_reads_back entryId entryName dataType metadata payload :
  control_payload entryId entryName dataType metadata = Ok payload ->
  Buffer_byteLength entryName < 2 ^ 32 ->
  Buffer_byteLength dataType < 2 ^ 32 ->
  Buffer_byteLength metadata < 2 ^ 32 ->
  control_record_fields payload
  = Ok (0, entryId, utf8 entryName, utf8 dataType, utf8 metadata).
Proof.
  intros Hp Hn Ht Hm. pose proof (control_payload_Ok _ _ _ _ _ Hp) as Hid.
  unfold control_payload, writeUInt32LE in Hp.
  destruct (Z.ltb_spec entryId 0), (Z.gtb_spec entryId 0xffffffff); try lia.
  cbn [orb mbind outcome_bind obind] in Hp. injection Hp as <-.
  unfold Buffer_byteLength, length_field in *.
  set (n := utf8 entryName) in *. set (t := utf8 dataType) in *. set (m := utf8 metadata) in *.
  change (Z.to_nat 4) with 4%nat.
  set (f_id := le_bytes 4 entryId).
  set (f_n := le_bytes 4 (Buffer_length n)).
  set (f_t := le_bytes 4 (Buffer_length t)).
  set (f_m := le_bytes 4 (Buffer_length m)).
  assert (0 <= Buffer_length n /\ 0 <= Buffer_length t /\ 0 <= Buffer_length m)
    as (Hn0 & Ht0 & Hm0) by (unfold Buffer_length; lia).
  assert (Lid : length f_id = 4%nat) by apply length_le_bytes.
  assert (Ln : length f_n = 4%nat) by apply length_le_bytes.
  assert (Lt : length f_t = 4%nat) by apply length_le_bytes.
  assert (Lm : length f_m = 4%nat) by apply length_le_bytes.
  assert (Vid : le_value f_id = entryId).
  { unfold f_id. rewrite le_value_le_bytes. apply Z.mod_small.
    change (256 ^ Z.of_nat 4) with (2 ^ 32). lia. }
  assert (Vn : le_value f_n = Buffer_length n).
  { unfold f_n. rewrite le_value_le_bytes. apply Z.mod_small.
    change (256 ^ Z.of_nat 4) with (2 ^ 32). lia. }
  assert (Vt : le_value f_t = Buffer_length t).
  { unfold f_t. rewrite le_value_le_bytes. apply Z.mod_small.
    change (256 ^ Z.of_nat 4) with (2 ^ 32). lia. }
  assert (Vm : le_value f_m = Buffer_length m).
  { unfold f_m. rewrite le_value_le_bytes. apply Z.mod_small.
    change (256 ^ Z.of_nat 4) with (2 ^ 32). lia. }
  match goal with |- control_record_fields ?p = _ => set (payload := p) end.
  assert (Hpay : payload = (Buffer_from [0] ++ f_id ++ f_n ++ n ++ f_t ++ t ++ f_m ++ m)%list)
    by reflexivity.
  clearbody payload f_id f_n f_t f_m n t m. subst payload.
  set (payload := (Buffer_from [0] ++ f_id ++ f_n ++ n ++ f_t ++ t ++ f_m ++ m)%list).
  unfold control_record_fields, readUInt8, readUInt32LE.
  assert (R0 : read_field payload 0 1 = Ok 0).
  { change payload with ([] ++ Buffer_from [0] ++ (f_id ++ f_n ++ n ++ f_t ++ t ++ f_m ++ m))%list.
    now rewrite read_field_at. }
  assert (R1 : read_field payload 1 4 = Ok entryId).
  { change payload with (Buffer_from [0] ++ f_id ++ (f_n ++ n ++ f_t ++ t ++ f_m ++ m))%list.
    rewrite read_field_at by (simpl; lia). now rewrite Vid. }
  assert (R2 : read_field payload 5 4 = Ok (Buffer_length n)).
  { replace payload with ((Buffer_from [0] ++ f_id) ++ f_n ++ (n ++ f_t ++ t ++ f_m ++ m))%list
      by (unfold payload; now rewrite <- !app_assoc).
    rewrite read_field_at by (rewrite ?length_app; simpl; lia). now rewrite Vn. }
  assert (R3 : read_field payload (9 + Buffer_length n) 4 = Ok (Buffer_length t)).
  { replace payload with ((Buffer_from [0] ++ f_id ++ f_n ++ n) ++ f_t ++ (t ++ f_m ++ m))%list
      by (unfold payload; now rewrite <- !app_assoc).
    rewrite read_field_at; [now rewrite Vt| |lia].
    unfold Buffer_length. rewrite !length_app. simpl. lia. }
  assert (R4 : read_field payload (9 + Buffer_length n + 4 + Buffer_length t) 4
               = Ok (Buffer_length m)).
  { replace payload
      with ((Buffer_from [0] ++ f_id ++ f_n ++ n ++ f_t ++ t) ++ f_m ++ (m ++ []))%list
      by (unfold payload; rewrite app_nil_r; now rewrite <- !app_assoc).
    rewrite read_field_at; [now rewrite Vm| |lia].
    unfold Buffer_length. rewrite !length_app. simpl. lia. }
  rewrite R0. cbn [mbind outcome_bind obind]. rewrite R1. cbn [mbind outcome_bind obind].
  rewrite R2. cbn [mbind outcome_bind obind]. rewrite R3. cbn [mbind outcome_bind obind].
  rewrite R4. cbn [mbind outcome_bind obind].
  assert (Hlen : Buffer_length payload
                 = 9 + Buffer_length n + 4 + Buffer_length t + 4 + Buffer_length m).
  { unfold payload, Buffer_length. rewrite !length_app. simpl. lia. }
  destruct (Z.gtb_spec (9 + Buffer_length n + 4 + Buffer_length t + 4 + Buffer_length m)
              (Buffer_length payload)); [lia|].
  do 2 f_equal; [do 2 f_equal|].
  - replace payload with ((Buffer_from [0] ++ f_id ++ f_n) ++ n ++ (f_t ++ t ++ f_m ++ m))%list
      by (unfold payload; now rewrite <- !app_assoc).
    apply Buffer_slice_at; [|reflexivity]. rewrite !length_app. simpl. lia.
  - replace payload with ((Buffer_from [0] ++ f_id ++ f_n ++ n ++ f_t) ++ t ++ (f_m ++ m))%list
      by (unfold payload; now rewrite <- !app_assoc).
    apply Buffer_slice_at; unfold Buffer_length; rewrite ?length_app; simpl; lia.
  - replace payload
      with ((Buffer_from [0] ++ f_id ++ f_n ++ n ++ f_t ++ t ++ f_m) ++ m ++ [])%list
      by (unfold payload; rewrite app_nil_r; now rewrite <- !app_assoc).
    apply Buffer_slice_at; unfold Buffer_length; rewrite ?length_app; simpl; lia.
Qed.

Lemma control_payload_reads_back_witness :
  control_record_fields
    (match control_payload 3 "REV/ServoHub-5/FIRMWARE" "string" EmptyString with
     | Ok payload => payload
     | Throw _ => []
     end)
  = Ok (0, 3, utf8 "REV/ServoHub-5/FIRMWARE", utf8 "string", utf8 EmptyString).
Proof.
  apply (control_payload_reads_back 3 "REV/ServoHub-5/FIRMWARE" "string" EmptyString);
    vm_compute; reflexivity.
Defined.

(** ** A longer input *)

Lemma control_byte_app_l data more cursor :
  0 <= cursor < Buffer_length data ->
  control_byte (data ++ more) cursor = control_byte data cursor.
Proof.
  intros H. unfold control_byte, Buffer_length in *. rewrite app_nth1 by lia. reflexivity.
Qed.

(** An entry that the scan cuts out of an input is cut out of every longer
    input in the same way. *)
Lemma read_entry_app_l data more cursor x :
  0 <= cursor < Buffer_length data ->
  read_entry data cursor = Ok (Some x) ->
  read_entry (data ++ more) cursor = Ok (Some x).
Proof.
  intros Hc. assert (Hlen : Buffer_length data <= Buffer_length (data ++ more))
    by (unfold Buffer_length; rewrite length_app; lia).
  rewrite !read_entry_cases by lia.
  unfold header_end, declared_payloadSize, declared_entryId, header_end.
  rewrite control_byte_app_l by lia.
  set (b := control_byte data cursor).
  pose proof (entryIdLen_bounds b). pose proof (sizeLen_bounds b).
  destruct (Z.gtb_spec (cursor + 1 + entryIdLen b + sizeLen b) (Buffer_length data));
    [discriminate|].
  rewrite !(Buffer_slice_app_l data more) by lia.
  set (size := le_value _).
  destruct (Z.gtb_spec (cursor + 1 + entryIdLen b + sizeLen b + size) (Buffer_length data));
    [discriminate|].
  intros [= <-].
  assert (0 <= size) by apply le_value_nonneg.
  destruct (Z.gtb_spec (cursor + 1 + entryIdLen b + sizeLen b) (Buffer_length (data ++ more)));
    [lia|].
  destruct (Z.gtb_spec (cursor + 1 + entryIdLen b + sizeLen b + size)
              (Buffer_length (data ++ more))); [lia|].
  now rewrite Buffer_slice_app_l by lia.
Qed.

Lemma scan_grows resources fuel binary_data cursor st :
  outputChunks st `prefix_of` outputChunks (scan resources fuel binary_data cursor st).2.
Proof.
  destruct (keeps_records_scan resources (outputChunks st) fuel binary_data cursor st
              (grown_by_refl _ st)) as (suffix & E & _).
  rewrite E. now exists suffix.
Qed.

Lemma scan_prefix resources data more fuel :
  forall cursor st,
    0 <= cursor ->
    outputChunks (scan resources fuel data cursor st).2
    `prefix_of`
    outputChunks (scan resources (scan_fuel (data ++ more)) (data ++ more) cursor st).2.
Proof.
  assert (Hlen : Buffer_length data <= Buffer_length (data ++ more))
    by (unfold Buffer_length; rewrite length_app; lia).
  induction fuel as [|fuel IH]; intros cursor st Hc.
  - simpl. destruct (cursor <? Buffer_length data); apply scan_grows.
  - rewrite scan_S. destruct (Z.ltb_spec cursor (Buffer_length data)); [|apply scan_grows].
    destruct (read_entry data cursor) as [[[[entryId payloadBytes] cursor']|]|e] eqn:Hr;
      try apply scan_grows.
    rewrite scan_step by lia.
    rewrite (read_entry_app_l data more cursor _ ltac:(lia) Hr).
    pose proof (read_entry_advance data cursor _ _ _ ltac:(lia) Hr).
    destruct (process_entry resources entryId payloadBytes st) as [[[]|e] st'];
      [apply IH; lia|reflexivity].
Qed.

Lemma convert_state resources binary_data :
  3 <= Buffer_length binary_data ->
  (convert resources binary_data initial_state).2
  = (scan resources (scan_fuel binary_data) binary_data 0 scan_start).2.
Proof.
  intros Hlen. unfold convert. destruct (Z.ltb_spec (Buffer_length binary_data) 3); [lia|].
  unfold mbind, M_bind, bind, push, get_state, lift, ret. cbv beta iota.
  change (scan resources (scan_fuel binary_data) binary_data 0 _)
    with (scan resources (scan_fuel binary_data) binary_data 0 scan_start).
  destruct (scan resources (scan_fuel binary_data) binary_data 0 scan_start) as [[[]|e] st'];
    [|reflexivity].
  now destruct (recordsProcessed st').
Qed.

Lemma convert_prefix resources data more :
  outputChunks (convert resources data initial_state).2
  `prefix_of` outputChunks (convert resources (data ++ more) initial_state).2.
Proof.
  assert (Hlen : Buffer_length data <= Buffer_length (data ++ more))
    by (unfold Buffer_length; rewrite length_app; lia).
  destruct (Z_lt_le_dec (Buffer_length data) 3) as [Hs|Hs].
  - unfold convert at 1. destruct (Z.ltb_spec (Buffer_length data) 3); [|lia].
    simpl. apply prefix_nil.
  - rewrite !convert_state by lia. apply scan_prefix. lia.
Qed.

(** X29. More input never changes what has been converted: when an input
    and a longer input that starts with it both convert, the output for the
    longer input starts with the output for the shorter one. *)
Theorem longer_input_extends_output resources data more out out' :
  parseREVLOG resources data = Ok out ->
  parseREVLOG resources (data ++ more) = Ok out' ->
  out `prefix_of` out'.
Proof.
  intros H H'. apply parseREVLOG_Ok in H as (_ & st & Hc & ->).
  apply parseREVLOG_Ok in H' as (_ & st' & Hc' & ->).
  pose proof (convert_prefix resources data more) as [suffix E].
  rewrite Hc, Hc' in E. simpl in E. rewrite E, map_app, concat_app.
  now eexists.
Qed.

Lemma longer_input_extends_output_witness :
  match parseREVLOG sample_resources sample_firmware_input with
  | Ok out => out
  | Throw _ => []
  end
  `prefix_of`
  match parseREVLOG sample_resources (sample_firmware_input ++ sample_periodic_input) with
  | Ok out => out
  | Throw _ => []
  end.
Proof.
  apply (longer_input_extends_output sample_resources sample_firmware_input
           sample_periodic_input);
    vm_compute; reflexivity.
Defined.

(** ** Line ends of a catalog *)

Lemma split_lines_crlf before after :
  ends_with_cr before = false ->
  split_lines (before ++ crlf ++ after) = split_lines (before ++ nl ++ after).
Proof.
  induction before as [|c before IH]; intros H; [reflexivity|].
  change (String c before ++ crlf ++ after) with (String c (before ++ crlf ++ after)).
  change (String c before ++ nl ++ after) with (String c (before ++ nl ++ after)).
  cbn [split_lines]. destruct before as [|d before].
  - cbn [ends_with_cr] in H. rewrite H. reflexivity.
  - rewrite IH by exact H. reflexivity.
Qed.

(** X30. A catalog with Windows line ends loads as the same catalog: a
    carriage return in front of a line feed belongs to the line end, so a
    line that ends with the two characters is the line that ends with the
    line feed alone. *)
Theorem crlf_loads_as_lf this before after :
  ends_with_cr before = false ->
  load this (before ++ crlf ++ after) = load this (before ++ nl ++ after).
Proof. intros H. unfold load. now rewrite split_lines_crlf. Qed.

Lemma crlf_loads_as_lf_witness :
  load new_Dbc ("BO_ 7 M: 8 X" ++ crlf ++ " SG_ A : 0|8@1+ (1,0) [0|0] " ++ quote ++ quote ++ " X")
  = load new_Dbc ("BO_ 7 M: 8 X" ++ nl ++ " SG_ A : 0|8@1+ (1,0) [0|0] " ++ quote ++ quote ++ " X").
Proof.
  apply (crlf_loads_as_lf new_Dbc "BO_ 7 M: 8 X"
           (" SG_ A : 0|8@1+ (1,0) [0|0] " ++ quote ++ quote ++ " X")).
  reflexivity.
Defined.
